(** * trie-fs: a shallow embedding of [filesystem.go]

    The Go package keeps a compressed trie of [Entry] nodes keyed by
    slash-separated paths.  Go strings are byte sequences, so paths are
    modelled by [string] (a sequence of [ascii] bytes); a multi-byte UTF-8
    rune is simply several consecutive bytes.  In-place mutation through
    pointers is rendered by functions that return the updated node. *)

From Stdlib Require Import String Ascii List ZArith NArith Arith Bool Lia.
Import ListNotations.

Open Scope string_scope.

(* ================================================================== *)
(** ** The fragment of Go's [strings], [path/filepath] and [unicode/utf8]
       packages that the source calls *)
(* ================================================================== *)

Module GoStrings.

(** [s[n:]] and [s[:n]] for [n <= len(s)]. *)
Fixpoint drop (n : nat) (s : string) : string :=
  match n, s with
  | O, _ => s
  | S k, String _ r => drop k r
  | S _, EmptyString => EmptyString
  end.

Fixpoint take (n : nat) (s : string) : string :=
  match n, s with
  | O, _ => EmptyString
  | S k, String c r => String c (take k r)
  | S _, EmptyString => EmptyString
  end.

(** [s[i]]; [None] stands for Go's index-out-of-range panic. *)
Fixpoint byteAt (i : nat) (s : string) : option ascii :=
  match s, i with
  | EmptyString, _ => None
  | String c _, O => Some c
  | String _ r, S k => byteAt k r
  end.

Definition byte_is (o : option ascii) (c : ascii) : bool :=
  match o with
  | Some d => Ascii.eqb d c
  | None => false
  end.

(** [strings.HasPrefix(s, prefix)] *)
Fixpoint HasPrefix (s prefix : string) : bool :=
  match prefix, s with
  | EmptyString, _ => true
  | String _ _, EmptyString => false
  | String p pr, String c r => Ascii.eqb c p && HasPrefix r pr
  end.

(** [strings.TrimPrefix(s, prefix)] *)
Definition TrimPrefix (s prefix : string) : string :=
  if HasPrefix s prefix then drop (String.length prefix) s else s.

(** [strings.Index(s, substr)], [-1] when absent. *)
Fixpoint Index (s substr : string) : Z :=
  if HasPrefix s substr then 0%Z
  else match s with
       | EmptyString => (-1)%Z
       | String _ r =>
           let i := Index r substr in
           if (i <? 0)%Z then (-1)%Z else (i + 1)%Z
       end.

(** [strings.LastIndex(s, substr)], [-1] when absent. *)
Fixpoint LastIndex (s substr : string) : Z :=
  match s with
  | EmptyString => if HasPrefix s substr then 0%Z else (-1)%Z
  | String _ r =>
      let i := LastIndex r substr in
      if (0 <=? i)%Z then (i + 1)%Z
      else if HasPrefix s substr then 0%Z else (-1)%Z
  end.

(** [strings.Contains(s, substr)] *)
Definition Contains (s substr : string) : bool := (0 <=? Index s substr)%Z.

(** [strings.ReplaceAll(s, old, new)] for a non-empty [old]: matches are
    found left to right and do not overlap; [skip] counts the bytes of
    the match that are still to be passed over. *)
Fixpoint replaceFrom (skip : nat) (s old new : string) : string :=
  match s with
  | EmptyString => EmptyString
  | String c r =>
      match skip with
      | S k => replaceFrom k r old new
      | O =>
          if HasPrefix s old
          then new ++ replaceFrom (String.length old - 1) r old new
          else String c (replaceFrom 0 r old new)
      end
  end.

Definition ReplaceAll (s old new : string) : string := replaceFrom 0 s old new.

(** [strings.Split(s, sep)] for a one-byte separator. *)
Fixpoint Split (s : string) (sep : ascii) : list string :=
  match s with
  | EmptyString => [EmptyString]
  | String c r =>
      if Ascii.eqb c sep then EmptyString :: Split r sep
      else match Split r sep with
           | [] => [String c EmptyString]
           | w :: ws => String c w :: ws
           end
  end.

(** [strings.Join(parts, sep)] *)
Fixpoint Join (parts : list string) (sep : string) : string :=
  match parts with
  | [] => EmptyString
  | [p] => p
  | p :: ps => p ++ sep ++ Join ps sep
  end.

Definition lastByte (s : string) : option ascii := byteAt (String.length s - 1) s.

(** The loop of [filepath.Base] that strips trailing separators. *)
Fixpoint stripTrailing (fuel : nat) (s : string) : string :=
  match fuel with
  | O => s
  | S k =>
      if byte_is (lastByte s) "/"
      then stripTrailing k (take (String.length s - 1) s)
      else s
  end.

(** [filepath.Base(path)] on a Unix system. *)
Definition Base (path : string) : string :=
  if String.eqb path "" then "."
  else
    let p := stripTrailing (String.length path) path in
    let i := LastIndex p "/" in
    let p := if (0 <=? i)%Z then drop (Z.to_nat i + 1) p else p in
    if String.eqb p "" then "/" else p.

(** [utf8.RuneStart(b)]: [b&0xC0 != 0x80]. *)
Definition RuneStart (b : ascii) : bool :=
  match b with
  | Ascii _ _ _ _ _ _ b6 b7 => negb (b7 && negb b6)
  end.

Definition inRange (lo hi : N) (b : ascii) : bool :=
  let n := N_of_ascii b in (lo <=? n)%N && (n <=? hi)%N.

Definition cont (b : ascii) : bool := inRange 128 191 b.

(** Length of the well-formed UTF-8 encoding that starts [s], or [0]
    when [s] is empty or starts with an ill-formed sequence;
    the table is that of [utf8.first] and [utf8.acceptRanges]. *)
Definition runeLen (s : string) : nat :=
  match s with
  | EmptyString => 0
  | String c0 r =>
      if inRange 0 127 c0 then 1
      else match r with
      | EmptyString => 0
      | String c1 r1 =>
          if inRange 194 223 c0 then (if cont c1 then 2 else 0)
          else match r1 with
          | EmptyString => 0
          | String c2 r2 =>
              let lo1 := if inRange 224 224 c0 then 160%N
                         else if inRange 240 240 c0 then 144%N else 128%N in
              let hi1 := if inRange 237 237 c0 then 159%N
                         else if inRange 244 244 c0 then 143%N else 191%N in
              if inRange 224 239 c0
              then (if inRange lo1 hi1 c1 && cont c2 then 3 else 0)
              else match r2 with
              | EmptyString => 0
              | String c3 _ =>
                  if inRange 240 244 c0 && inRange lo1 hi1 c1 && cont c2 && cont c3
                  then 4 else 0
              end
          end
      end
  end.

Definition RuneError : N := 65533.

(** [utf8.DecodeRuneInString(s)]: the rune and its width. *)
Definition DecodeRuneInString (s : string) : N * nat :=
  let b i := match byteAt i s with Some c => N_of_ascii c | None => 0%N end in
  match runeLen s with
  | 1 => (b 0, 1)
  | 2 => (N.lor (N.shiftl (N.land (b 0) 31) 6) (N.land (b 1) 63), 2)
  | 3 => (N.lor (N.lor (N.shiftl (N.land (b 0) 15) 12)
                       (N.shiftl (N.land (b 1) 63) 6))
                (N.land (b 2) 63), 3)
  | 4 => (N.lor (N.lor (N.lor (N.shiftl (N.land (b 0) 7) 18)
                              (N.shiftl (N.land (b 1) 63) 12))
                       (N.shiftl (N.land (b 2) 63) 6))
                (N.land (b 3) 63), 4)
  | _ => (RuneError, match s with EmptyString => 0 | _ => 1 end)
  end.

(** [utf8.ValidString(s)]: [s] is a concatenation of well-formed
    encodings.  [pending] counts the bytes of the current rune that are
    still to be passed over. *)
Fixpoint validFrom (pending : nat) (s : string) : bool :=
  match s with
  | EmptyString => Nat.eqb pending 0
  | String _ r =>
      match pending with
      | S k => validFrom k r
      | O => match runeLen s with
             | O => false
             | S k => validFrom k r
             end
      end
  end.

Definition ValidString (s : string) : bool := validFrom 0 s.

End GoStrings.

Import GoStrings.

(** A string given by its bytes, for runes outside ASCII. *)
Definition bytes (l : list nat) : string :=
  string_of_list_ascii (map ascii_of_nat l).

(* ================================================================== *)
(** ** Constants, errors and the data model *)
(* ================================================================== *)

Definition MIMEDriveDirectory : string := "application/chainsafe-files-directory".
Definition MIMEDriveEntry : string := "application/chainsafe-files-entry".
Definition MIMEOctetStream : string := "application/octet-stream".
Definition MIMEReference : string := "application/chainsafe-files-reference".

Definition SpecialPathSymbol : string := ":".
Definition Separator : string := "/".
Definition SeparatorRune : ascii := "/"%char.
Definition DoubleSeparator : string := "//".

Inductive error : Set :=
| ErrConflict
| ErrEmptyPath
| ErrEmptyName
| ErrIllegalPathChars
| ErrIllegalNameChars
| ErrCantAddDirectory
| ErrFileNotExist
| ErrCantCreateRef.

(** [Content]: [Size] and [CreatedAt] are [int64], [Version] a byte; no
    arithmetic is done on them, they are carried as integers.  A
    [time.Time] is represented by its Unix seconds, which is all the
    source reads of it ([createdAt.Unix()], [time.Unix(sec, 0)]). *)
Record Content : Set := mkContent {
  Name : string;
  CID : string;
  Type_ : string;
  Size : Z;
  Version : Z;
  CreatedAt : Z
}.

Record Meta : Set := mkMeta {
  FailureCode : Z;
  FailedMessage : string;
  SuggestedAction : string
}.

(** [Entry]: a node owns its children.  A nil and an empty [Entries]
    slice are both the empty list: the code only ever reads
    [len(entry.Entries)]. *)
#[local] Unset Elimination Schemes.
Inductive Entry : Set :=
  mkEntry { EContent : Content; Path : string; Entries : list Entry; EMeta : option Meta }.
#[local] Set Elimination Schemes.

Definition setContent (c : Content) (e : Entry) : Entry :=
  mkEntry c (Path e) (Entries e) (EMeta e).
Definition setPath (p : string) (e : Entry) : Entry :=
  mkEntry (EContent e) p (Entries e) (EMeta e).
Definition setEntries (es : list Entry) (e : Entry) : Entry :=
  mkEntry (EContent e) (Path e) es (EMeta e).

Definition EType (e : Entry) : string := Type_ (EContent e).

(** What a Go call leaves behind: a result, or a run-time panic (index
    out of range), or, for the traversals that recurse on computed paths,
    an exhausted recursion budget. *)
Inductive outcome (A : Type) : Type :=
| Ret (a : A)
| Panic
| OutOfFuel.
Arguments Ret {A} a.
Arguments Panic {A}.
Arguments OutOfFuel {A}.

Definition bind {A B} (o : outcome A) (k : A -> outcome B) : outcome B :=
  match o with
  | Ret a => k a
  | Panic => Panic
  | OutOfFuel => OutOfFuel
  end.

Notation "x <- o ;; k" := (bind o (fun x => k))
  (at level 61, o at next level, right associativity).
Notation "' p <- o ;; k" := (bind o (fun p => k))
  (at level 61, p pattern, o at next level, right associativity).

(** [s[0]], which panics on the empty string. *)
Definition firstByte (s : string) : outcome ascii :=
  match s with
  | EmptyString => Panic
  | String c _ => Ret c
  end.

(* ================================================================== *)
(** ** Path utilities *)
(* ================================================================== *)

(** The [for] loop of [CleanPath]; every round shortens the path, so
    [len(path)] rounds are enough (see [collapse_stable]). *)
Fixpoint collapse (fuel : nat) (path : string) : string :=
  match fuel with
  | O => path
  | S k =>
      if Contains path DoubleSeparator
      then collapse k (ReplaceAll path DoubleSeparator Separator)
      else path
  end.

Definition CleanPath (path : string) : string :=
  let pl := String.length path in
  if Nat.eqb pl 0 then path
  else
    let path := collapse pl path in
    let path := if byte_is (byteAt 0 path) SeparatorRune then path
                else Separator ++ path in
    let pl := String.length path in
    if Nat.ltb 1 pl && byte_is (byteAt (pl - 1) path) SeparatorRune
    then take (pl - 1) path
    else path.

Definition JoinPath (paths : list string) : string :=
  CleanPath (Join paths Separator).

(** The first loop of [commonPrefix]: the length of the byte-wise
    longest common prefix. *)
Fixpoint matchLen (a b : string) : nat :=
  match a, b with
  | String x a', String y b' => if Ascii.eqb x y then S (matchLen a' b') else 0
  | _, _ => 0
  end.

(** The second loop: back up while [a[i]] is a continuation byte. *)
Fixpoint backUp (a : string) (i : nat) : nat :=
  match i with
  | O => O
  | S k =>
      match byteAt i a with
      | Some c => if negb (RuneStart c) then backUp a k else i
      | None => i
      end
  end.

Definition commonPrefix (a b : string) : string :=
  take (backUp a (matchLen a b)) a.

(* ================================================================== *)
(** ** Entries and contents *)
(* ================================================================== *)

Definition NewContent (name cid : string) (size : Z) (t : string) (createdAt : Z)
  : Content :=
  if String.eqb t MIMEDriveEntry
  then mkContent "" "" t 0 0 createdAt
  else
    let version := if String.eqb t MIMEDriveDirectory then 0%Z else 1%Z in
    mkContent name cid t size version createdAt.

Definition NewEntry (path cid : string) (size : Z) (contentType : string)
                    (createdAt : Z) : Entry :=
  let me := mkEntry (NewContent (Base path) cid size contentType createdAt)
                    path [] None in
  if String.eqb contentType MIMEDriveEntry
  then
    let c := EContent me in
    let me := mkEntry (mkContent "" (CID c) (Type_ c) (Size c) 0 (CreatedAt c))
                      SpecialPathSymbol [] None in
    mkEntry (mkContent "" "" MIMEDriveEntry 0 0 createdAt) path [me] None
  else me.

(** [Content.Validate]; the receiver is returned because an empty type
    is overwritten in place. *)
Definition ContentValidate (c : Content) : Content * option error :=
  if Contains (Name c) Separator || Contains (Name c) SpecialPathSymbol
  then (c, Some ErrIllegalNameChars)
  else if Nat.eqb (String.length (Type_ c)) 0
       then (mkContent (Name c) (CID c) MIMEOctetStream (Size c) (Version c)
                       (CreatedAt c), None)
       else (c, None).

Definition IsDirectory (c : Content) : bool :=
  String.eqb (Type_ c) MIMEDriveDirectory || String.eqb (Type_ c) MIMEDriveEntry.

Definition IsEmptyFolder (entry : Entry) : bool :=
  String.eqb (EType entry) MIMEDriveEntry &&
  match Entries entry with
  | [e0] => String.eqb (Path e0) SpecialPathSymbol
  | _ => false
  end.

Definition Validate (entry : Entry) : Entry * option error :=
  if String.eqb (EType entry) MIMEDriveDirectory
  then (entry, Some ErrCantAddDirectory)
  else if String.eqb (Name (EContent entry)) "." &&
          Nat.eqb (String.length (Path entry)) 0
  then (entry, Some ErrEmptyPath)
  else if Contains (Path entry) SpecialPathSymbol
  then (entry, Some ErrIllegalPathChars)
  else if IsEmptyFolder entry && Nat.eqb (String.length (CleanPath (Path entry))) 0
  then (entry, Some ErrEmptyName)
  else let '(c, err) := ContentValidate (EContent entry) in
       (setContent c entry, err).

Definition copyMeta (m : option Meta) : option Meta :=
  match m with
  | None => None
  | Some x => Some (mkMeta (FailureCode x) (FailedMessage x) (SuggestedAction x))
  end.

(** [entry.copy()] together with [copyEntries]. *)
Fixpoint copy (entry : Entry) : Entry :=
  mkEntry (EContent entry) (Path entry) (map copy (Entries entry))
          (copyMeta (EMeta entry)).

(** [entry.Copy(m)] overwrites every field of the receiver. *)
Definition CopyFrom (m : Entry) : Entry := copy m.

Definition copyContent (c : Content) : Content :=
  mkContent (Name c) (CID c) (Type_ c) (Size c) (Version c) (CreatedAt c).

Definition trimPrefix (entry : Entry) (prefix : string) : Entry :=
  let p := TrimPrefix (Path entry) prefix in
  setPath (if Nat.eqb (String.length p) 0 then SpecialPathSymbol else p) entry.

Definition setType (t : string) (c : Content) : Content :=
  mkContent (Name c) (CID c) t (Size c) (Version c) (CreatedAt c).
Definition setName (n : string) (c : Content) : Content :=
  mkContent n (CID c) (Type_ c) (Size c) (Version c) (CreatedAt c).

(** [splitEntry]: the loop over [strings.Split(path, "/")], carrying
    [currentPath], the index [i] and the entries collected so far. *)
Fixpoint splitEntryLoop (entry : Entry) (n : nat) (paths : list string)
                        (i : nat) (currentPath : string) : list Entry :=
  match paths with
  | [] => []
  | p :: rest =>
      if String.eqb p "" then splitEntryLoop entry n rest (S i) currentPath
      else
        let currentPath := if Nat.eqb i 0 then p
                           else currentPath ++ Separator ++ p in
        let c := EContent entry in
        let cnt :=
          if IsDirectory c || negb (Nat.eqb i (n - 1))
          then NewContent (Base currentPath) "" 0 MIMEDriveDirectory (CreatedAt c)
          else NewContent (Base currentPath) (CID c) (Size c) (Type_ c) (CreatedAt c) in
        mkEntry cnt currentPath [] None
          :: splitEntryLoop entry n rest (S i) currentPath
  end.

Definition splitEntry (entry : Entry) : list Entry :=
  let paths := Split (Path entry) SeparatorRune in
  splitEntryLoop entry (List.length paths) paths 0 "".

Definition fixEntry (prefix : string) (entry : Entry) : Entry :=
  let path := prefix ++ Path entry in
  let c := setName (Base path) (EContent entry) in
  let c := if String.eqb (Type_ c) MIMEDriveEntry
           then setType MIMEDriveDirectory c else c in
  mkEntry c path [] (EMeta entry).

Definition fixEntries (entries : list Entry) (prefix : string) : list Entry :=
  map (fixEntry prefix) entries.

(* ================================================================== *)
(** ** Insertion *)
(* ================================================================== *)

Definition isEntryType (c : Content) : bool := String.eqb (Type_ c) MIMEDriveEntry.

(** [split]; the Go function always returns a nil error, only the
    rewritten node [me] is returned here. *)
Definition split (subprefix : string) (me what : Entry) (trimPath : bool) : Entry :=
  let newEntry :=
    mkEntry (EContent me) (Path (trimPrefix me subprefix)) (Entries me) None in
  if IsEmptyFolder what && String.eqb (Path what) subprefix
  then
    let me := CopyFrom what in
    setEntries (Entries me ++ [newEntry]) me
  else
    let what := if trimPath then trimPrefix what subprefix else what in
    mkEntry (NewContent "" "" 0 MIMEDriveEntry (CreatedAt (EContent me)))
            subprefix [newEntry; what] (EMeta me).

(** The loop of [extend]: is there a sentinel child or a child that
    starts with a separator? *)
Fixpoint extendConflict (es : list Entry) : outcome bool :=
  match es with
  | [] => Ret false
  | me :: tl =>
      if String.eqb (Path me) SpecialPathSymbol then Ret true
      else c <- firstByte (Path me) ;;
           if Ascii.eqb c SeparatorRune then Ret true else extendConflict tl
  end.

Definition extend (subtrie what : Entry) : outcome (Entry * option error) :=
  if negb (isEntryType (EContent subtrie)) then Ret (subtrie, Some ErrConflict)
  else
    conflict <- extendConflict (Entries subtrie) ;;
    if conflict then Ret (subtrie, Some ErrConflict)
    else
      let what := setPath SpecialPathSymbol what in
      Ret (setEntries (Entries subtrie ++ [what]) subtrie, None).

(** The loop of [add] over the children: at the first sentinel it either
    reports a conflict or overwrites the sentinel with [what]; [None]
    when there is no sentinel. *)
Fixpoint addOverSentinel (what : Entry) (es : list Entry)
  : option (list Entry * option error) :=
  match es with
  | [] => None
  | me :: tl =>
      if String.eqb (Path me) SpecialPathSymbol
      then
        if negb (isEntryType (EContent me)) then Some (es, Some ErrConflict)
        else Some (CopyFrom what :: tl, None)
      else
        match addOverSentinel what tl with
        | Some (tl', err) => Some (me :: tl', err)
        | None => None
        end
  end.

Definition add (subtrie what : Entry) : outcome (Entry * option error) :=
  if negb (isEntryType (EContent subtrie)) then Ret (subtrie, Some ErrConflict)
  else
    c <- firstByte (Path what) ;;
    let appended := setEntries (Entries subtrie ++ [what]) subtrie in
    if Ascii.eqb c SeparatorRune
    then
      if IsEmptyFolder subtrie
      then
        let s := setContent (EContent what)
                   (setPath (Path subtrie ++ Path what) subtrie) in
        Ret (if negb (isEntryType (EContent what)) then setEntries [] s else s, None)
      else
        match addOverSentinel what (Entries subtrie) with
        | Some (es, err) => Ret (setEntries es subtrie, err)
        | None => Ret (appended, None)
        end
    else Ret (appended, None).

Definition runeOf (s : string) : N := fst (DecodeRuneInString s).

(** The [for] loop of [addTo] over the children: the first child whose
    first rune is that of [what] receives [what]; [None] when no child
    matches.  [rec] is [addTo] on a child; the rewritten child is put
    back in its place. *)
Definition addToEach (rec : Entry -> outcome (Entry * list Entry * option error))
                     (whatRune : N)
  : list Entry -> option (outcome (list Entry * list Entry * option error)) :=
  fix each (es : list Entry) :=
    match es with
    | [] => None
    | me :: tl =>
        if negb (N.eqb (runeOf (Path me)) whatRune)
        then match each tl with
             | Some o => Some ('(tl', entries, err) <- o ;;
                               Ret (me :: tl', entries, err))
             | None => None
             end
        else Some ('(me', entries, err) <- rec me ;;
                   Ret (me' :: tl, entries, err))
    end.

(** [addTo] returns the rewritten [subtrie], the list of materialised
    entries and the error.  [now] is the wall clock read by [time.Now()]. *)
Fixpoint addTo (now : Z) (subtrie what : Entry) {struct subtrie}
  : outcome (Entry * list Entry * option error) :=
  match subtrie with
  | mkEntry scontent spath sentries smeta =>
    if HasPrefix spath (Path what)
    then
      let suf := TrimPrefix spath (Path what) in
      if Nat.eqb (String.length suf) 0
      then
        let created := fixEntries [copy what] "" in
        '(s, err) <- extend subtrie what ;;
        Ret (s, created, err)
      else if byte_is (byteAt 0 suf) SeparatorRune
      then Ret (subtrie, [], Some ErrConflict)
      else
        let created := fixEntries [copy what] "" in
        Ret (split (Path what) subtrie what true, created, None)
    else if HasPrefix (Path what) spath
    then
      let what := trimPrefix what spath in
      match sentries with
      | [] =>
          if Nat.eqb (String.length (Path what)) 0 ||
             byte_is (byteAt 0 (Path what)) SeparatorRune
          then
            if isEntryType scontent
            then
              let s := mkEntry (EContent what) (spath ++ Path what) sentries smeta in
              if Nat.eqb (String.length (Path what)) 0
              then Ret (s, fixEntries [copy what] (Path s), None)
              else Ret (s, fixEntries (splitEntry what) (Path s), None)
            else Ret (subtrie, [], Some ErrConflict)
          else
            let created := fixEntries (splitEntry what) spath in
            Ret (split spath subtrie what false, created, None)
      | _ :: _ =>
          match addToEach (fun me => addTo now me what) (runeOf (Path what)) sentries with
          | Some o =>
              '(es, entries, err) <- o ;;
              Ret (mkEntry scontent spath es smeta, fixEntries entries spath, err)
          | None =>
              let created := fixEntries (splitEntry what) spath in
              '(s, err) <- add subtrie what ;;
              Ret (s, created, err)
          end
      end
    else
      let subprefix := commonPrefix spath (Path what) in
      let temp := mkEntry (EContent what) (TrimPrefix (Path what) subprefix) [] None in
      let entries := splitEntry temp in
      c <- firstByte (Path temp) ;;
      let entries :=
        if Ascii.eqb c SeparatorRune
        then (entries ++ [NewEntry "" "" 0 MIMEDriveDirectory now])%list
        else entries in
      Ret (split subprefix subtrie what true, fixEntries entries subprefix, None)
  end.

(* ================================================================== *)
(** ** Listing *)
(* ================================================================== *)

Definition dirContent (name : string) (createdAt : Z) : Content :=
  NewContent name "" 0 MIMEDriveDirectory createdAt.

(** [collect] and [list] return pointers to contents; their values are
    what the callers read. *)
Fixpoint collect (prefix fullname : string) (subtrie : Entry) : list Content :=
  match subtrie with
  | mkEntry c spath sentries _ =>
    if String.eqb spath SpecialPathSymbol
    then
      if isEntryType c then [dirContent fullname (CreatedAt c)] else [c]
    else
      let suffix := if negb (Nat.eqb (String.length prefix) 0)
                    then TrimPrefix spath prefix else spath in
      let suffix := if byte_is (byteAt 0 suffix) SeparatorRune
                    then drop 1 suffix else suffix in
      let slashIdx := Index suffix Separator in
      if (0 <? slashIdx)%Z
      then [dirContent (fullname ++ take (Z.to_nat slashIdx) suffix) (CreatedAt c)]
      else if (slashIdx =? 0)%Z then []
      else
        let fullname := fullname ++ suffix in
        match sentries with
        | [] =>
            if isEntryType c
            then
              let name := if String.eqb (Name c) fullname then Name c
                          else fullname ++ Name c in
              [dirContent name (CreatedAt c)]
            else [c]
        | _ :: _ =>
            flat_map
              (fun me =>
                 if byte_is (byteAt 0 (Path me)) SeparatorRune
                 then [dirContent fullname (CreatedAt (EContent me))]
                 else collect "" fullname me)
              sentries
        end
  end.

Fixpoint list_ (path : string) (subtrie : Entry) : list Content :=
  match subtrie with
  | mkEntry _ spath sentries _ =>
    if HasPrefix spath path && negb (String.eqb spath path)
    then
      let suffix := TrimPrefix spath path in
      if byte_is (byteAt 0 suffix) SeparatorRune
      then collect path "" subtrie
      else []
    else if HasPrefix path spath
    then
      let suffix := TrimPrefix path spath in
      flat_map (list_ suffix) sentries
    else []
  end.

(** The [for] loop of [listRecursive] over the listed contents; [rec]
    lists the directory at a path. *)
Definition listEach (rec : string -> outcome (list Entry)) (_path fixedPath : string)
  : list Content -> outcome (list Entry) :=
  fix each (cs : list Content) :=
    match cs with
    | [] => Ret []
    | c :: tl =>
        let e := mkEntry c (TrimPrefix (JoinPath [_path; Name c]) fixedPath) [] None in
        chldrn <- (if String.eqb (Type_ c) MIMEDriveDirectory
                   then rec (JoinPath [_path; Name c])
                   else Ret []) ;;
        rest <- each tl ;;
        Ret (e :: chldrn ++ rest)%list
    end.

(** [listRecursive] recurses on computed paths, not on the trie: it is
    given a recursion budget. *)
Fixpoint listRecursive (fuel : nat) (_path fixedPath : string) (subtrie : Entry)
  : outcome (list Entry) :=
  match fuel with
  | O => OutOfFuel
  | S k =>
      listEach (fun p => listRecursive k p fixedPath subtrie) _path fixedPath
               (list_ _path subtrie)
  end.

(** [sort.SliceStable] by [Path]: a stable insertion sort. *)
Fixpoint insertByPath (e : Entry) (sorted : list Entry) : list Entry :=
  match sorted with
  | [] => [e]
  | x :: tl =>
      if String.ltb (Path x) (Path e) then x :: insertByPath e tl
      else e :: sorted
  end.

Definition sortByPath (entries : list Entry) : list Entry :=
  fold_right insertByPath [] entries.

(* ================================================================== *)
(** ** Deletion *)
(* ================================================================== *)

(** [l[i] = x] on a list. *)
Fixpoint replaceAt (i : nat) (x : Entry) (l : list Entry) : list Entry :=
  match l, i with
  | [], _ => []
  | _ :: tl, O => x :: tl
  | y :: tl, S k => y :: replaceAt k x tl
  end.

(** [rm], [removeAndMerge] and [deleteOrConvert] return the node itself
    to tell the caller to unlink it, and nil otherwise; the flag is
    [true] for a non-nil return. *)
Definition deleteOrConvert (md : Entry) : Entry * bool :=
  let idx := LastIndex (Path md) Separator in
  if (idx <=? 0)%Z then (md, true)
  else
    (CopyFrom (NewEntry (take (Z.to_nat idx) (Path md)) "" 0 MIMEDriveEntry
                        (CreatedAt (EContent md))),
     false).

Definition removeAndMerge (subtrie : Entry) (idx : nat) : Entry * bool :=
  if Nat.leb (List.length (Entries subtrie)) 1 then (subtrie, true)
  else
    let es := (firstn idx (Entries subtrie) ++ skipn (S idx) (Entries subtrie))%list in
    match es with
    | [e0] =>
        if negb (String.eqb (Path e0) SpecialPathSymbol)
        then (mkEntry (EContent e0) (Path subtrie ++ Path e0) (Entries e0)
                      (EMeta subtrie), false)
        else if negb (isEntryType (EContent e0))
        then (mkEntry (EContent e0) (Path subtrie) [] (EMeta subtrie), false)
        else (mkEntry (EContent e0) (Path subtrie) es (EMeta subtrie), false)
    | _ => (setEntries es subtrie, false)
    end.

(** The [for] loop of [rm] over the children, from index [i] on: the
    children afterwards and the index at which [removeAndMerge] is to be
    called, if any.  [rec] is [rm] on a child. *)
Definition rmEach (rec : Entry -> Entry * bool) (atEnd : bool) (subprefix : string)
  : nat -> list Entry -> list Entry * option nat :=
  fix each (i : nat) (es : list Entry) :=
    match es with
    | [] => ([], None)
    | me :: tl =>
        if atEnd
        then
          if String.eqb (Path me) SpecialPathSymbol then (es, Some i)
          else let '(tl', r) := each (S i) tl in (me :: tl', r)
        else if HasPrefix subprefix (Path me)
        then
          let '(me', found) := rec me in
          (me' :: tl, if found then Some i else None)
        else if HasPrefix (Path me) subprefix then (es, None)
        else let '(tl', r) := each (S i) tl in (me :: tl', r)
    end.

Fixpoint rm (subprefix : string) (subtrie : Entry) {struct subtrie} : Entry * bool :=
  match subtrie with
  | mkEntry scontent spath sentries smeta =>
    let subprefix := TrimPrefix subprefix spath in
    let atEnd := Nat.eqb (String.length subprefix) 0 in
    if atEnd && (negb (isEntryType scontent) || IsEmptyFolder subtrie)
    then deleteOrConvert subtrie
    else
      let '(es, unlink) := rmEach (fun me => rm subprefix me) atEnd subprefix 0 sentries in
      let subtrie := mkEntry scontent spath es smeta in
      match unlink with
      | Some i => removeAndMerge subtrie i
      | None => (subtrie, false)
      end
  end.

(* ================================================================== *)
(** ** Lookup *)
(* ================================================================== *)

(** What [find] returns: a pointer to a freshly allocated content, or a
    pointer to the [Content] stored in the node reached from the current
    one through the given child indices. *)
Inductive cref : Set :=
| Fresh (c : Content)
| At (route : list nat).

Fixpoint contentAt (route : list nat) (e : Entry) : option Content :=
  match route with
  | [] => Some (EContent e)
  | i :: r =>
      match nth_error (Entries e) i with
      | Some me => contentAt r me
      | None => None
      end
  end.

Fixpoint updateAt (route : list nat) (f : Content -> Content) (e : Entry) : Entry :=
  match route with
  | [] => setContent (f (EContent e)) e
  | i :: r =>
      match nth_error (Entries e) i with
      | Some me => setEntries (replaceAt i (updateAt r f me) (Entries e)) e
      | None => e
      end
  end.

Definition updateFolderEntry (cnt : Content) (me : Entry) : Content :=
  if negb (String.eqb (Type_ cnt) MIMEDriveDirectory) then cnt
  else
    let idx := LastIndex (Path me) Separator in
    if (idx <? 0)%Z then setName (Path me ++ Name cnt) cnt
    else setName (drop (Z.to_nat (idx + 1)) (Path me) ++ Name cnt) cnt.

(** The [for] loop of [find] over the children, from index [i] on: the
    children afterwards and the reference found.  [rec] is [find] on a
    child; [updateFolderEntry] writes through the reference it returns. *)
Definition findEach (rec : Entry -> Entry * option cref) (subtrie : Entry)
                    (atEnd : bool) (subprefix : string) (folder : cref)
  : nat -> list Entry -> list Entry * option cref :=
  fix each (i : nat) (es : list Entry) :=
    match es with
    | [] => ([], None)
    | me :: tl =>
        if atEnd
        then
          if String.eqb (Path me) SpecialPathSymbol
          then
            if negb (isEntryType (EContent me)) then (es, Some (At [i]))
            else (es, Some folder)
          else let '(tl', r) := each (S i) tl in (me :: tl', r)
        else if HasPrefix subprefix (Path me)
        then
          let '(me', item) := rec me in
          match item with
          | Some (Fresh c) => (me' :: tl, Some (Fresh (updateFolderEntry c subtrie)))
          | Some (At route) =>
              (updateAt route (fun c => updateFolderEntry c subtrie) me' :: tl,
               Some (At (i :: route)))
          | None => (me' :: tl, None)
          end
        else if HasPrefix (Path me) subprefix then (es, None)
        else let '(tl', r) := each (S i) tl in (me :: tl', r)
    end.

(** [find] hands out interior pointers and [updateFolderEntry] writes
    through them, so the node is returned along with the reference. *)
Fixpoint find (subprefix : string) (subtrie : Entry) {struct subtrie}
  : Entry * option cref :=
  match subtrie with
  | mkEntry scontent spath sentries smeta =>
    let subprefix := TrimPrefix subprefix spath in
    let atEnd := Nat.eqb (String.length subprefix) 0 in
    let folder :=
      Fresh (updateFolderEntry (dirContent "" (CreatedAt scontent)) subtrie) in
    if atEnd && negb (isEntryType scontent) then (subtrie, Some (At []))
    else if atEnd && IsEmptyFolder subtrie then (subtrie, Some folder)
    else
      let '(es, item) :=
        findEach (fun me => find subprefix me) subtrie atEnd subprefix folder 0 sentries in
      (mkEntry scontent spath es smeta, item)
  end.

Definition deref (r : cref) (e : Entry) : option Content :=
  match r with
  | Fresh c => Some c
  | At route => contentAt route e
  end.

(** The [for] loop of [stat] over the children; [rec] is [stat] on a
    child. *)
Definition statEach (rec : Entry -> outcome (option Content)) (atEnd : bool)
                    (folder : Content)
  : list Entry -> outcome (option Content) :=
  fix each (es : list Entry) :=
    match es with
    | [] => Ret None
    | me :: tl =>
        if atEnd
        then
          if String.eqb (Path me) SpecialPathSymbol
          then
            if negb (isEntryType (EContent me)) then Ret (Some (EContent me))
            else Ret (Some folder)
          else
            c <- firstByte (Path me) ;;
            if Ascii.eqb c SeparatorRune then Ret (Some folder) else each tl
        else
          item <- rec me ;;
          match item with
          | Some x => Ret (Some x)
          | None => each tl
          end
    end.

(** [stat] writes through none of its pointers. *)
Fixpoint stat (subprefix : string) (subtrie : Entry) {struct subtrie}
  : outcome (option Content) :=
  match subtrie with
  | mkEntry scontent spath sentries _ =>
    let folder := dirContent "" (CreatedAt scontent) in
    if HasPrefix subprefix spath
    then
      let subprefix := TrimPrefix subprefix spath in
      let atEnd := Nat.eqb (String.length subprefix) 0 in
      if atEnd && negb (isEntryType scontent) then Ret (Some scontent)
      else if atEnd && IsEmptyFolder subtrie then Ret (Some folder)
      else statEach (fun me => stat subprefix me) atEnd folder sentries
    else if HasPrefix spath subprefix
    then
      let subprefix := TrimPrefix spath subprefix in
      let atEnd := Nat.eqb (String.length subprefix) 0 in
      if atEnd && negb (isEntryType scontent) then Ret (Some scontent)
      else if atEnd && IsEmptyFolder subtrie then Ret (Some folder)
      else
        c <- firstByte subprefix ;;
        if Ascii.eqb c SeparatorRune then Ret (Some folder) else Ret None
    else Ret None
  end.

(* ================================================================== *)
(** ** The trie and its operations *)
(* ================================================================== *)

(** The state of a [Trie] is its [Root] pointer; the lock and the tracing
    context carry no state of the structure. *)
Definition Trie : Set := option Entry.

Definition NewTrie : Trie := None.

Definition lsRecursive (fuel : nat) (mt : Trie) (path : string)
  : outcome (list Entry) :=
  match mt with
  | None => Ret []
  | Some root =>
      let p := CleanPath path in
      entries <- listRecursive fuel p p root ;;
      Ret (sortByPath entries)
  end.

(** What [AddFile] does to its argument before it touches the trie:
    [Validate] may normalise the type, then the path is cleaned. *)
Definition prepared (m : Entry) : Entry * option error :=
  let '(m, err) := Validate m in
  match err with
  | Some e => (m, Some e)
  | None => (setPath (CleanPath (Path m)) m, None)
  end.

(** [AddFile]: the new root, the returned entries and the error.  A nil
    argument is [None]. *)
Definition AddFile (fuel : nat) (now : Z) (mt : Trie) (m : option Entry)
  : outcome (Trie * list Entry * option error) :=
  match m with
  | None => Ret (mt, [], Some ErrConflict)
  | Some m =>
      match prepared m with
      | (_, Some err) => Ret (mt, [], Some err)
      | (m, None) =>
          match mt with
          | None =>
              created <- lsRecursive fuel (Some m) "/" ;;
              Ret (Some m, created, None)
          | Some root =>
              '(root', created, err) <- addTo now root (copy m) ;;
              Ret (Some root', created, err)
          end
      end
  end.

Definition Ls (mt : Trie) (path : string) : list Content :=
  match mt with
  | None => []
  | Some root => list_ (CleanPath path) root
  end.

(** [File]: the trie afterwards (see [find]), the content and the error. *)
Definition File (mt : Trie) (path : string) : Trie * option Content * option error :=
  if Nat.eqb (String.length path) 0 then (mt, None, Some ErrEmptyPath)
  else
    match mt with
    | None => (mt, None, Some ErrFileNotExist)
    | Some root =>
        let '(root', f) := find (CleanPath path) root in
        match f with
        | None => (Some root', None, Some ErrFileNotExist)
        | Some r =>
            match deref r root' with
            | Some c => (Some root', Some (copyContent c), None)
            | None => (Some root', None, None)
            end
        end
    end.

Definition Stat (mt : Trie) (path : string)
  : outcome (option Content * option error) :=
  if Nat.eqb (String.length path) 0 then Ret (None, Some ErrEmptyPath)
  else
    match mt with
    | None => Ret (None, Some ErrFileNotExist)
    | Some root =>
        if String.eqb path Separator then Ret (None, Some ErrFileNotExist)
        else
          f <- stat (CleanPath path) root ;;
          match f with
          | None => Ret (None, Some ErrFileNotExist)
          | Some c => Ret (Some (setName (Base path) (copyContent c)), None)
          end
    end.

(** The three assignments of [Replace] through the pointer [f]. *)
Definition overwrite (cnt : Content) (f : Content) : Content :=
  mkContent (Name f) (CID cnt) (Type_ f) (Size cnt) (Version f) (CreatedAt cnt).

(** [Replace]: the trie afterwards, the two returned contents and the
    error. *)
Definition Replace (mt : Trie) (path : string) (cnt : Content)
  : Trie * option Content * option Content * option error :=
  if Nat.eqb (String.length path) 0 then (mt, None, None, Some ErrEmptyPath)
  else
    match mt with
    | None => (mt, None, None, Some ErrFileNotExist)
    | Some root =>
        let '(root', f) := find (CleanPath path) root in
        match f with
        | None => (Some root', None, None, Some ErrFileNotExist)
        | Some r =>
            let old := option_map copyContent (deref r root') in
            let root'' :=
              match r with
              | Fresh _ => root'
              | At route => updateAt route (overwrite cnt) root'
              end in
            (Some root'', Some (copyContent cnt), option_map copyContent old, None)
        end
    end.

Definition Delete (mt : Trie) (path : string) : Trie * option error :=
  if Nat.eqb (String.length path) 0 then (mt, Some ErrEmptyPath)
  else
    match mt with
    | None => (mt, None)
    | Some root =>
        let '(root', item) := rm (CleanPath path) root in
        if item then (None, None) else (Some root', None)
    end.

(* ================================================================== *)
(** ** The vocabulary of the statements *)
(* ================================================================== *)

(** A structural reading of [strings.Contains(s, "//")]. *)
Fixpoint doubled (s : string) : bool :=
  match s with
  | EmptyString => false
  | String c r => (Ascii.eqb c SeparatorRune && byte_is (byteAt 0 r) SeparatorRune)
                  || doubled r
  end.

(** The last byte of a path and the path without it, structurally. *)
Fixpoint lastOf (s : string) : option ascii :=
  match s with
  | EmptyString => None
  | String c EmptyString => Some c
  | String _ r => lastOf r
  end.

Fixpoint initOf (s : string) : string :=
  match s with
  | EmptyString => EmptyString
  | String c EmptyString => EmptyString
  | String c r => String c (initOf r)
  end.

(** A string that is exactly one well-formed encoding. *)
Definition isRune (c : string) : Prop :=
  runeLen c = String.length c /\ 0 < String.length c.

(** A concatenation of well-formed encodings. *)
Inductive Runes : string -> Prop :=
| Runes_nil : Runes ""
| Runes_cons (c s : string) : isRune c -> Runes s -> Runes (c ++ s).

(** The bounds of the second byte, as [runeLen] computes them. *)
Definition lo1 (c0 : ascii) : N :=
  if inRange 224 224 c0 then 160%N
  else if inRange 240 240 c0 then 144%N else 128%N.
Definition hi1 (c0 : ascii) : N :=
  if inRange 237 237 c0 then 159%N
  else if inRange 244 244 c0 then 143%N else 191%N.

(** The shapes a single encoding can have. *)
Inductive runeShape : string -> Prop :=
| shape1 c0 : inRange 0 127 c0 = true -> runeShape (String c0 "")
| shape2 c0 c1 :
    inRange 194 223 c0 = true -> cont c1 = true ->
    runeShape (String c0 (String c1 ""))
| shape3 c0 c1 c2 :
    inRange 224 239 c0 = true -> inRange (lo1 c0) (hi1 c0) c1 = true ->
    cont c2 = true ->
    runeShape (String c0 (String c1 (String c2 "")))
| shape4 c0 c1 c2 c3 :
    inRange 240 244 c0 = true -> inRange (lo1 c0) (hi1 c0) c1 = true ->
    cont c2 = true -> cont c3 = true ->
    runeShape (String c0 (String c1 (String c2 (String c3 "")))).

(** At a rune boundary the second loop stops. *)
Definition startsRune (a : string) : Prop :=
  match a with
  | EmptyString => True
  | String x _ => RuneStart x = true
  end.

Definition smiley : string := bytes [240; 159; 152; 128].
Definition grin : string := bytes [240; 159; 152; 129].

(** Induction over the nodes of a trie, the children included. *)
Section EntryInduction.
Variable P : Entry -> Prop.
Hypothesis node :
  forall c p es m, Forall P es -> P (mkEntry c p es m).

Fixpoint Entry_induction (e : Entry) : P e :=
  match e with
  | mkEntry c p es m =>
      node c p es m
        ((fix all (l : list Entry) : Forall P l :=
            match l with
            | [] => Forall_nil P
            | x :: tl => Forall_cons x (Entry_induction x) (all tl)
            end) es)
  end.
End EntryInduction.

Definition aaaFile : Entry := NewEntry "/aaa" "test_cid" 512 MIMEOctetStream 1700000000.

(** A structural reading of [strings.Contains(s, ":")]. *)
Fixpoint hasColon (s : string) : bool :=
  match s with
  | EmptyString => false
  | String c r => Ascii.eqb c ":" || hasColon r
  end.






(** The tries that [AddFile] and [Delete] build from the empty one, the
    entries added being those that [NewEntry] constructs. *)
Inductive reachable : Trie -> Prop :=
| reach_new : reachable NewTrie
| reach_add (fuel : nat) (now : Z) (mt mt' : Trie) (created : list Entry)
            (path cid : string) (size : Z) (contentType : string) (createdAt : Z) :
    reachable mt ->
    AddFile fuel now mt (Some (NewEntry path cid size contentType createdAt))
    = Ret (mt', created, None) ->
    reachable mt'
| reach_delete (mt : Trie) (path : string) :
    reachable mt -> reachable (fst (Delete mt path)).


Definition logoPng : Entry := NewEntry "/img/logo.png" "cid1" 10 MIMEOctetStream 1700000000.
Definition logoSvg : Entry := NewEntry "/img/logo.svg" "cid2" 20 MIMEOctetStream 1700000000.

(** The trie after a successful [AddFile]; the trie as it was otherwise. *)
Definition thenAdd (mt : Trie) (e : Entry) : Trie :=
  match AddFile 8 0 mt (Some e) with
  | Ret (mt', _, None) => mt'
  | _ => mt
  end.

Definition isDirType (c : Content) : bool := String.eqb (Type_ c) MIMEDriveDirectory.

(** [find] changes nothing unless it hands out a pointer to a stored
    content of type [MIMEDriveDirectory], which no insertion stores. *)
Definition quiet (e e' : Entry) (r : option cref) : Prop :=
  match r with
  | None => e' = e
  | Some (Fresh c) => e' = e /\ isDirType c = true
  | Some (At route) =>
      exists f, contentAt route e = Some f /\ isEntryType f = false /\
                (isDirType f = false -> e' = e)
  end.

Definition docsFolder : Entry := NewEntry "/docs" "" 0 MIMEDriveEntry 1700000000.
Definition homeFile : Entry :=
  NewEntry "/home/test.txt" "cid1" 100 MIMEOctetStream 1700000000.
Definition newer : Content :=
  NewContent "test.txt" "cid2" 1000 MIMEOctetStream 1700000500.

Definition f1File : Entry := NewEntry "/folder/f1" "cid" 64 MIMEOctetStream 1700000000.

(** Strings around the last separator. *)
Fixpoint noSlash (s : string) : bool :=
  match s with
  | EmptyString => true
  | String c r => negb (Ascii.eqb c SeparatorRune) && noSlash r
  end.

(** The directories above [parent ++ "/" ++ name] are [parent] and
    the directories above [parent]. *)
Definition dirAbove (full q : string) : bool :=
  HasPrefix full q && byte_is (byteAt (String.length q) full) SeparatorRune.



(** [AddFile] receives a pointer.  The entries its callers hold live in
    a store of addressed cells; [mt.Root] is nil or the address of the
    node it points to.  The only assignments to [mt.Root] are
    [mt.Root = m] and [mt.Root = nil], every other write goes through the
    pointer, so the root is always a cell of the store. *)
Module Shared.

Definition addr : Set := nat.

Record World : Type := mkWorld {
  cell : addr -> option Entry;
  rootAt : option addr
}.

Definition store (l : addr) (e : Entry) (cells : addr -> option Entry)
  : addr -> option Entry :=
  fun a => if Nat.eqb a l then Some e else cells a.

(** The trie that [mt.Root] points to. *)
Definition trieOf (w : World) : Trie :=
  match rootAt w with
  | None => None
  | Some r => cell w r
  end.

(** A caller that allocates an entry, and one that writes to the entry
    it holds. *)
Definition allocate (l : addr) (e : Entry) (w : World) : World :=
  mkWorld (store l e (cell w)) (rootAt w).

Definition mutate (l : addr) (f : Entry -> Entry) (w : World) : World :=
  match cell w l with
  | Some e => mkWorld (store l (f e) (cell w)) (rootAt w)
  | None => w
  end.

(** [mt.AddFile(m)] for the pointer [m = l]; an address without a cell
    is the nil pointer. *)
Definition AddFile (fuel : nat) (now : Z) (w : World) (l : addr)
  : outcome (World * list Entry * option error) :=
  match cell w l with
  | None => Ret (w, [], Some ErrConflict)
  | Some m =>
      match prepared m with
      | (_, Some err) => Ret (w, [], Some err)
      | (m, None) =>
          (* [Validate] and [m.Path = CleanPath(m.Path)] wrote to [*m] *)
          let cells := store l m (cell w) in
          match rootAt w with
          | None =>
              (* [mt.Root = m] *)
              created <- lsRecursive fuel (Some m) "/" ;;
              Ret (mkWorld cells (Some l), created, None)
          | Some r =>
              match cells r with
              | None => Panic
              | Some root =>
                  (* [addTo(mt.Root, m.copy())] writes to [*mt.Root] *)
                  '(root', created, err) <- addTo now root (copy m) ;;
                  Ret (mkWorld (store r root' cells) (Some r), created, err)
              end
          end
      end
  end.

Definition File (w : World) (path : string) : World * option Content * option error :=
  let '(mt, c, err) := File (trieOf w) path in
  match rootAt w, mt with
  | Some r, Some root => (mkWorld (store r root (cell w)) (Some r), c, err)
  | _, _ => (w, c, err)
  end.

Definition empty : World := mkWorld (fun _ => None) None.

End Shared.

Definition readme : Entry := NewEntry "/docs/readme" "cid1" 100 MIMEOctetStream 1700000000.
Definition corrupt (e : Entry) : Entry :=
  setPath "/totally/different"
          (setContent (mkContent (Name (EContent e)) "corrupted" (Type_ (EContent e))
                                 (Size (EContent e)) (Version (EContent e))
                                 (CreatedAt (EContent e))) e).

Definition worldAfter (o : outcome (Shared.World * list Entry * option error))
  : Shared.World :=
  match o with
  | Ret (w, _, _) => w
  | _ => Shared.empty
  end.

Definition cidOf (r : Shared.World * option Content * option error) : option string :=
  let '(_, c, _) := r in option_map CID c.

Definition abcFile : Entry := NewEntry "/a/b/c" "cid" 64 MIMEOctetStream 1700000000.
Definition rootFolder : Entry := NewEntry "/" "" 0 MIMEDriveEntry 1700000000.

Definition smileyFile : Entry :=
  NewEntry ("/folder/" ++ smiley ++ "file") "cid1" 1 MIMEOctetStream 1700000000.
Definition grinFile : Entry :=
  NewEntry ("/folder/" ++ grin ++ "file") "cid2" 2 MIMEOctetStream 1700000000.


(* ================================================================== *)
(** ** The directory tree, references and the protobuf adapters *)
(* ================================================================== *)

(** [directoriesFromContents]: one entry per listed directory. *)
Definition directoriesFromContents (path : string) (contents : list Content)
  : list Entry :=
  flat_map
    (fun content =>
       if String.eqb (Type_ content) MIMEDriveDirectory
          || String.eqb (Type_ content) MIMEDriveEntry
       then [NewEntry (JoinPath [path; Name content]) "" (Size content)
                      (Type_ content) (CreatedAt content)]
       else [])
    contents.

(** The [for] loop of [tree] over the children of [dir]; [rec] is [tree]
    on a child and the path below it. *)
Definition treeEach (rec : Entry -> string -> outcome Entry) (_path : string)
  : list Entry -> outcome (list Entry) :=
  fix each (es : list Entry) :=
    match es with
    | [] => Ret []
    | c :: tl =>
        c' <- (if String.eqb (EType c) MIMEDriveDirectory
                  || String.eqb (EType c) MIMEDriveEntry
               then rec c (JoinPath [_path; Name (EContent c)])
               else Ret c) ;;
        tl' <- each tl ;;
        Ret (c' :: tl')
    end.

(** [tree] recurses on computed paths, as [listRecursive] does; it
    returns [dir] with the directories below [_path] hung into it. *)
Fixpoint tree (fuel : nat) (dir : Entry) (_path : string) (subtrie : Entry)
  : outcome Entry :=
  match fuel with
  | O => OutOfFuel
  | S k =>
      let entries := list_ _path subtrie in
      let es := (Entries dir ++ directoriesFromContents _path entries)%list in
      es' <- treeEach (fun c p => tree k c p subtrie) _path es ;;
      Ret (setEntries es' dir)
  end.

Definition Tree (fuel : nat) (now : Z) (mt : Trie) (path : string)
  : outcome Entry :=
  let p := CleanPath path in
  let t := if String.eqb p ""
           then NewEntry "/" "" 0 MIMEDriveDirectory now
           else NewEntry p "" 0 MIMEDriveDirectory now in
  match mt with
  | None => Ret t
  | Some root => tree fuel t p root
  end.

(** The exported [LsRecursive] takes the lock and calls [lsRecursive]. *)
Definition LsRecursive (fuel : nat) (mt : Trie) (path : string)
  : outcome (list Entry) :=
  lsRecursive fuel mt path.

(** The removal loop of [createRef], which walks [entries] from the last
    to the first: here over the reversed list.  [rm] on a nil root is a
    nil dereference. *)
Fixpoint removeEach (path : string) (reversed : list Entry) (root : Trie)
  : outcome (list Entry * Trie) :=
  match reversed with
  | [] => Ret ([], root)
  | e :: tl =>
      let e := setPath (JoinPath [path; Path e]) e in
      match root with
      | None => Panic
      | Some r =>
          let '(r', res) := rm (Path e) r in
          '(tl', root') <- removeEach path tl (if res then None else Some r') ;;
          Ret (e :: tl', root')
      end
  end.

(** [createRef]: the trie afterwards, the returned entries and the
    error.  The root is not nil when it is called. *)
Definition createRef (fuel : nat) (now : Z) (path bucketID : string) (root : Entry)
                     (createdAt : Z)
  : outcome (Trie * list Entry * option error) :=
  let '(root, f) := find path root in
  found <-
    match f with
    | Some r =>
        match deref r root with
        | Some c => Ret (Some [mkEntry (copyContent c) "" [] None])
        | None => Panic
        end
    | None =>
        e <- listRecursive fuel path path root ;;
        if Nat.eqb (List.length e) 0 then Ret None
        else Ret (Some (mkEntry (NewContent "" "" 0 MIMEDriveEntry createdAt)
                                "" [] None :: e))
    end ;;
  match found with
  | None => Ret (Some root, [], Some ErrFileNotExist)
  | Some entries =>
      '(removed, mt) <- removeEach path (rev entries) (Some root) ;;
      let entries := rev removed in
      let '(refEntry, err) :=
        Validate (NewEntry path bucketID 0 MIMEReference createdAt) in
      match err with
      | Some e => Ret (mt, [], Some e)
      | None =>
          match mt with
          | None => Ret (Some refEntry, entries, None)
          | Some r =>
              '(r', _, err) <- addTo now r refEntry ;;
              Ret (Some r', entries, err)
          end
      end
  end.

Definition CreateRef (fuel : nat) (now : Z) (mt : Trie) (path bucketID : string)
                     (createdAt : Z)
  : outcome (Trie * list Entry * option error) :=
  if Nat.eqb (String.length path) 0 then Ret (mt, [], Some ErrEmptyPath)
  else if String.eqb path Separator then Ret (mt, [], Some ErrCantCreateRef)
  else
    match mt with
    | None => Ret (mt, [], Some ErrFileNotExist)
    | Some root =>
        '(mt', entries, err) <-
          createRef fuel now (CleanPath path) bucketID root createdAt ;;
        match err with
        | Some e => Ret (mt', [], Some e)
        | None => Ret (mt', entries, None)
        end
    end.

(** The messages of [protov1], with the fields the adapters read and
    write; a nil message is [None]. *)
#[local] Unset Elimination Schemes.
#[local] Set Elimination Schemes.









(** A path made of separators only. *)
Fixpoint onlySlashes (s : string) : bool :=
  match s with
  | EmptyString => true
  | String c r => Ascii.eqb c SeparatorRune && onlySlashes r
  end.

(** The error with which [Validate] turns down what [NewEntry] builds
    from a path and a content type, [None] when it accepts it. *)
Definition rejection (path t : string) : option error :=
  if String.eqb t MIMEDriveDirectory then Some ErrCantAddDirectory
  else if String.eqb path ""
  then Some (if String.eqb t MIMEDriveEntry then ErrEmptyName else ErrEmptyPath)
  else if hasColon path then Some ErrIllegalPathChars
  else if negb (String.eqb t MIMEDriveEntry) && onlySlashes path
  then Some ErrIllegalNameChars
  else None.


(** The names along a path: the non-empty pieces between separators. *)
Definition named (w : string) : bool := negb (String.eqb w "").

Definition segments (s : string) : list string :=
  filter named (Split s SeparatorRune).


(** A tree of directories: every node is of type [MIMEDriveDirectory]. *)
Fixpoint allDirs (e : Entry) : bool :=
  String.eqb (EType e) MIMEDriveDirectory && forallb allDirs (Entries e).

Definition srcTrie : Trie :=
  thenAdd (thenAdd (thenAdd NewTrie
    (NewEntry "/src/lib/a.go" "c1" 1 MIMEOctetStream 1700000000))
    (NewEntry "/src/main.go" "c2" 2 MIMEOctetStream 1700000001))
    (NewEntry "/tmp" "" 0 MIMEDriveEntry 1700000002).




(** No node stores a content of the ephemeral type [MIMEDriveDirectory]. *)
Fixpoint plain (e : Entry) : bool :=
  negb (isDirType (EContent e)) && forallb plain (Entries e).

Definition plainTrie (mt : Trie) : Prop :=
  match mt with
  | None => True
  | Some root => plain root = true
  end.

Definition public (c : Content) : Prop := isEntryType c = false.

(** What [find] returns points at a content that is not of the internal
    type, in the trie as [find] leaves it. *)
Definition lands (e' : Entry) (r : cref) : Prop :=
  exists c, deref r e' = Some c /\ public c.

(** An entry as the callers get it: without children, and not of the
    internal type. *)
Definition flat (e : Entry) : Prop :=
  Entries e = [] /\ EType e <> MIMEDriveEntry.

(** The content that [find] points at has the type it had before
    [find] ran. *)
Definition sameType (e e' : Entry) (route : list nat) : Prop :=
  exists f0 f1, contentAt route e = Some f0 /\ contentAt route e' = Some f1 /\
                Type_ f1 = Type_ f0.

(* ================================================================== *)
(** ** Facts about the string primitives *)
(* ================================================================== *)

Section StringFacts.

Lemma length_append (s t : string) :
  String.length (s ++ t) = String.length s + String.length t.
Proof. induction s; simpl; auto. Qed.

Lemma append_nil_r (s : string) : s ++ "" = s.
Proof. induction s; simpl; congruence. Qed.

Lemma append_assoc (s t u : string) : (s ++ t) ++ u = s ++ t ++ u.
Proof. induction s; simpl; congruence. Qed.

Lemma length_zero (s : string) : String.length s = 0 -> s = "".
Proof. destruct s; simpl; congruence. Qed.

Lemma HasPrefix_nil (s : string) : HasPrefix s "" = true.
Proof. destruct s; reflexivity. Qed.

Lemma HasPrefix_refl (s : string) : HasPrefix s s = true.
Proof. induction s; simpl; auto. rewrite Ascii.eqb_refl; auto. Qed.

Lemma HasPrefix_append (p s : string) : HasPrefix (p ++ s) p = true.
Proof.
  induction p; simpl.
  - apply HasPrefix_nil.
  - rewrite Ascii.eqb_refl; auto.
Qed.

Lemma HasPrefix_split (s p : string) :
  HasPrefix s p = true -> s = p ++ drop (String.length p) s.
Proof.
  revert s; induction p as [|c p IH]; intros [|d s]; simpl; try discriminate; auto.
  intros H; apply andb_true_iff in H as [Hc Hp].
  apply Ascii.eqb_eq in Hc; subst; f_equal; auto.
Qed.

Lemma HasPrefix_iff (s p : string) :
  HasPrefix s p = true <-> exists r, s = p ++ r.
Proof.
  split.
  - intros H; eexists; apply HasPrefix_split, H.
  - intros [r ->]; apply HasPrefix_append.
Qed.

Lemma drop_append (p s : string) : drop (String.length p) (p ++ s) = s.
Proof. induction p; simpl; auto. Qed.

Lemma take_append (p s : string) : take (String.length p) (p ++ s) = p.
Proof. induction p; simpl; [destruct s|]; congruence. Qed.

Lemma take_drop (n : nat) (s : string) : take n s ++ drop n s = s.
Proof. revert s; induction n; intros [|c s]; simpl; auto; f_equal; auto. Qed.

Lemma length_take (n : nat) (s : string) :
  String.length (take n s) = Nat.min n (String.length s).
Proof. revert s; induction n; intros [|c s]; simpl; auto. Qed.

Lemma length_drop (n : nat) (s : string) :
  String.length (drop n s) = String.length s - n.
Proof. revert s; induction n; intros [|c s]; simpl; auto. Qed.

Lemma TrimPrefix_append (p s : string) : TrimPrefix (p ++ s) p = s.
Proof. unfold TrimPrefix; rewrite HasPrefix_append; apply drop_append. Qed.

Lemma drop_length (s : string) : drop (String.length s) s = "".
Proof. induction s; simpl; auto. Qed.

Lemma TrimPrefix_refl (s : string) : TrimPrefix s s = "".
Proof. unfold TrimPrefix; rewrite HasPrefix_refl; apply drop_length. Qed.

Lemma HasPrefix_length (s p : string) :
  HasPrefix s p = true -> String.length p <= String.length s.
Proof.
  intros H; apply HasPrefix_split in H.
  apply (f_equal String.length) in H; rewrite length_append in H; lia.
Qed.

Lemma HasPrefix_antisym (s p : string) :
  HasPrefix s p = true -> HasPrefix p s = true -> s = p.
Proof.
  intros H1 H2.
  pose proof (HasPrefix_length _ _ H1); pose proof (HasPrefix_length _ _ H2).
  apply HasPrefix_split in H1.
  assert (E : String.length (drop (String.length p) s) = 0)
    by (rewrite length_drop; lia).
  apply length_zero in E; rewrite E, append_nil_r in H1; exact H1.
Qed.

Lemma String_eqb_false_ne (s t : string) : String.eqb s t = false <-> s <> t.
Proof. apply String.eqb_neq. Qed.

End StringFacts.


(* ================================================================== *)
(** ** [CleanPath] *)
(* ================================================================== *)

Section CleanPathFacts.

Lemma Index_lower (s sub : string) : (-1 <= Index s sub)%Z.
Proof.
  induction s as [|c s IH]; cbn [Index].
  - destruct (HasPrefix "" sub); lia.
  - destruct (HasPrefix (String c s) sub); [lia|].
    destruct (Index s sub <? 0)%Z eqn:E; [lia|].
    apply Z.ltb_ge in E; lia.
Qed.

Lemma Contains_cons (c : ascii) (r sub : string) :
  Contains (String c r) sub = HasPrefix (String c r) sub || Contains r sub.
Proof.
  unfold Contains; cbn [Index].
  destruct (HasPrefix (String c r) sub); [reflexivity|].
  pose proof (Index_lower r sub).
  destruct (Index r sub <? 0)%Z eqn:E; simpl.
  - apply Z.ltb_lt in E. symmetry; apply Z.leb_gt; lia.
  - apply Z.ltb_ge in E.
    transitivity true; [apply Z.leb_le; lia | symmetry; apply Z.leb_le; lia].
Qed.

Lemma HasPrefix_double (c : ascii) (r : string) :
  HasPrefix (String c r) DoubleSeparator
  = Ascii.eqb c SeparatorRune && byte_is (byteAt 0 r) SeparatorRune.
Proof.
  destruct r as [|d r]; cbn [HasPrefix DoubleSeparator byteAt byte_is];
    rewrite ?HasPrefix_nil, ?andb_true_r; reflexivity.
Qed.

Lemma Contains_double (s : string) : Contains s DoubleSeparator = doubled s.
Proof.
  induction s as [|c s IH]; [reflexivity|].
  rewrite Contains_cons, IH, HasPrefix_double; reflexivity.
Qed.

Lemma replaceFrom_skip (k : nat) (s old new : string) :
  replaceFrom k s old new = replaceFrom 0 (drop k s) old new.
Proof.
  revert k; induction s as [|c s IH]; intros [|k]; simpl; auto.
Qed.

(** One round of the loop, unfolded. *)
Lemma ReplaceAll_double (c : ascii) (r : string) :
  ReplaceAll (String c r) DoubleSeparator Separator
  = if HasPrefix (String c r) DoubleSeparator
    then String SeparatorRune (ReplaceAll (drop 1 r) DoubleSeparator Separator)
    else String c (ReplaceAll r DoubleSeparator Separator).
Proof.
  unfold ReplaceAll at 1. cbn [replaceFrom].
  destruct (HasPrefix (String c r) DoubleSeparator); [|reflexivity].
  cbn [String.length DoubleSeparator Nat.sub].
  rewrite replaceFrom_skip. reflexivity.
Qed.

Lemma ReplaceAll_shrinks (n : nat) :
  forall s, String.length s <= n ->
    let r := ReplaceAll s DoubleSeparator Separator in
    String.length r <= String.length s /\
    (doubled s = true -> String.length r < String.length s) /\
    (s <> "" -> r <> "").
Proof.
  induction n as [|n IH]; intros s Hn.
  - destruct s; simpl in *; [|lia]. repeat split; auto; discriminate.
  - destruct s as [|c s]; [simpl; repeat split; auto; discriminate|].
    cbv zeta. rewrite ReplaceAll_double, HasPrefix_double.
    simpl in Hn.
    destruct (Ascii.eqb c SeparatorRune && byte_is (byteAt 0 s) SeparatorRune) eqn:E.
    + destruct s as [|d s]; [rewrite andb_false_r in E; discriminate|].
      cbn [drop]. cbn [String.length] in Hn |- *.
      destruct (IH s ltac:(lia)) as (H1 & _ & _).
      cbv zeta in H1. repeat split; try lia; discriminate.
    + destruct (IH s ltac:(lia)) as (H1 & H2 & _). cbv zeta in H1, H2.
      cbn [String.length doubled]. rewrite E. cbn [orb].
      repeat split; try lia; try discriminate.
      intros D; specialize (H2 D); lia.
Qed.

(** [len(path)] rounds of the loop reach a path without a double
    separator: the loop has ended by then. *)
Lemma collapse_stable (n : nat) :
  forall s, String.length s <= n -> doubled (collapse n s) = false.
Proof.
  induction n as [|n IH]; intros s Hn; simpl.
  - destruct s; simpl in *; [reflexivity|lia].
  - rewrite Contains_double.
    destruct (doubled s) eqn:D; [|exact D].
    apply IH.
    destruct (ReplaceAll_shrinks (String.length s) s (le_n _)) as (_ & H & _).
    specialize (H D). cbv zeta in H. lia.
Qed.

Lemma collapse_nonempty (n : nat) :
  forall s, s <> "" -> collapse n s <> "".
Proof.
  induction n as [|n IH]; intros s Hs; simpl; auto.
  destruct (Contains s DoubleSeparator); auto.
  apply IH.
  destruct (ReplaceAll_shrinks (String.length s) s (le_n _)) as (_ & _ & H); auto.
Qed.

Lemma byteAt_last (s : string) : byteAt (String.length s - 1) s = lastOf s.
Proof.
  induction s as [|c s IH]; [reflexivity|].
  destruct s as [|d s]; [reflexivity|].
  change (lastOf (String c (String d s))) with (lastOf (String d s)).
  rewrite <- IH. cbn [String.length]. rewrite !Nat.sub_succ, !Nat.sub_0_r.
  reflexivity.
Qed.

Lemma take_init (s : string) : take (String.length s - 1) s = initOf s.
Proof.
  induction s as [|c s IH]; [reflexivity|].
  destruct s as [|d s]; [reflexivity|].
  change (initOf (String c (String d s))) with (String c (initOf (String d s))).
  rewrite <- IH. cbn [String.length].
  rewrite !Nat.sub_succ, !Nat.sub_0_r. reflexivity.
Qed.

Lemma initOf_first (s : string) :
  1 < String.length s -> byteAt 0 (initOf s) = byteAt 0 s.
Proof.
  destruct s as [|c [|d s]]; simpl; try lia; reflexivity.
Qed.

Lemma initOf_not_doubled (s : string) :
  doubled s = false -> doubled (initOf s) = false.
Proof.
  induction s as [|c s IH]; [reflexivity|].
  intros D. cbn [doubled] in D. apply orb_false_iff in D as [D1 D2].
  destruct s as [|d s]; [reflexivity|].
  change (initOf (String c (String d s))) with (String c (initOf (String d s))).
  cbn [doubled]. rewrite (IH D2), orb_false_r.
  destruct s as [|e s]; [simpl; apply andb_false_r|].
  exact D1.
Qed.

Lemma initOf_last (s : string) :
  doubled s = false ->
  byte_is (lastOf s) SeparatorRune = true ->
  byte_is (lastOf (initOf s)) SeparatorRune = false.
Proof.
  induction s as [|c s IH]; [reflexivity|].
  intros D L. cbn [doubled] in D. apply orb_false_iff in D as [D1 D2].
  destruct s as [|d s]; [reflexivity|].
  destruct s as [|e s].
  - simpl in *. rewrite L, andb_true_r in D1. exact D1.
  - specialize (IH D2 L). exact IH.
Qed.

End CleanPathFacts.

Lemma HasPrefix_sep (s : string) :
  HasPrefix s Separator = byte_is (byteAt 0 s) SeparatorRune.
Proof.
  destruct s as [|c s]; [reflexivity|].
  cbn [HasPrefix Separator byteAt byte_is]. rewrite HasPrefix_nil, andb_true_r.
  reflexivity.
Qed.

(** The path after the loop and the leading separator: non-empty, starts
    with a separator, has no double separator. *)
Lemma CleanPath_rooted (p : string) :
  p <> "" ->
  let r := collapse (String.length p) p in
  let r' := if byte_is (byteAt 0 r) SeparatorRune then r else Separator ++ r in
  byte_is (byteAt 0 r') SeparatorRune = true /\ doubled r' = false.
Proof.
  intros Hp r r'.
  assert (D : doubled r = false) by (apply collapse_stable; lia).
  subst r'. destruct (byte_is (byteAt 0 r) SeparatorRune) eqn:E.
  - auto.
  - split; [reflexivity|].
    cbn [Separator append doubled]. rewrite E, D. reflexivity.
Qed.

(** The shape of a cleaned path, in the form the later sections use. *)
Lemma CleanPath_shape (p : string) (Hp : 0 < String.length p) :
  CleanPath "" = "" /\
  HasPrefix (CleanPath p) Separator = true /\
  Contains (CleanPath p) DoubleSeparator = false /\
  (byte_is (lastByte (CleanPath p)) SeparatorRune = true -> CleanPath p = Separator).
Proof.
  split; [reflexivity|].
  assert (Hne : p <> "") by (intros ->; simpl in Hp; lia).
  destruct (CleanPath_rooted p Hne) as [R1 R2]. cbv zeta in R1, R2.
  unfold CleanPath, lastByte.
  destruct (Nat.eqb_spec (String.length p) 0) as [E0|_]; [lia|].
  set (r' := if byte_is (byteAt 0 (collapse (String.length p) p)) SeparatorRune
             then collapse (String.length p) p
             else Separator ++ collapse (String.length p) p) in *.
  rewrite byteAt_last.
  destruct (Nat.ltb_spec 1 (String.length r')) as [L|L].
  - destruct (byte_is (lastOf r') SeparatorRune) eqn:EL; cbn [andb].
    + rewrite take_init, HasPrefix_sep, Contains_double, byteAt_last.
      rewrite initOf_first by exact L.
      rewrite initOf_not_doubled by exact R2.
      rewrite initOf_last by assumption.
      repeat split; auto. discriminate.
    + rewrite HasPrefix_sep, Contains_double, byteAt_last, EL.
      repeat split; auto. discriminate.
  - cbn [andb]. rewrite HasPrefix_sep, Contains_double.
    repeat split; auto. intros _.
    destruct r' as [|c [|d r']]; simpl in *; try discriminate; try lia.
    destruct (Ascii.eqb_spec c SeparatorRune); [subst; reflexivity|discriminate].
Qed.

(** C9. [CleanPath("")] is [""]; for a non-empty [p] the result of
    [CleanPath(p)] begins with "/", contains no "//", and ends with "/"
    only when it is exactly "/" (the root). *)
Theorem CleanPath_normal_form (p : string) (Hp : 0 < String.length p) :
  CleanPath "" = "" /\
  HasPrefix (CleanPath p) Separator = true /\
  Contains (CleanPath p) DoubleSeparator = false /\
  (byte_is (lastByte (CleanPath p)) SeparatorRune = true -> CleanPath p = Separator).
Proof. exact (CleanPath_shape p Hp). Qed.

Lemma CleanPath_normal_form_witness :
  CleanPath "" = "" /\
  HasPrefix (CleanPath "a//b///c/") Separator = true /\
  Contains (CleanPath "a//b///c/") DoubleSeparator = false /\
  (byte_is (lastByte (CleanPath "a//b///c/")) SeparatorRune = true ->
   CleanPath "a//b///c/" = Separator).
Proof. apply (CleanPath_normal_form "a//b///c/"). simpl. lia. Defined.


(* ================================================================== *)
(** ** [commonPrefix] and UTF-8 *)
(* ================================================================== *)

Section Utf8Facts.

Lemma RuneStart_cont (x : ascii) : RuneStart x = negb (cont x).
Proof. destruct x as [[] [] [] [] [] [] [] []]; reflexivity. Qed.

Lemma inRange_within (lo hi lo' hi' : N) (x : ascii) :
  inRange lo hi x = true -> (lo' <= lo)%N -> (hi <= hi')%N ->
  inRange lo' hi' x = true.
Proof.
  unfold inRange; cbv zeta; intros H L U.
  apply andb_true_iff in H as [H1 H2].
  apply N.leb_le in H1, H2. apply andb_true_iff; split; apply N.leb_le; lia.
Qed.

Lemma inRange_apart (lo hi lo' hi' : N) (x : ascii) :
  inRange lo hi x = true -> (hi < lo' \/ hi' < lo)%N ->
  inRange lo' hi' x = false.
Proof.
  unfold inRange; cbv zeta; intros H D.
  apply andb_true_iff in H as [H1 H2].
  apply N.leb_le in H1, H2. apply andb_false_iff.
  destruct D; [left|right]; apply N.leb_gt; lia.
Qed.

Lemma lead_starts (lo hi : N) (x : ascii) :
  inRange lo hi x = true -> (hi < 128 \/ 191 < lo)%N -> RuneStart x = true.
Proof.
  intros H D. rewrite RuneStart_cont. unfold cont.
  rewrite (inRange_apart _ _ _ _ _ H D). reflexivity.
Qed.

Lemma trail_continues (lo hi : N) (x : ascii) :
  inRange lo hi x = true -> (128 <= lo)%N -> (hi <= 191)%N -> RuneStart x = false.
Proof.
  intros H L U. rewrite RuneStart_cont. unfold cont.
  rewrite (inRange_within _ _ _ _ _ H L U). reflexivity.
Qed.

Lemma lo1_bound c0 : (128 <= lo1 c0)%N.
Proof. unfold lo1; repeat destruct (inRange _ _ _); lia. Qed.
Lemma hi1_bound c0 : (hi1 c0 <= 191)%N.
Proof. unfold hi1; repeat destruct (inRange _ _ _); lia. Qed.

Lemma runeLen_shape (s : string) (n : nat) :
  runeLen s = S n ->
  exists c r, s = c ++ r /\ runeShape c /\ String.length c = S n.
Proof.
  unfold runeLen. fold (lo1) (hi1).
  destruct s as [|c0 s]; [discriminate|].
  destruct (inRange 0 127 c0) eqn:E0.
  { intros [= <-]. exists (String c0 ""), s. repeat split. now constructor. }
  destruct s as [|c1 s]; [discriminate|].
  destruct (inRange 194 223 c0) eqn:E1.
  { destruct (cont c1) eqn:C1; [|discriminate]. intros [= <-].
    exists (String c0 (String c1 "")), s. repeat split. now constructor. }
  destruct s as [|c2 s]; [discriminate|].
  change (if inRange 224 224 c0 then 160%N
          else if inRange 240 240 c0 then 144%N else 128%N) with (lo1 c0).
  change (if inRange 237 237 c0 then 159%N
          else if inRange 244 244 c0 then 143%N else 191%N) with (hi1 c0).
  destruct (inRange 224 239 c0) eqn:E2.
  { destruct (inRange (lo1 c0) (hi1 c0) c1) eqn:C1; [|discriminate].
    destruct (cont c2) eqn:C2; [|discriminate]. intros [= <-].
    exists (String c0 (String c1 (String c2 ""))), s. repeat split.
    now constructor. }
  destruct s as [|c3 s]; [discriminate|].
  destruct (inRange 240 244 c0) eqn:E3; [|discriminate].
  destruct (inRange (lo1 c0) (hi1 c0) c1) eqn:C1; [|discriminate].
  destruct (cont c2) eqn:C2; [|discriminate].
  destruct (cont c3) eqn:C3; [|discriminate]. intros [= <-].
  exists (String c0 (String c1 (String c2 (String c3 "")))), s. repeat split.
  now constructor.
Qed.

Lemma shape_runeLen (c r : string) :
  runeShape c -> runeLen (c ++ r) = String.length c.
Proof.
  intros H; destruct H as [c0 H0|c0 c1 H0 H1|c0 c1 c2 H0 H1 H2|c0 c1 c2 c3 H0 H1 H2 H3];
    cbn [append String.length]; unfold runeLen;
    change (if inRange 224 224 c0 then 160%N
            else if inRange 240 240 c0 then 144%N else 128%N) with (lo1 c0);
    change (if inRange 237 237 c0 then 159%N
            else if inRange 244 244 c0 then 143%N else 191%N) with (hi1 c0).
  - rewrite H0; reflexivity.
  - rewrite (inRange_apart _ _ 0 127 _ H0) by lia. rewrite H0, H1. reflexivity.
  - rewrite (inRange_apart _ _ 0 127 _ H0) by lia.
    rewrite (inRange_apart _ _ 194 223 _ H0) by lia.
    rewrite H0, H1, H2. reflexivity.
  - rewrite (inRange_apart _ _ 0 127 _ H0) by lia.
    rewrite (inRange_apart _ _ 194 223 _ H0) by lia.
    rewrite (inRange_apart _ _ 224 239 _ H0) by lia.
    rewrite H0, H1, H2, H3. reflexivity.
Qed.

Lemma isRune_shape (c : string) : isRune c <-> runeShape c.
Proof.
  split.
  - intros [H L]. destruct (String.length c) as [|n] eqn:E; [lia|].
    destruct (runeLen_shape c n H) as (c' & r & -> & S' & L').
    rewrite length_append, L' in E.
    assert (String.length r = 0) by lia.
    apply length_zero in H0; subst r. rewrite append_nil_r. exact S'.
  - intros S'. split.
    + rewrite <- (append_nil_r c) at 1. apply shape_runeLen, S'.
    + destruct S'; simpl; lia.
Qed.

Lemma shape_lead (c : string) :
  runeShape c -> exists x r, c = String x r /\ RuneStart x = true.
Proof.
  intros [c0 H0|c0 c1 H0 _|c0 c1 c2 H0 _ _|c0 c1 c2 c3 H0 _ _ _];
    eexists _, _; (split; [reflexivity|]); eapply lead_starts; eauto; lia.
Qed.

Lemma shape_trail (c : string) (j : nat) :
  runeShape c -> 0 < j < String.length c ->
  exists x, byteAt j c = Some x /\ RuneStart x = false.
Proof.
  intros [c0 H0|c0 c1 H0 H1|c0 c1 c2 H0 H1 H2|c0 c1 c2 c3 H0 H1 H2 H3] Hj;
    cbn [String.length] in Hj;
    pose proof (lo1_bound c0); pose proof (hi1_bound c0);
    destruct j as [|[|[|[|j]]]]; try lia; cbn [byteAt];
    eexists; (split; [reflexivity|]); eapply trail_continues; eauto; lia.
Qed.

(** The lead byte fixes the length of the encoding. *)
Lemma shape_length (c c' : string) :
  runeShape c -> runeShape c' -> byteAt 0 c = byteAt 0 c' ->
  String.length c = String.length c'.
Proof.
  intros S1 S2 E.
  destruct S1 as [c0 H0|c0 c1 H0 _|c0 c1 c2 H0 _ _|c0 c1 c2 c3 H0 _ _ _];
    destruct S2 as [d0 G0|d0 d1 G0 _|d0 d1 d2 G0 _ _|d0 d1 d2 d3 G0 _ _ _];
    cbn [byteAt] in E; injection E as ->; try reflexivity; exfalso;
    match goal with
    | A : inRange ?l ?h ?x = true, B : inRange ?l' ?h' ?x = true |- _ =>
        rewrite (inRange_apart l h l' h' x A) in B by lia; discriminate
    end.
Qed.

Lemma byteAt_append_l (s t : string) (i : nat) :
  i < String.length s -> byteAt i (s ++ t) = byteAt i s.
Proof.
  revert i; induction s as [|c s IH]; intros i Hi; simpl in Hi; [lia|].
  destruct i; cbn [append byteAt]; [reflexivity|]. apply IH; lia.
Qed.

Lemma byteAt_append_r (s t : string) (j : nat) :
  byteAt (String.length s + j) (s ++ t) = byteAt j t.
Proof. induction s as [|c s IH]; cbn [append String.length Nat.add byteAt]; auto. Qed.

Lemma take_append_r (s t : string) (j : nat) :
  take (String.length s + j) (s ++ t) = s ++ take j t.
Proof.
  induction s as [|c s IH]; cbn [append String.length Nat.add take]; auto.
  now rewrite IH.
Qed.

Lemma matchLen_sym (a b : string) : matchLen a b = matchLen b a.
Proof.
  revert b; induction a as [|x a IH]; intros [|y b]; cbn [matchLen]; auto.
  rewrite (Ascii.eqb_sym x y). destruct (Ascii.eqb y x); auto.
Qed.

Lemma matchLen_same (c a b : string) :
  matchLen (c ++ a) (c ++ b) = String.length c + matchLen a b.
Proof.
  induction c as [|x c IH]; cbn [append matchLen String.length Nat.add]; auto.
  rewrite Ascii.eqb_refl, IH; reflexivity.
Qed.

Lemma matchLen_differ (c c' a b : string) :
  String.length c = String.length c' -> c <> c' ->
  matchLen (c ++ a) (c' ++ b) < String.length c.
Proof.
  revert c'; induction c as [|x c IH]; intros [|y c'] L N;
    cbn [String.length] in L; try discriminate; [congruence|].
  cbn [append matchLen String.length].
  destruct (Ascii.eqb_spec x y) as [->|]; [|lia].
  assert (c <> c') by congruence.
  specialize (IH c' ltac:(lia) H). lia.
Qed.

(** Inside an encoding the second loop backs up to its lead byte. *)
Lemma backUp_inside (c a : string) (i : nat) :
  runeShape c -> i < String.length c -> backUp (c ++ a) i = 0.
Proof.
  intros S' Hi. induction i as [|i IH]; [reflexivity|].
  cbn [backUp]. rewrite byteAt_append_l by lia.
  destruct (shape_trail c (S i) S' ltac:(lia)) as (x & -> & ->).
  cbn [negb]. apply IH; lia.
Qed.

Lemma backUp_shift (c a : string) (j : nat) :
  0 < String.length c -> startsRune a ->
  backUp (c ++ a) (String.length c + j) = String.length c + backUp a j.
Proof.
  intros Hc Ha. induction j as [|j IH].
  - rewrite Nat.add_0_r. cbn [backUp].
    destruct (String.length c) as [|n] eqn:E; [lia|].
    cbn [backUp]. rewrite <- E.
    replace (String.length c) with (String.length c + 0) at 1 by lia.
    rewrite byteAt_append_r.
    destruct a as [|x a]; cbn [byteAt]; [lia|].
    simpl in Ha. rewrite Ha. cbn [negb]. lia.
  - rewrite Nat.add_succ_r. cbn [backUp].
    rewrite <- Nat.add_succ_r, byteAt_append_r.
    destruct (byteAt (S j) a) as [x|]; [|lia].
    destruct (negb (RuneStart x)); [exact IH|lia].
Qed.

Lemma Runes_starts (a : string) : Runes a -> startsRune a.
Proof.
  intros [|c s Hc _]; [exact I|].
  apply isRune_shape in Hc. destruct (shape_lead c Hc) as (x & r & -> & Hx).
  exact Hx.
Qed.

Lemma commonPrefix_nil_l (b : string) : commonPrefix "" b = "".
Proof. reflexivity. Qed.

Lemma commonPrefix_nil_r (a : string) : commonPrefix a "" = "".
Proof. unfold commonPrefix. rewrite matchLen_sym. reflexivity. Qed.

(** Two strings that start with the same encoding. *)
Lemma commonPrefix_same (c a b : string) :
  runeShape c -> startsRune a ->
  commonPrefix (c ++ a) (c ++ b) = c ++ commonPrefix a b.
Proof.
  intros S' Ha. unfold commonPrefix.
  rewrite matchLen_same, backUp_shift, take_append_r; auto.
  destruct S'; simpl; lia.
Qed.

(** Two strings that start with different encodings. *)
Lemma commonPrefix_differ (c c' a b : string) :
  runeShape c -> runeShape c' -> c <> c' ->
  commonPrefix (c ++ a) (c' ++ b) = "".
Proof.
  intros S1 S2 N. unfold commonPrefix.
  rewrite backUp_inside; auto.
  destruct (shape_lead c S1) as (x & r & -> & _).
  destruct (shape_lead c' S2) as (y & r' & -> & _).
  destruct (Ascii.eqb_spec x y) as [->|D].
  - apply matchLen_differ; auto.
    apply shape_length; auto.
  - cbn [append matchLen]. apply Ascii.eqb_neq in D. rewrite D. simpl; lia.
Qed.

Lemma Runes_app (p s : string) : Runes p -> Runes s -> Runes (p ++ s).
Proof.
  induction 1 as [|c p Hc Hp IH]; intros Hs; [exact Hs|].
  rewrite append_assoc. constructor; auto.
Qed.

(** On well-formed strings [commonPrefix] is the concatenation of the
    encodings the two strings share, whichever comes first. *)
Lemma commonPrefix_runes (a : string) :
  Runes a -> forall b, Runes b ->
  exists a' b',
    a = commonPrefix a b ++ a' /\ b = commonPrefix a b ++ b' /\
    Runes (commonPrefix a b) /\ Runes a' /\ Runes b' /\
    commonPrefix b a = commonPrefix a b.
Proof.
  induction 1 as [|c a Hc Ha IH]; intros b Hb.
  - exists "", b. rewrite commonPrefix_nil_l, commonPrefix_nil_r.
    repeat split; auto; constructor.
  - destruct Hb as [|c' b Hc' Hb].
    + exists (c ++ a), "". rewrite commonPrefix_nil_l, commonPrefix_nil_r.
      repeat split; auto; constructor; auto.
    + pose proof (proj1 (isRune_shape c) Hc) as Sc.
      pose proof (proj1 (isRune_shape c') Hc') as Sc'.
      destruct (string_dec c c') as [<-|N].
      * destruct (IH b Hb) as (a' & b' & Ea & Eb & Rp & Ra & Rb & Sym).
        exists a', b'.
        rewrite !commonPrefix_same by auto using Runes_starts.
        rewrite Sym, !append_assoc, <- Ea, <- Eb.
        repeat split; auto. constructor; auto.
      * exists (c ++ a), (c' ++ b).
        rewrite (commonPrefix_differ c c') by auto.
        rewrite (commonPrefix_differ c' c) by auto.
        repeat split; auto; constructor; auto.
Qed.

(** [utf8.ValidString] and [Runes] agree. *)
Lemma validFrom_skip (k : nat) :
  forall s, validFrom k s = true ->
    k <= String.length s /\ validFrom 0 (drop k s) = true.
Proof.
  induction k as [|k IH]; intros s H.
  - split; [lia|exact H].
  - destruct s as [|x s]; [discriminate|].
    cbn [validFrom] in H. destruct (IH s H). cbn [String.length drop]. split; [lia|auto].
Qed.

Lemma validFrom_append (t s : string) :
  validFrom (String.length t) (t ++ s) = validFrom 0 s.
Proof.
  induction t as [|x t IH]; [reflexivity|].
  cbn [String.length append validFrom]. exact IH.
Qed.

Lemma ValidString_Runes_bounded (n : nat) :
  forall s, String.length s <= n -> ValidString s = true -> Runes s.
Proof.
  induction n as [|n IH]; intros s Hn H.
  - destruct s; [constructor|simpl in Hn; lia].
  - destruct s as [|x s]; [constructor|].
    unfold ValidString in H. cbn [validFrom] in H.
    destruct (runeLen (String x s)) as [|k] eqn:E; [discriminate|].
    destruct (runeLen_shape _ _ E) as (c & r & Es & Sc & Lc).
    destruct (validFrom_skip _ _ H) as [_ V].
    rewrite Es. constructor; [apply isRune_shape, Sc|].
    apply IH.
    + apply (f_equal String.length) in Es. rewrite length_append in Es.
      simpl in Hn, Es. lia.
    + destruct c as [|y c]; [simpl in Lc; lia|].
      cbn [append] in Es. injection Es as -> ->.
      simpl in Lc. injection Lc as <-.
      rewrite drop_append in V. exact V.
Qed.

Lemma ValidString_Runes (s : string) : ValidString s = true <-> Runes s.
Proof.
  split; [apply (ValidString_Runes_bounded (String.length s)); lia|].
  induction 1 as [|c s Hc Hs IH]; [reflexivity|].
  apply isRune_shape in Hc.
  pose proof (shape_runeLen c s Hc) as E.
  destruct (shape_lead c Hc) as (x & r & -> & _).
  unfold ValidString. cbn [append validFrom].
  cbn [append] in E. rewrite E. cbn [String.length].
  rewrite validFrom_append. exact IH.
Qed.

End Utf8Facts.

(** C8. For valid UTF-8 strings [a] and [b], [commonPrefix(a, b)] is a
    prefix of both, it ends on a rune boundary of both (the prefix and
    what remains of [a] and of [b] are valid UTF-8 again, so a partially
    matched rune is dropped whole), and it is symmetric. *)
Theorem commonPrefix_rune_boundary (a b : string)
  (Ha : ValidString a = true) (Hb : ValidString b = true) :
  HasPrefix a (commonPrefix a b) = true /\
  HasPrefix b (commonPrefix a b) = true /\
  ValidString (commonPrefix a b) = true /\
  ValidString (TrimPrefix a (commonPrefix a b)) = true /\
  ValidString (TrimPrefix b (commonPrefix a b)) = true /\
  commonPrefix a b = commonPrefix b a.
Proof.
  apply ValidString_Runes in Ha, Hb.
  destruct (commonPrefix_runes a Ha b Hb) as (a' & b' & Ea & Eb & Rp & Ra & Rb & Sym).
  set (p := commonPrefix a b) in *.
  assert (Ta : TrimPrefix a p = a') by (rewrite Ea at 1; apply TrimPrefix_append).
  assert (Tb : TrimPrefix b p = b') by (rewrite Eb at 1; apply TrimPrefix_append).
  rewrite Ta, Tb.
  repeat split.
  - rewrite Ea; apply HasPrefix_append.
  - rewrite Eb; apply HasPrefix_append.
  - apply ValidString_Runes, Rp.
  - apply ValidString_Runes, Ra.
  - apply ValidString_Runes, Rb.
  - symmetry; exact Sym.
Qed.

Lemma commonPrefix_rune_boundary_witness :
  let a := "/folder/" ++ smiley ++ "file" in
  let b := "/folder/" ++ grin ++ "file" in
  commonPrefix a b = "/folder/" /\
  HasPrefix a (commonPrefix a b) = true /\
  HasPrefix b (commonPrefix a b) = true /\
  ValidString (commonPrefix a b) = true /\
  ValidString (TrimPrefix a (commonPrefix a b)) = true /\
  ValidString (TrimPrefix b (commonPrefix a b)) = true /\
  commonPrefix a b = commonPrefix b a.
Proof.
  intros a b. split; [reflexivity|].
  apply (commonPrefix_rune_boundary a b); reflexivity.
Defined.


(* ================================================================== *)
(** ** Induction over tries *)
(* ================================================================== *)

Lemma Entry_eta (e : Entry) : mkEntry (EContent e) (Path e) (Entries e) (EMeta e) = e.
Proof. destruct e; reflexivity. Qed.

Lemma copyMeta_id (m : option Meta) : copyMeta m = m.
Proof. destruct m as [[? ? ?]|]; reflexivity. Qed.

(** A deep copy is the same value. *)
Lemma copy_id (e : Entry) : copy e = e.
Proof.
  induction e as [c p es m IH] using Entry_induction.
  cbn [copy EContent Path Entries EMeta]. rewrite copyMeta_id. f_equal.
  induction IH as [|x tl Hx _ IHtl]; cbn [map]; congruence.
Qed.

Lemma copyContent_id (c : Content) : copyContent c = c.
Proof. destruct c; reflexivity. Qed.

(** One unfolding of the recursive functions. *)
Lemma addTo_unfold (now : Z) (subtrie what : Entry) :
  addTo now subtrie what =
  let spath := Path subtrie in
  if HasPrefix spath (Path what)
  then
    let suf := TrimPrefix spath (Path what) in
    if Nat.eqb (String.length suf) 0
    then
      '(s, err) <- extend subtrie what ;;
      Ret (s, fixEntries [copy what] "", err)
    else if byte_is (byteAt 0 suf) SeparatorRune
    then Ret (subtrie, [], Some ErrConflict)
    else Ret (split (Path what) subtrie what true, fixEntries [copy what] "", None)
  else if HasPrefix (Path what) spath
  then
    let what := trimPrefix what spath in
    match Entries subtrie with
    | [] =>
        if Nat.eqb (String.length (Path what)) 0 ||
           byte_is (byteAt 0 (Path what)) SeparatorRune
        then
          if isEntryType (EContent subtrie)
          then
            let s := mkEntry (EContent what) (spath ++ Path what) [] (EMeta subtrie) in
            if Nat.eqb (String.length (Path what)) 0
            then Ret (s, fixEntries [copy what] (Path s), None)
            else Ret (s, fixEntries (splitEntry what) (Path s), None)
          else Ret (subtrie, [], Some ErrConflict)
        else
          Ret (split spath subtrie what false, fixEntries (splitEntry what) spath, None)
    | _ :: _ =>
        match addToEach (fun me => addTo now me what) (runeOf (Path what))
                        (Entries subtrie) with
        | Some o =>
            '(es, entries, err) <- o ;;
            Ret (mkEntry (EContent subtrie) spath es (EMeta subtrie),
                 fixEntries entries spath, err)
        | None =>
            '(s, err) <- add subtrie what ;;
            Ret (s, fixEntries (splitEntry what) spath, err)
        end
    end
  else
    let subprefix := commonPrefix spath (Path what) in
    let temp := mkEntry (EContent what) (TrimPrefix (Path what) subprefix) [] None in
    c <- firstByte (Path temp) ;;
    let entries :=
      if Ascii.eqb c SeparatorRune
      then (splitEntry temp ++ [NewEntry "" "" 0 MIMEDriveDirectory now])%list
      else splitEntry temp in
    Ret (split subprefix subtrie what true, fixEntries entries subprefix, None).
Proof.
  destruct subtrie as [c p es m]. cbn [addTo Path Entries EContent EMeta].
  cbv zeta. destruct es; reflexivity.
Qed.

Lemma rm_unfold (subprefix : string) (subtrie : Entry) :
  rm subprefix subtrie =
  let subprefix := TrimPrefix subprefix (Path subtrie) in
  let atEnd := Nat.eqb (String.length subprefix) 0 in
  if atEnd && (negb (isEntryType (EContent subtrie)) || IsEmptyFolder subtrie)
  then deleteOrConvert subtrie
  else
    let '(es, unlink) :=
      rmEach (fun me => rm subprefix me) atEnd subprefix 0 (Entries subtrie) in
    let subtrie := mkEntry (EContent subtrie) (Path subtrie) es (EMeta subtrie) in
    match unlink with
    | Some i => removeAndMerge subtrie i
    | None => (subtrie, false)
    end.
Proof. destruct subtrie; reflexivity. Qed.

Lemma find_unfold (subprefix : string) (subtrie : Entry) :
  find subprefix subtrie =
  let subprefix := TrimPrefix subprefix (Path subtrie) in
  let atEnd := Nat.eqb (String.length subprefix) 0 in
  let folder :=
    Fresh (updateFolderEntry (dirContent "" (CreatedAt (EContent subtrie))) subtrie) in
  if atEnd && negb (isEntryType (EContent subtrie)) then (subtrie, Some (At []))
  else if atEnd && IsEmptyFolder subtrie then (subtrie, Some folder)
  else
    let '(es, item) :=
      findEach (fun me => find subprefix me) subtrie atEnd subprefix folder 0
               (Entries subtrie) in
    (mkEntry (EContent subtrie) (Path subtrie) es (EMeta subtrie), item).
Proof. destruct subtrie; reflexivity. Qed.

Lemma stat_unfold (subprefix : string) (subtrie : Entry) :
  stat subprefix subtrie =
  let spath := Path subtrie in
  let folder := dirContent "" (CreatedAt (EContent subtrie)) in
  if HasPrefix subprefix spath
  then
    let subprefix := TrimPrefix subprefix spath in
    let atEnd := Nat.eqb (String.length subprefix) 0 in
    if atEnd && negb (isEntryType (EContent subtrie)) then Ret (Some (EContent subtrie))
    else if atEnd && IsEmptyFolder subtrie then Ret (Some folder)
    else statEach (fun me => stat subprefix me) atEnd folder (Entries subtrie)
  else if HasPrefix spath subprefix
  then
    let subprefix := TrimPrefix spath subprefix in
    let atEnd := Nat.eqb (String.length subprefix) 0 in
    if atEnd && negb (isEntryType (EContent subtrie)) then Ret (Some (EContent subtrie))
    else if atEnd && IsEmptyFolder subtrie then Ret (Some folder)
    else
      c <- firstByte subprefix ;;
      if Ascii.eqb c SeparatorRune then Ret (Some folder) else Ret None
  else Ret None.
Proof. destruct subtrie; reflexivity. Qed.

Lemma bind_Ret {A B} (o : outcome A) (k : A -> outcome B) (b : B) :
  bind o k = Ret b -> exists a, o = Ret a /\ k a = Ret b.
Proof. destruct o; simpl; try discriminate. eauto. Qed.

(* ================================================================== *)
(** ** Failed insertions leave the trie alone *)
(* ================================================================== *)

Section Atomicity.

Lemma extend_atomic (subtrie what s : Entry) (e : error) :
  extend subtrie what = Ret (s, Some e) -> s = subtrie.
Proof.
  unfold extend. destruct (negb (isEntryType (EContent subtrie))); [congruence|].
  intros H. apply bind_Ret in H as (conflict & _ & H).
  destruct conflict; congruence.
Qed.

Lemma addOverSentinel_atomic (what : Entry) (es es' : list Entry) (e : error) :
  addOverSentinel what es = Some (es', Some e) -> es' = es.
Proof.
  revert es'; induction es as [|me tl IH]; intros es'; cbn [addOverSentinel];
    [discriminate|].
  destruct (String.eqb (Path me) SpecialPathSymbol).
  - destruct (negb (isEntryType (EContent me))); congruence.
  - destruct (addOverSentinel what tl) as [[tl' err]|]; [|discriminate].
    intros [= <- ->]. f_equal. apply IH. reflexivity.
Qed.

Lemma add_atomic (subtrie what s : Entry) (e : error) :
  add subtrie what = Ret (s, Some e) -> s = subtrie.
Proof.
  unfold add. destruct (negb (isEntryType (EContent subtrie))); [congruence|].
  intros H. apply bind_Ret in H as (c & _ & H).
  destruct (Ascii.eqb c SeparatorRune); [|congruence].
  destruct (IsEmptyFolder subtrie); [congruence|].
  destruct (addOverSentinel what (Entries subtrie)) as [[es err]|] eqn:E; [|congruence].
  injection H as <- ->. apply addOverSentinel_atomic in E. subst es.
  destruct subtrie; reflexivity.
Qed.

Lemma addToEach_atomic (rec : Entry -> outcome (Entry * list Entry * option error))
      (rune : N) (es : list Entry) :
  Forall (fun me => forall s cr e, rec me = Ret (s, cr, Some e) -> s = me) es ->
  forall o es' cr e,
    addToEach rec rune es = Some o -> o = Ret (es', cr, Some e) -> es' = es.
Proof.
  induction 1 as [|me tl Hme _ IH]; intros o es' cr e; cbn [addToEach];
    [discriminate|].
  destruct (negb (N.eqb (runeOf (Path me)) rune)).
  - destruct (addToEach rec rune tl) as [o'|]; [|discriminate].
    intros [= <-] H. apply bind_Ret in H as ([[tl' cr'] err'] & Ho & H).
    injection H as <- <- ->. f_equal. eapply IH; eauto.
  - intros [= <-] H. apply bind_Ret in H as ([[me' cr'] err'] & Ho & H).
    injection H as <- <- ->. f_equal. eapply Hme; eauto.
Qed.

(** [addTo] reports an error only from paths that have not written to
    the trie. *)
Lemma addTo_atomic (now : Z) (subtrie : Entry) :
  forall what s cr e, addTo now subtrie what = Ret (s, cr, Some e) -> s = subtrie.
Proof.
  induction subtrie as [c p es m IH] using Entry_induction.
  intros what s cr e. rewrite addTo_unfold. cbv zeta.
  cbn [Path Entries EContent EMeta].
  destruct (HasPrefix p (Path what)).
  { destruct (Nat.eqb (String.length (TrimPrefix p (Path what))) 0).
    - intros H. apply bind_Ret in H as ([s' err] & He & H).
      injection H as <- <- ->. eapply extend_atomic; eauto.
    - destruct (byte_is _ _); congruence. }
  destruct (HasPrefix (Path what) p).
  { destruct es as [|e0 es].
    - destruct (_ || _); [|congruence].
      destruct (isEntryType c); [|congruence].
      destruct (Nat.eqb _ 0); congruence.
    - destruct (addToEach _ _ _) as [o|] eqn:E.
      + intros H. apply bind_Ret in H as ([[es' cr'] err'] & Ho & H).
        injection H as <- <- ->. f_equal.
        eapply addToEach_atomic; [|exact E|exact Ho].
        eapply Forall_impl; [|exact IH]. intros me Hme s2 cr2 e2. apply Hme.
      + intros H. apply bind_Ret in H as ([s' err] & Ha & H).
        injection H as <- <- ->. eapply add_atomic; eauto. }
  intros H. apply bind_Ret in H as (ch & _ & H). congruence.
Qed.

End Atomicity.

(** C5. Whenever [AddFile] returns an error, whichever it is, the trie
    is exactly what it was before the call; and adding the file [/aaa] a
    second time is refused with [ErrConflict], the trie staying as the
    first insertion left it. *)
Theorem AddFile_atomic (fuel : nat) (now : Z) (mt mt' : Trie) (m : option Entry)
  (created : list Entry) (e : error)
  (H : AddFile fuel now mt m = Ret (mt', created, Some e)) :
  mt' = mt /\
  (forall k t,
      AddFile (S k) t NewTrie (Some aaaFile) = Ret (Some aaaFile, [], None) /\
      exists refused,
        AddFile (S k) t (Some aaaFile) (Some aaaFile)
        = Ret (Some aaaFile, refused, Some ErrConflict)).
Proof.
  split.
  - unfold AddFile in H. destruct m as [m|]; [|congruence].
    destruct (prepared m) as [m' [err|]]; [congruence|].
    destruct mt as [root|].
    + apply bind_Ret in H as ([[root' cr] err] & Ha & H).
      injection H as <- <- ->. f_equal. eapply addTo_atomic; eauto.
    + apply bind_Ret in H as (cr & _ & H). congruence.
  - intros k t. split.
    + vm_compute. reflexivity.
    + eexists. vm_compute. reflexivity.
Qed.

Lemma AddFile_atomic_witness :
  Some aaaFile = Some aaaFile /\
  (forall k t,
      AddFile (S k) t NewTrie (Some aaaFile) = Ret (Some aaaFile, [], None) /\
      exists refused,
        AddFile (S k) t (Some aaaFile) (Some aaaFile)
        = Ret (Some aaaFile, refused, Some ErrConflict)).
Proof.
  apply (AddFile_atomic 1 0 (Some aaaFile) (Some aaaFile) (Some aaaFile)
           (fixEntries [copy aaaFile] "") ErrConflict).
  vm_compute. reflexivity.
Defined.


(* ================================================================== *)
(** ** Paths without the special symbol *)
(* ================================================================== *)

Section ColonFacts.

Lemma Contains_colon (s : string) : Contains s SpecialPathSymbol = hasColon s.
Proof.
  induction s as [|c s IH]; [reflexivity|].
  rewrite Contains_cons, IH. cbn [HasPrefix SpecialPathSymbol hasColon].
  rewrite HasPrefix_nil, andb_true_r. reflexivity.
Qed.

Lemma hasColon_append (s t : string) :
  hasColon (s ++ t) = hasColon s || hasColon t.
Proof.
  induction s as [|c s IH]; [reflexivity|].
  cbn [append hasColon]. rewrite IH, orb_assoc. reflexivity.
Qed.

Lemma hasColon_drop (n : nat) (s : string) :
  hasColon s = false -> hasColon (drop n s) = false.
Proof.
  revert s; induction n as [|n IH]; intros [|c s] H; cbn [drop]; auto.
  cbn [hasColon] in H. apply orb_false_iff in H as [_ H]. auto.
Qed.

Lemma hasColon_take (n : nat) (s : string) :
  hasColon s = false -> hasColon (take n s) = false.
Proof.
  revert s; induction n as [|n IH]; intros [|c s] H; cbn [take]; auto.
  cbn [hasColon] in H |- *. apply orb_false_iff in H as [H1 H2].
  rewrite H1, IH; auto.
Qed.



Lemma hasColon_ReplaceAll (n : nat) :
  forall s, String.length s <= n -> hasColon s = false ->
    hasColon (ReplaceAll s DoubleSeparator Separator) = false.
Proof.
  induction n as [|n IH]; intros s Hn H.
  - destruct s; [reflexivity|simpl in Hn; lia].
  - destruct s as [|c s]; [reflexivity|].
    rewrite ReplaceAll_double.
    cbn [hasColon] in H. apply orb_false_iff in H as [H1 H2].
    cbn [String.length] in Hn.
    destruct (HasPrefix (String c s) DoubleSeparator).
    + cbn [hasColon]. apply orb_false_iff; split; [reflexivity|].
      apply IH; [rewrite length_drop; lia | apply hasColon_drop, H2].
    + cbn [hasColon]. rewrite H1. apply IH; [lia|exact H2].
Qed.

Lemma hasColon_collapse (n : nat) :
  forall s, hasColon s = false -> hasColon (collapse n s) = false.
Proof.
  induction n as [|n IH]; intros s H; cbn [collapse]; auto.
  destruct (Contains s DoubleSeparator); auto.
  apply IH, (hasColon_ReplaceAll (String.length s)); auto.
Qed.

Lemma hasColon_CleanPath (p : string) :
  hasColon p = false -> hasColon (CleanPath p) = false.
Proof.
  intros H. unfold CleanPath.
  destruct (Nat.eqb (String.length p) 0); [exact H|].
  pose proof (hasColon_collapse (String.length p) p H) as Hc.
  set (r := collapse (String.length p) p) in *.
  assert (Hr : hasColon (if byte_is (byteAt 0 r) SeparatorRune then r
                         else Separator ++ r) = false).
  { destruct (byte_is (byteAt 0 r) SeparatorRune); [exact Hc|].
    rewrite hasColon_append, Hc. reflexivity. }
  destruct (_ && _); [apply hasColon_take|]; exact Hr.
Qed.









End ColonFacts.


(* ================================================================== *)
(** ** The compression invariant *)
(* ================================================================== *)

Section Invariant.











Lemma trimPrefix_entries (e : Entry) (p : string) :
  Entries (trimPrefix e p) = Entries e.
Proof. reflexivity. Qed.















Lemma NewEntry_folder (p cid : string) (size t : Z) :
  NewEntry p cid size MIMEDriveEntry t
  = mkEntry (mkContent "" "" MIMEDriveEntry 0 0 t) p
            [mkEntry (mkContent "" "" MIMEDriveEntry 0 0 t) SpecialPathSymbol [] None]
            None.
Proof. reflexivity. Qed.










End Invariant.


(* ================================================================== *)
(** ** Reachable tries *)
(* ================================================================== *)

Section Reachability.

Lemma prepared_ok (e m : Entry) :
  prepared e = (m, None) ->
  Path m = CleanPath (Path e) /\ Entries m = Entries e /\ hasColon (Path e) = false.
Proof.
  unfold prepared, Validate.
  destruct (String.eqb (EType e) MIMEDriveDirectory); [discriminate|].
  destruct (_ && _); [discriminate|].
  rewrite Contains_colon.
  destruct (hasColon (Path e)) eqn:C; [discriminate|].
  destruct (_ && _); [discriminate|].
  destruct (ContentValidate (EContent e)) as [c [err|]]; [discriminate|].
  intros [= <-]. destruct e; auto.
Qed.

Lemma NewEntry_shape (path cid : string) (size : Z) (t : string) (createdAt : Z) :
  let e := NewEntry path cid size t createdAt in
  Path e = path /\
  (Entries e = [] \/
   exists c, Entries e = [mkEntry c SpecialPathSymbol [] None]).
Proof.
  unfold NewEntry. destruct (String.eqb t MIMEDriveEntry); cbn [Path Entries].
  - split; [reflexivity|]. right. eexists. reflexivity.
  - split; [reflexivity|]. left. reflexivity.
Qed.





End Reachability.




(* ================================================================== *)
(** ** What [find] leaves behind *)
(* ================================================================== *)

Section FindFacts.

Lemma replaceAt_same (i : nat) (x : Entry) (l : list Entry) :
  nth_error l i = Some x -> replaceAt i x l = l.
Proof.
  revert i; induction l as [|y l IH]; intros [|i]; cbn [nth_error replaceAt];
    try discriminate.
  - intros [= ->]. reflexivity.
  - intros H. f_equal. auto.
Qed.

Lemma updateAt_same (g : Content -> Content) (route : list nat) :
  forall e f, contentAt route e = Some f -> g f = f -> updateAt route g e = e.
Proof.
  induction route as [|i r IH]; intros e f; cbn [contentAt updateAt].
  - intros [= <-] G. rewrite G. destruct e; reflexivity.
  - destruct (nth_error (Entries e) i) as [me|] eqn:N; [|discriminate].
    intros C G. rewrite (IH me f C G), (replaceAt_same _ _ _ N).
    destruct e; reflexivity.
Qed.

Lemma contentAt_updateAt (g : Content -> Content) (route : list nat) :
  forall e f, contentAt route e = Some f ->
              contentAt route (updateAt route g e) = Some (g f).
Proof.
  induction route as [|i r IH]; intros e f; cbn [contentAt updateAt].
  - intros [= <-]. destruct e; reflexivity.
  - destruct (nth_error (Entries e) i) as [me|] eqn:N; [|discriminate].
    intros C. destruct e as [c p es m]. cbn [setEntries Entries] in *.
    assert (N' : nth_error (replaceAt i (updateAt r g me) es) i
                 = Some (updateAt r g me)).
    { clear - N. revert i N. induction es as [|y es IHes]; intros [|i];
        cbn [nth_error replaceAt]; try discriminate; auto. }
    rewrite N'. apply IH, C.
Qed.

Lemma updateFolderEntry_type (c : Content) (me : Entry) :
  Type_ (updateFolderEntry c me) = Type_ c.
Proof.
  unfold updateFolderEntry. destruct (negb _); [reflexivity|].
  destruct (_ <? _)%Z; reflexivity.
Qed.

Lemma updateFolderEntry_file (c : Content) (me : Entry) :
  isDirType c = false -> updateFolderEntry c me = c.
Proof. unfold updateFolderEntry, isDirType. intros ->. reflexivity. Qed.

Lemma folder_isDir (t : Z) (me : Entry) :
  isDirType (updateFolderEntry (dirContent "" t) me) = true.
Proof. unfold isDirType. rewrite updateFolderEntry_type. reflexivity. Qed.

Lemma findEach_quiet (rec : Entry -> Entry * option cref) (subtrie : Entry)
      (atEnd : bool) (sub : string) (t : Z) (es : list Entry) :
  Forall (fun me => forall e' r, rec me = (e', r) -> quiet me e' r) es ->
  forall i es' r,
    findEach rec subtrie atEnd sub
             (Fresh (updateFolderEntry (dirContent "" t) subtrie)) i es = (es', r) ->
    match r with
    | None => es' = es
    | Some (Fresh c) => es' = es /\ isDirType c = true
    | Some (At route) =>
        exists j rest me f,
          route = (i + j) :: rest /\ nth_error es j = Some me /\
          contentAt rest me = Some f /\ isEntryType f = false /\
          (isDirType f = false -> es' = es)
    end.
Proof.
  induction 1 as [|me tl Hme _ IH]; intros i es' r; cbn [findEach].
  { intros [= <- <-]. reflexivity. }
  assert (Step : forall es1 r1,
             (let '(tl', r) :=
                findEach rec subtrie atEnd sub
                  (Fresh (updateFolderEntry (dirContent "" t) subtrie)) (S i) tl in
              (me :: tl', r)) = (es1, r1) ->
             match r1 with
             | None => es1 = me :: tl
             | Some (Fresh c) => es1 = me :: tl /\ isDirType c = true
             | Some (At route) =>
                 exists j rest me0 f,
                   route = (i + j) :: rest /\ nth_error (me :: tl) j = Some me0 /\
                   contentAt rest me0 = Some f /\ isEntryType f = false /\
                   (isDirType f = false -> es1 = me :: tl)
             end).
  { intros es1 r1. destruct (findEach _ _ _ _ _ (S i) tl) as [tl' r'] eqn:E.
    intros [= <- <-]. specialize (IH _ _ _ E).
    destruct r' as [[c|route]|].
    - destruct IH as [-> D]. auto.
    - destruct IH as (j & rest & me0 & f & -> & N & C & T & S').
      exists (S j), rest, me0, f. repeat split; auto.
      + f_equal. lia.
      + intros D. rewrite (S' D). reflexivity.
    - rewrite IH. reflexivity. }
  destruct atEnd.
  - destruct (String.eqb (Path me) SpecialPathSymbol); [|apply Step].
    destruct (isEntryType (EContent me)) eqn:T; cbn [negb]; intros [= <- <-].
    + split; [reflexivity|apply folder_isDir].
    + exists 0, [], me, (EContent me). rewrite Nat.add_0_r. repeat split; auto.
  - destruct (HasPrefix sub (Path me)).
    + destruct (rec me) as [me' item] eqn:E. specialize (Hme _ _ eq_refl).
      destruct item as [[c|route]|]; cbn [quiet] in Hme; intros [= <- <-].
      * destruct Hme as [-> D]. split; [reflexivity|].
        unfold isDirType in *. rewrite updateFolderEntry_type. exact D.
      * destruct Hme as (f & C & T & S').
        exists 0, route, me, f. rewrite Nat.add_0_r. repeat split; auto.
        intros D. rewrite (S' D). f_equal.
        apply (updateAt_same _ route me f C).
        apply updateFolderEntry_file, D.
      * rewrite Hme. reflexivity.
    + destruct (HasPrefix (Path me) sub); [|apply Step].
      intros [= <- <-]. reflexivity.
Qed.

Lemma find_quiet (subtrie : Entry) :
  forall p e' r, find p subtrie = (e', r) -> quiet subtrie e' r.
Proof.
  induction subtrie as [c q es m IH] using Entry_induction.
  intros p e' r. rewrite find_unfold. cbv zeta.
  cbn [Path Entries EContent EMeta].
  set (subtrie := mkEntry c q es m) in *.
  destruct (isEntryType c) eqn:T; cbn [negb]; rewrite ?andb_false_r, ?andb_true_r.
  - destruct (Nat.eqb _ 0 && IsEmptyFolder subtrie).
    { intros [= <- <-]. split; [reflexivity|apply folder_isDir]. }
    destruct (findEach _ _ _ _ _ _ _) as [es' item] eqn:E.
    intros [= <- <-].
    eapply findEach_quiet in E;
      [|eapply Forall_impl; [|exact IH]; intros me Hme e2 r2; apply Hme].
    destruct item as [[d|route]|]; cbn [quiet].
    + destruct E as [-> D]. auto.
    + destruct E as (j & rest & me & f & -> & N & C & Tf & S').
      exists f. cbn [contentAt Entries subtrie Nat.add]. rewrite N.
      repeat split; auto. intros D. rewrite (S' D). reflexivity.
    + rewrite E. reflexivity.
  - destruct (Nat.eqb _ 0).
    { intros [= <- <-]. exists c. repeat split; auto. }
    cbn [andb].
    destruct (findEach _ _ _ _ _ _ _) as [es' item] eqn:E.
    intros [= <- <-].
    eapply findEach_quiet in E;
      [|eapply Forall_impl; [|exact IH]; intros me Hme e2 r2; apply Hme].
    destruct item as [[d|route]|]; cbn [quiet].
    + destruct E as [-> D]. auto.
    + destruct E as (j & rest & me & f & -> & N & C & Tf & S').
      exists f. cbn [contentAt Entries subtrie Nat.add]. rewrite N.
      repeat split; auto. intros D. rewrite (S' D). reflexivity.
    + rewrite E. reflexivity.
Qed.

End FindFacts.


(* ================================================================== *)
(** ** [Replace] *)
(* ================================================================== *)




(* ================================================================== *)
(** ** Deleting the only entry *)
(* ================================================================== *)

Section SoleEntry.

Lemma find_folder (parent : string) (t : Z) :
  let placeholder := NewEntry parent "" 0 MIMEDriveEntry t in
  find parent placeholder
  = (placeholder,
     Some (Fresh (updateFolderEntry (dirContent "" t) placeholder))).
Proof.
  cbv zeta. rewrite NewEntry_folder, find_unfold. cbv zeta.
  cbn [Path EContent Entries]. rewrite TrimPrefix_refl. reflexivity.
Qed.

Lemma stat_folder (parent : string) (t : Z) :
  stat parent (NewEntry parent "" 0 MIMEDriveEntry t) = Ret (Some (dirContent "" t)).
Proof.
  rewrite NewEntry_folder, stat_unfold. cbv zeta.
  cbn [Path EContent Entries]. rewrite HasPrefix_refl, TrimPrefix_refl. reflexivity.
Qed.

Lemma rm_sole (root : Entry) :
  negb (isEntryType (EContent root)) || IsEmptyFolder root = true ->
  rm (Path root) root = deleteOrConvert root.
Proof.
  intros H. rewrite rm_unfold. cbv zeta. rewrite TrimPrefix_refl, H. reflexivity.
Qed.

End SoleEntry.

(** Deleting the value of a one-node trie whose path has a parent
    directory below the root. *)
Lemma Delete_sole_node (root : Entry) (path : string)
  (Hsole : negb (isEntryType (EContent root)) || IsEmptyFolder root = true)
  (Hpath : 0 < String.length path)
  (Hclean : CleanPath path = Path root)
  (Hparent : (0 < LastIndex (Path root) Separator)%Z) :
  let parent := take (Z.to_nat (LastIndex (Path root) Separator)) (Path root) in
  let placeholder :=
    NewEntry parent "" 0 MIMEDriveEntry (CreatedAt (EContent root)) in
  Delete (Some root) path = (Some placeholder, None) /\
  IsEmptyFolder placeholder = true /\
  (forall q, 0 < String.length q -> CleanPath q = parent ->
     exists c, File (Some placeholder) q = (Some placeholder, Some c, None) /\
               Type_ c = MIMEDriveDirectory) /\
  (forall q, 0 < String.length q -> q <> Separator -> CleanPath q = parent ->
     exists c, Stat (Some placeholder) q = Ret (Some c, None) /\
               Type_ c = MIMEDriveDirectory /\ Name c = Base q).
Proof.
  intros parent placeholder. repeat split.
  - unfold Delete.
    destruct (Nat.eqb_spec (String.length path) 0) as [E|_]; [lia|].
    rewrite Hclean, (rm_sole root Hsole). unfold deleteOrConvert.
    destruct (Z.leb_spec (LastIndex (Path root) Separator) 0) as [L|_]; [lia|].
    unfold CopyFrom. rewrite copy_id. reflexivity.
  - intros q Hq Hc. unfold File.
    destruct (Nat.eqb_spec (String.length q) 0) as [E|_]; [lia|].
    rewrite Hc. unfold placeholder. rewrite find_folder. cbn [deref].
    eexists. split; [reflexivity|].
    rewrite copyContent_id. apply updateFolderEntry_type.
  - intros q Hq Hr Hc. unfold Stat.
    destruct (Nat.eqb_spec (String.length q) 0) as [E|_]; [lia|].
    destruct (String.eqb_spec q Separator) as [E|_]; [contradiction|].
    rewrite Hc. unfold placeholder. rewrite stat_folder. cbn [bind].
    eexists. repeat split.
Qed.

(** C4. When the only node of the trie holds the value at the deleted
    path (a file leaf, or an empty-folder placeholder) and its path has a
    parent directory below the root, [Delete] does not empty the trie: the
    root becomes the empty-folder placeholder of the parent directory, which
    [File] and [Stat] then report as a directory.  A trie into which only
    [/folder/f1] was inserted is such a one-node trie. *)
Theorem Delete_keeps_parent_folder (root : Entry) (path : string)
  (Hsole : negb (isEntryType (EContent root)) || IsEmptyFolder root = true)
  (Hpath : 0 < String.length path)
  (Hclean : CleanPath path = Path root)
  (Hparent : (0 < LastIndex (Path root) Separator)%Z) :
  let parent := take (Z.to_nat (LastIndex (Path root) Separator)) (Path root) in
  let placeholder :=
    NewEntry parent "" 0 MIMEDriveEntry (CreatedAt (EContent root)) in
  (forall k t, AddFile (S k) t NewTrie (Some f1File) = Ret (Some f1File, [], None)) /\
  Delete (Some root) path = (Some placeholder, None) /\
  IsEmptyFolder placeholder = true /\
  (forall q, 0 < String.length q -> CleanPath q = parent ->
     exists c, File (Some placeholder) q = (Some placeholder, Some c, None) /\
               Type_ c = MIMEDriveDirectory) /\
  (forall q, 0 < String.length q -> q <> Separator -> CleanPath q = parent ->
     exists c, Stat (Some placeholder) q = Ret (Some c, None) /\
               Type_ c = MIMEDriveDirectory /\ Name c = Base q).
Proof.
  intros parent placeholder. split.
  - intros k t. vm_compute. reflexivity.
  - exact (Delete_sole_node root path Hsole Hpath Hclean Hparent).
Qed.

Lemma Delete_keeps_parent_folder_witness :
  let placeholder := NewEntry "/folder" "" 0 MIMEDriveEntry 1700000000 in
  (forall k t, AddFile (S k) t NewTrie (Some f1File) = Ret (Some f1File, [], None)) /\
  Delete (Some f1File) "/folder/f1" = (Some placeholder, None) /\
  IsEmptyFolder placeholder = true /\
  (forall q, 0 < String.length q -> CleanPath q = "/folder" ->
     exists c, File (Some placeholder) q = (Some placeholder, Some c, None) /\
               Type_ c = MIMEDriveDirectory) /\
  (forall q, 0 < String.length q -> q <> Separator -> CleanPath q = "/folder" ->
     exists c, Stat (Some placeholder) q = Ret (Some c, None) /\
               Type_ c = MIMEDriveDirectory /\ Name c = Base q).
Proof.
  apply (Delete_keeps_parent_folder f1File "/folder/f1").
  - reflexivity.
  - simpl. lia.
  - reflexivity.
  - vm_compute. reflexivity.
Defined.


(* ================================================================== *)
(** ** [Delete] and the paths it does not name *)
(* ================================================================== *)

Section DeleteFrame.




Lemma HasPrefix_sep_cons (c : ascii) (r : string) :
  HasPrefix (String c r) Separator = Ascii.eqb c SeparatorRune.
Proof. cbn [HasPrefix Separator]. rewrite HasPrefix_nil. apply andb_true_r. Qed.

Lemma LastIndex_split (s : string) :
  let i := LastIndex s Separator in
  if (0 <=? i)%Z
  then s = take (Z.to_nat i) s ++ Separator ++ drop (Z.to_nat i + 1) s /\
       noSlash (drop (Z.to_nat i + 1) s) = true
  else noSlash s = true.
Proof.
  induction s as [|c r IH]; [reflexivity|].
  cbv zeta in IH |- *. cbn [LastIndex].
  destruct (Z.leb_spec 0 (LastIndex r Separator)) as [L|L].
  - destruct IH as [E N].
    destruct (Z.leb_spec 0 (LastIndex r Separator + 1)) as [_|L']; [|lia].
    replace (Z.to_nat (LastIndex r Separator + 1))
      with (S (Z.to_nat (LastIndex r Separator))) by lia.
    cbn [take drop Nat.add append]. split; [f_equal; exact E|exact N].
  - rewrite HasPrefix_sep_cons.
    destruct (Ascii.eqb_spec c SeparatorRune) as [->|Nc].
    + cbn. split; [reflexivity|exact IH].
    + cbn [Z.leb]. cbn. apply Ascii.eqb_neq in Nc. rewrite Nc. exact IH.
Qed.

Lemma noSlash_byteAt (s : string) (k : nat) :
  noSlash s = true -> byte_is (byteAt k s) SeparatorRune = false.
Proof.
  revert k; induction s as [|c r IH]; intros k H; [destruct k; reflexivity|].
  cbn [noSlash] in H. apply andb_true_iff in H as [H1 H2].
  destruct k; cbn [byteAt byte_is]; [now apply negb_true_iff|auto].
Qed.


Lemma TrimPrefix_nil_inv (s p : string) : TrimPrefix s p = "" -> s = p \/ s = "".
Proof.
  unfold TrimPrefix. destruct (HasPrefix s p) eqn:H; [|auto].
  intros E. left. apply HasPrefix_split in H. rewrite E, append_nil_r in H. exact H.
Qed.

Lemma atEnd_iff (s p : string) :
  HasPrefix s p = true ->
  Nat.eqb (String.length (TrimPrefix s p)) 0 = String.eqb s p.
Proof.
  intros H. destruct (String.eqb_spec s p) as [->|N].
  - rewrite TrimPrefix_refl. reflexivity.
  - apply Nat.eqb_neq. intros E. apply length_zero in E.
    apply N. unfold TrimPrefix in E. rewrite H in E.
    apply HasPrefix_split in H. rewrite E, append_nil_r in H. exact H.
Qed.

Lemma byteAt_drop (n : nat) (s : string) : byteAt n s = byteAt 0 (drop n s).
Proof.
  revert s; induction n as [|n IH]; intros [|c s]; cbn [drop byteAt]; auto.
Qed.

Lemma firstByte_drop (s q : string) :
  HasPrefix s q = true -> s <> q ->
  forall (k : ascii -> outcome (option Content)),
    (c <- firstByte (TrimPrefix s q) ;; k c)
    = match byteAt (String.length q) s with
      | Some c => k c
      | None => Panic
      end /\ byteAt (String.length q) s <> None.
Proof.
  intros H N k. unfold TrimPrefix. rewrite H.
  assert (E := HasPrefix_split _ _ H).
  destruct (drop (String.length q) s) as [|c r] eqn:D.
  { rewrite append_nil_r in E. contradiction. }
  rewrite byteAt_drop, D. cbn. split; [reflexivity|discriminate].
Qed.

(** [stat] on a trie that is a single file leaf. *)
Lemma stat_leaf (leaf : Entry) (q : string) :
  Entries leaf = [] -> isEntryType (EContent leaf) = false ->
  stat q leaf
  = Ret (if String.eqb q (Path leaf) then Some (EContent leaf)
         else if dirAbove (Path leaf) q
              then Some (dirContent "" (CreatedAt (EContent leaf)))
              else None).
Proof.
  intros He Ht. rewrite stat_unfold. cbv zeta. rewrite He, Ht. cbn [negb].
  rewrite !andb_true_r. unfold dirAbove.
  destruct (HasPrefix q (Path leaf)) eqn:A.
  - rewrite (atEnd_iff _ _ A).
    destruct (String.eqb_spec q (Path leaf)) as [E|N]; [reflexivity|].
    cbn [andb statEach].
    destruct (HasPrefix (Path leaf) q) eqn:B; [|reflexivity].
    exfalso. apply N. now apply HasPrefix_antisym.
  - destruct (String.eqb_spec q (Path leaf)) as [E|N].
    { rewrite E, HasPrefix_refl in A. discriminate. }
    destruct (HasPrefix (Path leaf) q) eqn:B; [|reflexivity].
    assert (N' : Path leaf <> q) by congruence.
    assert (Z' : Nat.eqb (String.length (TrimPrefix (Path leaf) q)) 0 = false).
    { rewrite (atEnd_iff _ _ B). now apply String.eqb_neq. }
    rewrite Z'. cbn [andb].
    destruct (firstByte_drop _ _ B N'
                (fun c => if Ascii.eqb c SeparatorRune
                          then Ret (Some (dirContent "" (CreatedAt (EContent leaf))))
                          else Ret None)) as [-> Hb].
    destruct (byteAt (String.length q) (Path leaf)) as [c|]; [|congruence].
    cbn [byte_is]. destruct (Ascii.eqb c SeparatorRune); reflexivity.
Qed.




End DeleteFrame.


Section SingleLeaf.

Lemma find_leaf (leaf : Entry) (q : string) :
  Entries leaf = [] -> q <> "" -> q <> Path leaf -> find q leaf = (leaf, None).
Proof.
  intros He Nq Np. rewrite find_unfold. cbv zeta. rewrite He.
  assert (A : Nat.eqb (String.length (TrimPrefix q (Path leaf))) 0 = false).
  { apply Nat.eqb_neq. intros E. apply length_zero, TrimPrefix_nil_inv in E.
    tauto. }
  rewrite A. cbn [andb findEach]. rewrite <- He, Entry_eta. reflexivity.
Qed.



Lemma CleanPath_nonempty (q : string) : 0 < String.length q -> CleanPath q <> "".
Proof.
  intros H E. destruct (CleanPath_shape q H) as (_ & P & _).
  rewrite E in P. discriminate.
Qed.

End SingleLeaf.





(* ================================================================== *)
(** ** Who else holds the root *)
(* ================================================================== *)

(** C10 at its failing input: the entry that is inserted first becomes
    the root itself, so writing to it afterwards changes what [File]
    returns; an entry inserted later is copied, and writing to it changes
    nothing. *)
Theorem first_entry_is_shared :
  (let w := Shared.allocate 0 readme Shared.empty in
   let w := worldAfter (Shared.AddFile 1 0 w 0) in
   cidOf (Shared.File w "/docs/readme") = Some "cid1" /\
   cidOf (Shared.File (Shared.mutate 0 corrupt w) "/docs/readme") = None /\
   cidOf (Shared.File (Shared.mutate 0 corrupt w) "/totally/different")
   = Some "corrupted") /\
  (let w := Shared.allocate 0 docsFolder Shared.empty in
   let w := worldAfter (Shared.AddFile 1 0 w 0) in
   let w := Shared.allocate 1 readme w in
   let w := worldAfter (Shared.AddFile 1 0 w 1) in
   cidOf (Shared.File w "/docs/readme") = Some "cid1" /\
   cidOf (Shared.File (Shared.mutate 1 corrupt w) "/docs/readme") = Some "cid1").
Proof. vm_compute. repeat split. Qed.

(** The pointer model and the value model of [AddFile] agree on the
    trie, whoever else holds the root. *)
Lemma Shared_AddFile_trie (fuel : nat) (now : Z) (w : Shared.World) (l : Shared.addr)
      (m : Entry) :
  Shared.cell w l = Some m ->
  Shared.rootAt w <> Some l ->
  (Shared.rootAt w <> None -> Shared.trieOf w <> None) ->
  match Shared.AddFile fuel now w l, AddFile fuel now (Shared.trieOf w) (Some m) with
  | Ret (w', created, err), Ret (mt', created', err') =>
      Shared.trieOf w' = mt' /\ created = created' /\ err = err'
  | Panic, Panic => True
  | OutOfFuel, OutOfFuel => True
  | _, _ => False
  end.
Proof.
  intros Hm Hr Hd. unfold Shared.AddFile, AddFile, Shared.trieOf in *. rewrite Hm.
  destruct (prepared m) as [m' [e|]]; [auto|].
  destruct (Shared.rootAt w) as [r|] eqn:R.
  - unfold Shared.store at 1.
    destruct (Nat.eqb_spec r l) as [->|N]; [congruence|].
    destruct (Shared.cell w r) as [root|]; [|exfalso; apply Hd; congruence].
    destruct (addTo now root (copy m')) as [[[root' cr] err]| |]; cbn; auto.
    unfold Shared.store. rewrite Nat.eqb_refl. auto.
  - destruct (lsRecursive fuel (Some m') "/"); cbn; auto.
    unfold Shared.store. rewrite Nat.eqb_refl. auto.
Qed.

(* ================================================================== *)
(** ** The first insertion and the root directory *)
(* ================================================================== *)

(** C2 at its failing input: [AddFile] accepts the directory marker [/]
    without an error, and [Stat("/")] then returns [ErrFileNotExist]. *)
Theorem root_folder_not_retrievable :
  forall fuel now,
    AddFile (S fuel) now NewTrie (Some rootFolder) = Ret (Some rootFolder, [], None) /\
    Stat (Some rootFolder) "/" = Ret (None, Some ErrFileNotExist).
Proof. intros fuel now. split; reflexivity. Qed.


Lemma prepared_nonempty (path cid : string) (size : Z) (t : string) (createdAt : Z)
      (m : Entry) :
  prepared (NewEntry path cid size t createdAt) = (m, None) -> CleanPath path <> "".
Proof.
  unfold prepared, Validate, NewEntry, NewContent.
  destruct (String.eqb t MIMEDriveEntry) eqn:T.
  - cbn [EType EContent Type_ Name Path Entries IsEmptyFolder].
    change (String.eqb MIMEDriveEntry MIMEDriveDirectory) with false. cbv iota.
    change (String.eqb "" ".") with false. cbn [andb].
    destruct (Contains path SpecialPathSymbol); [discriminate|].
    unfold IsEmptyFolder, EType. cbn [EContent Type_ Entries Path].
    change (String.eqb MIMEDriveEntry MIMEDriveEntry) with true.
    change (String.eqb SpecialPathSymbol SpecialPathSymbol) with true. cbn [andb].
    destruct (Nat.eqb_spec (String.length (CleanPath path)) 0) as [E|E];
      [discriminate|].
    intros _ E'. rewrite E' in E. apply E. reflexivity.
  - unfold EType. cbn [EContent Type_ Name Path].
    destruct (String.eqb t MIMEDriveDirectory); [discriminate|].
    destruct path as [|c r]; [|intros _; apply CleanPath_nonempty; simpl; lia].
    change (Base "") with ".". discriminate.
Qed.

(** Whatever [NewEntry] builds, [AddFile] on the empty trie returns the
    empty list: [lsRecursive("/")] lists nothing of a root whose path
    goes on below "/". *)
Lemma empty_trie_lists_nothing (fuel : nat) (now : Z)
      (path cid : string) (size : Z) (t : string) (createdAt : Z)
      (mt' : Trie) (created : list Entry) :
  AddFile (S fuel) now NewTrie (Some (NewEntry path cid size t createdAt))
  = Ret (mt', created, None) ->
  created = [] /\
  exists m, mt' = Some m /\ prepared (NewEntry path cid size t createdAt) = (m, None).
Proof.
  unfold AddFile, NewTrie.
  destruct (prepared _) as [m [e|]] eqn:P; [discriminate|].
  pose proof (prepared_nonempty _ _ _ _ _ _ P) as Ne.
  pose proof (prepared_ok _ _ P) as (Pm & Em & _).
  destruct (NewEntry_shape path cid size t createdAt) as [Np Es]. cbv zeta in Np, Es.
  rewrite Np in Pm. rewrite <- Em in Es.
  assert (L : list_ (CleanPath "/") m = []).
  { change (CleanPath "/") with "/".
    destruct m as [mc mp mes mm]. cbn [Path Entries] in *. subst mp.
    assert (Hl : 0 < String.length path).
    { destruct path; [exfalso; apply Ne; reflexivity|simpl; lia]. }
    destruct (CleanPath_shape path Hl) as (_ & Hs & Hd & _).
    rewrite Contains_double in Hd. rewrite HasPrefix_sep in Hs.
    cbn [list_].
    destruct (CleanPath path) as [|c r]; [contradiction|].
    cbn [byteAt byte_is] in Hs. apply Ascii.eqb_eq in Hs. subst c.
    cbn [doubled] in Hd. apply orb_false_iff in Hd as [Hd _].
    change (Ascii.eqb SeparatorRune SeparatorRune) with true in Hd. cbn [andb] in Hd.
    destruct r as [|d r].
    - change (HasPrefix "/" "/" && negb (String.eqb "/" "/")) with false. cbv iota.
      change (HasPrefix "/" "/") with true. cbv iota.
      change (TrimPrefix "/" "/") with "".
      destruct Es as [->|[c ->]]; reflexivity.
    - assert (E1 : HasPrefix (String SeparatorRune (String d r)) "/"
                   && negb (String.eqb (String SeparatorRune (String d r)) "/") = true).
      { cbn. destruct d as [[] [] [] [] [] [] [] []]; reflexivity. }
      rewrite E1.
      change (TrimPrefix (String SeparatorRune (String d r)) "/") with (String d r).
      cbn [byteAt] in Hd |- *. rewrite Hd. reflexivity. }
  unfold lsRecursive. cbn [listRecursive]. rewrite L. cbn [listEach bind sortByPath fold_right].
  intros [= <- <-]. split; [reflexivity|]. eauto.
Qed.

(** C1 at its failing input, and around it.  Whatever entry [NewEntry]
    builds, a successful [AddFile] on the empty trie makes it the root and
    returns the empty list, not the entries along its path.  For [/a/b/c]
    the three entries [/a], [/a/b], [/a/b/c] are therefore not returned; a
    second file, [/a/x/y], does return what it materialised. *)
Theorem AddFile_first_lists_nothing (fuel : nat) (now : Z)
      (path cid : string) (size : Z) (t : string) (createdAt : Z)
      (mt' : Trie) (created : list Entry)
  (H : AddFile (S fuel) now NewTrie (Some (NewEntry path cid size t createdAt))
       = Ret (mt', created, None)) :
  created = [] /\
  (exists m, mt' = Some m /\ prepared (NewEntry path cid size t createdAt) = (m, None)) /\
  (exists mt,
      AddFile (S fuel) now (Some abcFile)
              (Some (NewEntry "/a/x/y" "cid" 64 MIMEOctetStream 1700000000))
      = Ret (mt,
             [mkEntry (dirContent "x" 1700000000) "/a/x" [] None;
              mkEntry (NewContent "y" "cid" 64 MIMEOctetStream 1700000000)
                      "/a/x/y" [] None],
             None)).
Proof.
  destruct (empty_trie_lists_nothing _ _ _ _ _ _ _ _ _ H) as [A B].
  split; [exact A|]. split; [exact B|]. eexists. reflexivity.
Qed.

Lemma AddFile_first_lists_nothing_witness :
  AddFile 1 0 NewTrie (Some abcFile) = Ret (Some abcFile, [], None) /\
  (@nil Entry = [] /\
   (exists m, Some abcFile = Some m /\
              prepared (NewEntry "/a/b/c" "cid" 64 MIMEOctetStream 1700000000)
              = (m, None)) /\
   (exists mt,
       AddFile 1 0 (Some abcFile)
               (Some (NewEntry "/a/x/y" "cid" 64 MIMEOctetStream 1700000000))
       = Ret (mt,
              [mkEntry (dirContent "x" 1700000000) "/a/x" [] None;
               mkEntry (NewContent "y" "cid" 64 MIMEOctetStream 1700000000)
                       "/a/x/y" [] None],
              None))).
Proof.
  split; [reflexivity|].
  apply (AddFile_first_lists_nothing 0 0 "/a/b/c" "cid" 64 MIMEOctetStream 1700000000
           (Some abcFile) []).
  reflexivity.
Defined.

(** Two siblings whose names begin with bytes of the same rune: both
    are retrievable, and the branch above them ends before the rune. *)
Lemma emoji_siblings_retrievable :
  let mt := thenAdd (thenAdd NewTrie smileyFile) grinFile in
  option_map Path mt = Some "/folder/" /\
  option_map CID (snd (fst (File mt (Path smileyFile)))) = Some "cid1" /\
  option_map CID (snd (fst (File mt (Path grinFile)))) = Some "cid2".
Proof. vm_compute. repeat split. Qed.


(* ================================================================== *)
(** ** Cleaned paths are fixed points *)
(* ================================================================== *)

Section CleanFixed.

Lemma collapse_fixed (n : nat) (s : string) :
  doubled s = false -> collapse n s = s.
Proof.
  intros D. destruct n as [|n]; [reflexivity|].
  cbn [collapse]. rewrite Contains_double, D. reflexivity.
Qed.

Lemma lastOf_single (s : string) :
  String.length s <= 1 -> byte_is (lastOf s) SeparatorRune = true -> s = Separator.
Proof.
  destruct s as [|c [|d s]]; simpl; try discriminate; try lia.
  intros _ E. apply Ascii.eqb_eq in E. subst. reflexivity.
Qed.

(** A path in normal form is what [CleanPath] returns for it. *)
Lemma CleanPath_fixed (s : string) :
  HasPrefix s Separator = true ->
  Contains s DoubleSeparator = false ->
  (byte_is (lastByte s) SeparatorRune = true -> s = Separator) ->
  CleanPath s = s.
Proof.
  rewrite HasPrefix_sep, Contains_double. unfold lastByte. rewrite byteAt_last.
  intros Hs Hd Hl. unfold CleanPath.
  destruct (Nat.eqb (String.length s) 0); [reflexivity|].
  rewrite (collapse_fixed _ _ Hd), Hs. rewrite byteAt_last.
  destruct (Nat.ltb_spec 1 (String.length s)) as [L|L]; [|reflexivity].
  destruct (byte_is (lastOf s) SeparatorRune) eqn:E; [|reflexivity].
  rewrite (Hl eq_refl) in L. simpl in L. lia.
Qed.

Lemma doubled_append (a b : string) :
  doubled a = false -> doubled b = false ->
  byte_is (lastOf a) SeparatorRune && byte_is (byteAt 0 b) SeparatorRune = false ->
  doubled (a ++ b) = false.
Proof.
  induction a as [|c a IH]; intros Da Db J; [exact Db|].
  cbn [append doubled] in *. apply orb_false_iff in Da as [D1 D2].
  destruct a as [|d a].
  - cbn [append] in *. rewrite Db, orb_false_r. cbn [lastOf byte_is] in J. exact J.
  - rewrite IH; auto. rewrite orb_false_r. exact D1.
Qed.

Lemma lastOf_append (a b : string) :
  b <> "" -> lastOf (a ++ b) = lastOf b.
Proof.
  intros Hb. induction a as [|c a IH]; [reflexivity|].
  cbn [append]. destruct (a ++ b) eqn:E.
  - destruct a, b; simpl in E; try discriminate. contradiction.
  - cbn [lastOf]. exact IH.
Qed.

Lemma noSlash_doubled (s : string) : noSlash s = true -> doubled s = false.
Proof.
  induction s as [|c s IH]; [reflexivity|].
  cbn [noSlash doubled]. intros H. apply andb_true_iff in H as [H1 H2].
  apply negb_true_iff in H1. rewrite H1, (IH H2). reflexivity.
Qed.

Lemma noSlash_first (s : string) :
  noSlash s = true -> byte_is (byteAt 0 s) SeparatorRune = false.
Proof.
  destruct s as [|c s]; [reflexivity|].
  cbn [noSlash byteAt byte_is]. intros H. apply andb_true_iff in H as [H1 _].
  now apply negb_true_iff in H1.
Qed.

Lemma noSlash_last (s : string) :
  noSlash s = true -> byte_is (lastOf s) SeparatorRune = false.
Proof.
  induction s as [|c s IH]; [reflexivity|].
  cbn [noSlash]. intros H. apply andb_true_iff in H as [H1 H2].
  destruct s as [|d s]; [cbn; now apply negb_true_iff in H1|].
  exact (IH H2).
Qed.

Lemma byteAt0_append (a b : string) :
  a <> "" -> byteAt 0 (a ++ b) = byteAt 0 a.
Proof. destruct a; [contradiction|reflexivity]. Qed.

End CleanFixed.


(** [CleanPath] is idempotent: cleaning a cleaned path changes
    nothing. *)
Theorem CleanPath_idempotent (p : string) :
  CleanPath (CleanPath p) = CleanPath p.
Proof.
  destruct p as [|c p]; [reflexivity|].
  destruct (CleanPath_shape (String c p)) as (_ & Hs & Hd & Hl); [simpl; lia|].
  apply CleanPath_fixed; assumption.
Qed.

Section JoinFacts.

Lemma ReplaceAll_noSlash (s : string) :
  noSlash s = true -> ReplaceAll s DoubleSeparator Separator = s.
Proof.
  induction s as [|c s IH]; [reflexivity|].
  cbn [noSlash]. intros H. apply andb_true_iff in H as [H1 H2].
  rewrite ReplaceAll_double, HasPrefix_double.
  apply negb_true_iff in H1. rewrite H1. cbn [andb]. rewrite (IH H2). reflexivity.
Qed.

Lemma collapse_step (n : nat) (s : string) :
  collapse (S n) s
  = if Contains s DoubleSeparator
    then collapse n (ReplaceAll s DoubleSeparator Separator) else s.
Proof. reflexivity. Qed.

Lemma initOf_snoc (d : string) : initOf (d ++ Separator) = d.
Proof.
  induction d as [|c d IH]; [reflexivity|].
  cbn [append]. destruct (d ++ Separator) eqn:E.
  - destruct d; discriminate.
  - change (initOf (String c (String a s))) with (String c (initOf (String a s))).
    rewrite IH. reflexivity.
Qed.

Lemma length_append_sep (d : string) :
  String.length (d ++ Separator) = S (String.length d).
Proof. induction d as [|c d IH]; [reflexivity|]. cbn. now rewrite IH. Qed.

Lemma lastOf_not_sep (d : string) :
  (byte_is (lastByte d) SeparatorRune = true -> d = Separator) ->
  d <> Separator -> byte_is (lastOf d) SeparatorRune = false.
Proof.
  unfold lastByte. rewrite byteAt_last. intros Hl Hd.
  destruct (byte_is (lastOf d) SeparatorRune); [|reflexivity].
  exfalso. auto.
Qed.

(** Joining a directory in normal form and a name. *)
Lemma JoinPath_normal (d name : string) :
  HasPrefix d Separator = true ->
  Contains d DoubleSeparator = false ->
  (byte_is (lastByte d) SeparatorRune = true -> d = Separator) ->
  noSlash name = true ->
  JoinPath [d; name]
  = if String.eqb name "" then d
    else if String.eqb d Separator then Separator ++ name
    else d ++ Separator ++ name.
Proof.
  intros Hs Hd Hl Hn. unfold JoinPath. cbn [Join].
  assert (Hne : d <> "") by (intros ->; discriminate).
  destruct (String.eqb_spec name "") as [->|Nn].
  - destruct (String.eqb_spec d Separator) as [->|Nd]; [reflexivity|].
    pose proof (lastOf_not_sep d Hl Nd) as L.
    rewrite HasPrefix_sep in Hs. rewrite Contains_double in Hd.
    assert (D : doubled (d ++ Separator) = false).
    { apply doubled_append; auto. rewrite L. reflexivity. }
    change (d ++ Separator ++ "") with (d ++ Separator).
    unfold CleanPath.
    destruct (Nat.eqb_spec (String.length (d ++ Separator)) 0) as [E|_];
      [rewrite length_append_sep in E; lia|].
    rewrite (collapse_fixed _ _ D), byteAt0_append, Hs by exact Hne.
    rewrite byteAt_last, take_init, initOf_snoc, length_append_sep.
    rewrite lastOf_append by discriminate.
    destruct d as [|c [|c' d]]; [contradiction| |reflexivity].
    cbn in Hs. apply Ascii.eqb_eq in Hs. subst. contradiction.
  - assert (Fn : byte_is (byteAt 0 name) SeparatorRune = false)
      by now apply noSlash_first.
    assert (Ln : byte_is (lastOf name) SeparatorRune = false)
      by now apply noSlash_last.
    destruct (String.eqb_spec d Separator) as [->|Nd].
    + assert (D : doubled (String SeparatorRune name) = false).
      { cbn [doubled]. rewrite Fn, (noSlash_doubled _ Hn). reflexivity. }
      assert (C : collapse (String.length (Separator ++ Separator ++ name))
                           (Separator ++ Separator ++ name)
                  = String SeparatorRune name).
      { change (Separator ++ Separator ++ name)
          with (String SeparatorRune (String SeparatorRune name)).
        change (String.length (String SeparatorRune (String SeparatorRune name)))
          with (S (S (String.length name))).
        rewrite collapse_step, Contains_double.
        change (doubled (String SeparatorRune (String SeparatorRune name)))
          with (true || doubled (String SeparatorRune name)).
        cbn [orb]. rewrite ReplaceAll_double, HasPrefix_double.
        change (Ascii.eqb SeparatorRune SeparatorRune
                && byte_is (byteAt 0 (String SeparatorRune name)) SeparatorRune)
          with true. cbv iota. cbn [drop].
        rewrite (ReplaceAll_noSlash _ Hn). apply collapse_fixed, D. }
      unfold CleanPath. rewrite C.
      change (Nat.eqb (String.length (Separator ++ Separator ++ name)) 0) with false.
      cbv iota. change (byte_is (byteAt 0 (String SeparatorRune name)) SeparatorRune)
        with true. cbv iota.
      rewrite byteAt_last.
      change (String SeparatorRune name) with (Separator ++ name).
      rewrite lastOf_append by exact Nn. rewrite Ln, andb_false_r. reflexivity.
    + pose proof (lastOf_not_sep d Hl Nd) as L.
      apply CleanPath_fixed.
      * rewrite HasPrefix_sep, byteAt0_append by exact Hne.
        now rewrite <- HasPrefix_sep.
      * rewrite Contains_double in *. apply doubled_append; auto.
        -- change (Separator ++ name) with (String SeparatorRune name).
           cbn [doubled]. rewrite Fn, (noSlash_doubled _ Hn). reflexivity.
        -- rewrite L. reflexivity.
      * unfold lastByte. rewrite byteAt_last, lastOf_append.
        -- change (Separator ++ name) with (String SeparatorRune name).
           destruct name as [|c n]; [contradiction|].
           change (lastOf (String SeparatorRune (String c n)))
             with (lastOf (String c n)).
           rewrite Ln. discriminate.
        -- discriminate.
Qed.

End JoinFacts.

(** [JoinPath] of a cleaned directory path and a name without
    separators: the name is appended after one separator, none for the
    empty name and none more below the root. *)
Theorem JoinPath_child (p name : string)
  (Hp : 0 < String.length p) (Hn : noSlash name = true) :
  JoinPath [CleanPath p; name]
  = if String.eqb name "" then CleanPath p
    else if String.eqb (CleanPath p) Separator then Separator ++ name
    else CleanPath p ++ Separator ++ name.
Proof.
  destruct (CleanPath_shape p Hp) as (_ & Hs & Hd & Hl).
  apply JoinPath_normal; assumption.
Qed.

Lemma JoinPath_child_witness :
  JoinPath [CleanPath "docs//img/"; "logo.png"]
  = if String.eqb "logo.png" "" then CleanPath "docs//img/"
    else if String.eqb (CleanPath "docs//img/") Separator
         then Separator ++ "logo.png"
         else CleanPath "docs//img/" ++ Separator ++ "logo.png".
Proof.
  apply (JoinPath_child "docs//img/" "logo.png").
  - simpl. lia.
  - reflexivity.
Defined.


(* ================================================================== *)
(** ** What [Validate] accepts *)
(* ================================================================== *)

Section BaseFacts.

Lemma Contains_sep (s : string) : Contains s Separator = negb (noSlash s).
Proof.
  induction s as [|c s IH]; [reflexivity|].
  rewrite Contains_cons, IH, HasPrefix_sep_cons. cbn [noSlash].
  rewrite negb_andb, negb_involutive. reflexivity.
Qed.

Lemma onlySlashes_last (s : string) :
  onlySlashes s = true -> s <> "" -> byte_is (lastOf s) SeparatorRune = true.
Proof.
  induction s as [|c s IH]; [contradiction|].
  cbn [onlySlashes]. intros H _. apply andb_true_iff in H as [H1 H2].
  destruct s as [|d s]; [exact H1|].
  apply IH; [exact H2|discriminate].
Qed.

Lemma onlySlashes_init (s : string) :
  byte_is (lastOf s) SeparatorRune = true ->
  onlySlashes (initOf s) = onlySlashes s.
Proof.
  induction s as [|c s IH]; [reflexivity|].
  destruct s as [|d s].
  - cbn. intros ->. reflexivity.
  - intros L.
    change (initOf (String c (String d s))) with (String c (initOf (String d s))).
    cbn [onlySlashes] in *. rewrite (IH L). reflexivity.
Qed.

Lemma length_initOf (s : string) : String.length (initOf s) = String.length s - 1.
Proof. rewrite <- take_init, length_take. lia. Qed.

Lemma hasColon_initOf (s : string) : hasColon s = false -> hasColon (initOf s) = false.
Proof. rewrite <- take_init. apply hasColon_take. Qed.

(** The loop of [filepath.Base] ends on the empty string or on a byte
    that is no separator. *)
Lemma stripTrailing_spec (n : nat) :
  forall s, String.length s <= n ->
    let r := stripTrailing n s in
    byte_is (lastOf r) SeparatorRune = false /\
    (String.eqb r "" = onlySlashes s) /\
    (hasColon s = false -> hasColon r = false).
Proof.
  induction n as [|n IH]; intros s Hn; cbv zeta.
  - destruct s; [auto|simpl in Hn; lia].
  - cbn [stripTrailing]. unfold lastByte. rewrite byteAt_last, take_init.
    change (byte_is (lastOf s) "/") with (byte_is (lastOf s) SeparatorRune).
    destruct (byte_is (lastOf s) SeparatorRune) eqn:L.
    + destruct (IH (initOf s)) as (A & B & C).
      { rewrite length_initOf. lia. }
      cbv zeta in A, B, C. rewrite (onlySlashes_init _ L) in B.
      auto using hasColon_initOf.
    + repeat split; auto.
      destruct s as [|c s]; [reflexivity|].
      change (String.eqb (String c s) "") with false. symmetry.
      destruct (onlySlashes (String c s)) eqn:O; [|reflexivity].
      rewrite (onlySlashes_last _ O) in L; discriminate.
Qed.

Lemma append_last_sep (a : string) :
  byte_is (lastOf (a ++ Separator)) SeparatorRune = true.
Proof. rewrite lastOf_append by discriminate. reflexivity. Qed.

(** [filepath.Base]: the name has a separator only when the path is
    made of separators, and no ":" that the path does not have. *)
Lemma Base_spec (path : string) :
  path <> "" ->
  Contains (Base path) Separator = onlySlashes path /\
  (hasColon path = false -> hasColon (Base path) = false).
Proof.
  intros Hp. unfold Base.
  destruct (String.eqb_spec path "") as [E|_]; [contradiction|].
  destruct (stripTrailing_spec (String.length path) path (le_n _)) as (A & B & C).
  cbv zeta in A, B, C.
  set (p := stripTrailing (String.length path) path) in *.
  pose proof (LastIndex_split p) as S. cbv zeta in S.
  change (LastIndex p "/") with (LastIndex p Separator).
  destruct (Z.leb_spec 0 (LastIndex p Separator)) as [L|L].
  - destruct S as [E N].
    set (q := drop (Z.to_nat (LastIndex p Separator) + 1) p) in *.
    assert (Pn : String.eqb p "" = false).
    { destruct p; [cbn in L; lia|reflexivity]. }
    destruct (String.eqb_spec q "") as [Q|Q].
    + exfalso. rewrite Q in E. rewrite E in A.
      change (Separator ++ "") with Separator in A.
      rewrite append_last_sep in A. discriminate.
    + rewrite Contains_sep, N, <- B, Pn. split; [reflexivity|].
      intros H. apply hasColon_drop, C, H.
  - destruct (String.eqb_spec p "") as [Q|Q].
    + rewrite <- B. split; reflexivity.
    + rewrite Contains_sep, S, <- B. split; [reflexivity|exact C].
Qed.

End BaseFacts.

Section ValidateFacts.

Lemma Validate_NewEntry (path cid : string) (size : Z) (t : string) (createdAt : Z) :
  snd (Validate (NewEntry path cid size t createdAt)) = rejection path t.
Proof.
  unfold rejection, NewEntry, NewContent.
  destruct (String.eqb t MIMEDriveEntry) eqn:Te.
  - apply String.eqb_eq in Te. subst t.
    change (String.eqb MIMEDriveEntry MIMEDriveDirectory) with false. cbv iota.
    unfold Validate, EType, IsEmptyFolder, EType.
    cbn [EContent Type_ Name Path Entries].
    change (String.eqb MIMEDriveEntry MIMEDriveDirectory) with false.
    change (String.eqb "" ".") with false.
    change (String.eqb MIMEDriveEntry MIMEDriveEntry) with true.
    change (String.eqb SpecialPathSymbol SpecialPathSymbol) with true.
    cbn [andb negb]. rewrite Contains_colon.
    destruct (String.eqb_spec path "") as [->|Np]; [reflexivity|].
    destruct (hasColon path); [reflexivity|].
    destruct (Nat.eqb_spec (String.length (CleanPath path)) 0) as [E|_].
    + exfalso. apply length_zero in E. revert E. apply CleanPath_nonempty.
      destruct path; [contradiction|simpl; lia].
    + reflexivity.
  - unfold Validate, EType. cbn [EContent Type_ Name Path].
    destruct (String.eqb t MIMEDriveDirectory) eqn:Td.
    + reflexivity.
    + cbn [Type_ Name].
      destruct (String.eqb_spec path "") as [->|Np]; [reflexivity|].
      assert (L : Nat.eqb (String.length path) 0 = false).
      { destruct path; [contradiction|reflexivity]. }
      rewrite L, andb_false_r, Contains_colon.
      destruct (hasColon path) eqn:C; [reflexivity|].
      unfold IsEmptyFolder, EType. cbn [EContent Type_ Entries]. rewrite Te.
      cbn [andb negb]. unfold ContentValidate. cbn [Name Type_].
      destruct (Base_spec path Np) as [B1 B2].
      rewrite B1, Contains_colon, (B2 C), orb_false_r.
      destruct (onlySlashes path); [reflexivity|].
      destruct (Nat.eqb (String.length t) 0); reflexivity.
Qed.

Lemma prepared_error (m : Entry) : snd (prepared m) = snd (Validate m).
Proof. unfold prepared. destruct (Validate m) as [m' [e|]]; reflexivity. Qed.

End ValidateFacts.

Section ConflictOnly.

Lemma extend_conflict (subtrie what s : Entry) (e : error) :
  extend subtrie what = Ret (s, Some e) -> e = ErrConflict.
Proof.
  unfold extend. destruct (negb (isEntryType (EContent subtrie))); [congruence|].
  intros H. apply bind_Ret in H as (conflict & _ & H).
  destruct conflict; congruence.
Qed.

Lemma addOverSentinel_conflict (what : Entry) (es es' : list Entry) (e : error) :
  addOverSentinel what es = Some (es', Some e) -> e = ErrConflict.
Proof.
  revert es'; induction es as [|me tl IH]; intros es'; cbn [addOverSentinel];
    [discriminate|].
  destruct (String.eqb (Path me) SpecialPathSymbol).
  - destruct (negb (isEntryType (EContent me))); congruence.
  - destruct (addOverSentinel what tl) as [[tl' err]|]; [|discriminate].
    intros [= <- ->]. eapply IH. reflexivity.
Qed.

Lemma add_conflict (subtrie what s : Entry) (e : error) :
  add subtrie what = Ret (s, Some e) -> e = ErrConflict.
Proof.
  unfold add. destruct (negb (isEntryType (EContent subtrie))); [congruence|].
  intros H. apply bind_Ret in H as (c & _ & H).
  destruct (Ascii.eqb c SeparatorRune); [|congruence].
  destruct (IsEmptyFolder subtrie); [congruence|].
  destruct (addOverSentinel what (Entries subtrie)) as [[es err]|] eqn:E; [|congruence].
  injection H as <- ->. eapply addOverSentinel_conflict; eauto.
Qed.

Lemma addToEach_conflict (rec : Entry -> outcome (Entry * list Entry * option error))
      (rune : N) (es : list Entry) :
  Forall (fun me => forall s cr e, rec me = Ret (s, cr, Some e) -> e = ErrConflict) es ->
  forall o es' cr e,
    addToEach rec rune es = Some o -> o = Ret (es', cr, Some e) -> e = ErrConflict.
Proof.
  induction 1 as [|me tl Hme _ IH]; intros o es' cr e; cbn [addToEach];
    [discriminate|].
  destruct (negb (N.eqb (runeOf (Path me)) rune)).
  - destruct (addToEach rec rune tl) as [o'|]; [|discriminate].
    intros [= <-] H. apply bind_Ret in H as ([[tl' cr'] err'] & Ho & H).
    injection H as <- <- ->. eapply IH; eauto.
  - intros [= <-] H. apply bind_Ret in H as ([[me' cr'] err'] & Ho & H).
    injection H as <- <- ->. eapply Hme; eauto.
Qed.

(** The one error of [addTo] is [ErrConflict]. *)
Lemma addTo_conflict (now : Z) (subtrie : Entry) :
  forall what s cr e, addTo now subtrie what = Ret (s, cr, Some e) -> e = ErrConflict.
Proof.
  induction subtrie as [c p es m IH] using Entry_induction.
  intros what s cr e. rewrite addTo_unfold. cbv zeta.
  cbn [Path Entries EContent EMeta].
  destruct (HasPrefix p (Path what)).
  { destruct (Nat.eqb (String.length (TrimPrefix p (Path what))) 0).
    - intros H. apply bind_Ret in H as ([s' err] & He & H).
      injection H as <- <- ->. eapply extend_conflict; eauto.
    - destruct (byte_is _ _); congruence. }
  destruct (HasPrefix (Path what) p).
  { destruct es as [|e0 es].
    - destruct (_ || _); [|congruence].
      destruct (isEntryType c); [|congruence].
      destruct (Nat.eqb _ 0); congruence.
    - destruct (addToEach _ _ _) as [o|] eqn:E.
      + intros H. apply bind_Ret in H as ([[es' cr'] err'] & Ho & H).
        injection H as <- <- ->.
        eapply addToEach_conflict; [|exact E|exact Ho].
        eapply Forall_impl; [|exact IH]. intros me Hme s2 cr2 e2. apply Hme.
      + intros H. apply bind_Ret in H as ([s' err] & Ha & H).
        injection H as <- <- ->. eapply add_conflict; eauto. }
  intros H. apply bind_Ret in H as (ch & _ & H). congruence.
Qed.

End ConflictOnly.

(** The errors of [AddFile] for the entries that [NewEntry] builds:
    the validation error is read off the path and the content type by
    [rejection], and is returned with the trie untouched, whatever the
    trie; an entry that passes validation can only fail with
    [ErrConflict]. *)
Theorem AddFile_validation (fuel : nat) (now : Z) (mt : Trie)
      (path cid : string) (size : Z) (t : string) (createdAt : Z) :
  snd (prepared (NewEntry path cid size t createdAt)) = rejection path t /\
  match rejection path t with
  | Some e =>
      AddFile fuel now mt (Some (NewEntry path cid size t createdAt))
      = Ret (mt, [], Some e)
  | None =>
      forall mt' created e,
        AddFile fuel now mt (Some (NewEntry path cid size t createdAt))
        = Ret (mt', created, Some e) -> e = ErrConflict
  end.
Proof.
  pose proof (Validate_NewEntry path cid size t createdAt) as V.
  rewrite <- prepared_error in V. split; [exact V|].
  rewrite <- V. unfold AddFile.
  destruct (prepared _) as [m [e|]]; cbn [snd]; [reflexivity|].
  intros mt' created e. destruct mt as [root|].
  - intros H. apply bind_Ret in H as ([[root' cr] err] & Ha & H).
    injection H as <- <- ->. eapply addTo_conflict; eauto.
  - intros H. apply bind_Ret in H as (cr & _ & H). discriminate.
Qed.


(* ================================================================== *)
(** ** The first entry of a trie *)
(* ================================================================== *)

Section FirstEntry.

Lemma prepared_value (e m : Entry) :
  prepared e = (m, None) ->
  m = setPath (CleanPath (Path e)) (setContent (fst (ContentValidate (EContent e))) e).
Proof.
  unfold prepared, Validate.
  destruct (String.eqb (EType e) MIMEDriveDirectory); [discriminate|].
  destruct (_ && _); [discriminate|].
  destruct (Contains _ _); [discriminate|].
  destruct (_ && _); [discriminate|].
  destruct (ContentValidate (EContent e)) as [c [err|]]; [discriminate|].
  intros [= <-]. reflexivity.
Qed.

Lemma onlySlashes_sep : onlySlashes Separator = true.
Proof. reflexivity. Qed.

(** The root that a successful first [AddFile] installs. *)
Lemma first_root (fuel : nat) (now : Z) (path cid : string) (size : Z) (t : string)
      (createdAt : Z) (mt' : Trie) (created : list Entry) :
  AddFile fuel now NewTrie (Some (NewEntry path cid size t createdAt))
  = Ret (mt', created, None) ->
  path <> "" /\
  if String.eqb t MIMEDriveEntry
  then mt' = Some (NewEntry (CleanPath path) "" 0 MIMEDriveEntry createdAt)
  else
    onlySlashes path = false /\
    String.eqb t MIMEDriveDirectory = false /\
    mt' = Some (mkEntry (mkContent (Base path) cid
                                   (if String.eqb t "" then MIMEOctetStream else t)
                                   size 1 createdAt)
                        (CleanPath path) [] None).
Proof.
  intros H.
  pose proof (Validate_NewEntry path cid size t createdAt) as V.
  rewrite <- prepared_error in V.
  unfold AddFile, NewTrie in H.
  destruct (prepared _) as [m [e|]] eqn:P; [discriminate|].
  apply bind_Ret in H as (cr & _ & H). injection H as <- _.
  cbn [snd] in V. symmetry in V. unfold rejection in V.
  apply prepared_value in P. subst m.
  destruct (String.eqb t MIMEDriveDirectory) eqn:Td; [discriminate|].
  destruct (String.eqb_spec path "") as [|Np]; [discriminate|].
  split; [exact Np|].
  destruct (hasColon path) eqn:C; [discriminate|].
  destruct (String.eqb t MIMEDriveEntry) eqn:Te.
  - apply String.eqb_eq in Te. subst t. reflexivity.
  - cbn [negb andb] in V.
    destruct (onlySlashes path) eqn:O; [discriminate|].
    repeat split.
    unfold NewEntry, NewContent. rewrite Te, Td.
    cbn [EContent Path]. unfold ContentValidate. cbn [Name Type_].
    destruct (Base_spec path Np) as [B1 B2].
    rewrite B1, O, Contains_colon, (B2 C). cbn [orb].
    destruct t as [|c t]; reflexivity.
Qed.

End FirstEntry.

(** Insert, then look up.  The entry that a successful [AddFile] puts
    into the empty trie is found again under the path it was given: a file
    by [File] and by [Stat], with the content it was built from (an empty
    type reads [MIMEOctetStream]); a directory marker as a directory, by
    [File] and, unless the path is "/", by [Stat].  [File] leaves the trie
    as it is. *)
Theorem AddFile_then_File (fuel : nat) (now : Z) (path cid : string) (size : Z)
      (t : string) (createdAt : Z) (mt' : Trie) (created : list Entry)
  (H : AddFile fuel now NewTrie (Some (NewEntry path cid size t createdAt))
       = Ret (mt', created, None)) :
  if String.eqb t MIMEDriveEntry
  then
    (exists d, File mt' path = (mt', Some d, None) /\ Type_ d = MIMEDriveDirectory) /\
    (path <> Separator ->
     Stat mt' path = Ret (Some (setName (Base path) (dirContent "" createdAt)), None))
  else
    let c := mkContent (Base path) cid (if String.eqb t "" then MIMEOctetStream else t)
                       size 1 createdAt in
    File mt' path = (mt', Some c, None) /\
    Stat mt' path = Ret (Some c, None).
Proof.
  destruct (first_root _ _ _ _ _ _ _ _ _ H) as [Np R].
  assert (L : Nat.eqb (String.length path) 0 = false).
  { destruct path; [contradiction|reflexivity]. }
  destruct (String.eqb t MIMEDriveEntry) eqn:Te.
  - subst mt'. split.
    + unfold File. rewrite L, find_folder. cbn [deref].
      eexists. split; [reflexivity|].
      rewrite copyContent_id. apply updateFolderEntry_type.
    + intros Ns. unfold Stat. rewrite L.
      destruct (String.eqb_spec path Separator) as [|_]; [contradiction|].
      rewrite stat_folder. reflexivity.
  - destruct R as (O & Td & ->). cbv zeta.
    set (c := mkContent _ _ _ _ _ _).
    assert (Tc : isEntryType c = false).
    { unfold isEntryType, c. cbn [Type_].
      destruct (String.eqb_spec t "") as [->|_]; [reflexivity|exact Te]. }
    split.
    + unfold File. rewrite L, find_unfold. cbv zeta.
      cbn [Path EContent Entries EMeta]. rewrite TrimPrefix_refl, Tc. reflexivity.
    + unfold Stat. rewrite L.
      destruct (String.eqb_spec path Separator) as [E|_].
      { rewrite E in O. discriminate. }
      rewrite stat_leaf by (try reflexivity; exact Tc).
      cbn [Path]. rewrite String.eqb_refl. reflexivity.
Qed.

Lemma AddFile_then_File_witness :
  let c := mkContent "readme" "cid1" MIMEOctetStream 100 1 1700000000 in
  File (Some readme) "/docs/readme" = (Some readme, Some c, None) /\
  Stat (Some readme) "/docs/readme" = Ret (Some c, None).
Proof.
  apply (AddFile_then_File 1 0 "/docs/readme" "cid1" 100 MIMEOctetStream 1700000000
           (Some readme) []).
  reflexivity.
Defined.

(** Insert, then delete.  Deleting the entry that a successful
    [AddFile] put into the empty trie empties the trie again when the entry
    sits directly below the root; below a directory it leaves the
    empty-folder placeholder of that directory.  [Delete] reports no
    error. *)
Theorem AddFile_then_Delete (fuel : nat) (now : Z) (path cid : string) (size : Z)
      (t : string) (createdAt : Z) (mt' : Trie) (created : list Entry)
  (H : AddFile fuel now NewTrie (Some (NewEntry path cid size t createdAt))
       = Ret (mt', created, None)) :
  let idx := LastIndex (CleanPath path) Separator in
  Delete mt' path
  = if (idx <=? 0)%Z then (NewTrie, None)
    else (Some (NewEntry (take (Z.to_nat idx) (CleanPath path)) "" 0 MIMEDriveEntry
                         createdAt), None).
Proof.
  destruct (first_root _ _ _ _ _ _ _ _ _ H) as [Np R].
  assert (L : Nat.eqb (String.length path) 0 = false).
  { destruct path; [contradiction|reflexivity]. }
  cbv zeta. unfold Delete. rewrite L.
  assert (E : exists root, mt' = Some root /\ Path root = CleanPath path /\
                           CreatedAt (EContent root) = createdAt /\
                           negb (isEntryType (EContent root)) || IsEmptyFolder root = true).
  { destruct (String.eqb t MIMEDriveEntry) eqn:Te.
    - eexists. split; [exact R|]. repeat split.
    - destruct R as (_ & _ & ->). eexists. split; [reflexivity|]. repeat split.
      unfold isEntryType. cbn [EContent Type_].
      destruct (String.eqb_spec t "") as [->|_]; [reflexivity|].
      rewrite Te. reflexivity. }
  destruct E as (root & -> & Pr & Cr & Hs).
  rewrite <- Pr, (rm_sole root Hs). unfold deleteOrConvert.
  destruct (LastIndex (Path root) Separator <=? 0)%Z; [reflexivity|].
  unfold CopyFrom. rewrite copy_id, Cr. reflexivity.
Qed.

Lemma AddFile_then_Delete_witness :
  let idx := LastIndex (CleanPath "/folder/f1") Separator in
  Delete (Some f1File) "/folder/f1"
  = if (idx <=? 0)%Z then (NewTrie, None)
    else (Some (NewEntry (take (Z.to_nat idx) (CleanPath "/folder/f1")) "" 0
                         MIMEDriveEntry 1700000000), None).
Proof.
  apply (AddFile_then_Delete 1 0 "/folder/f1" "cid" 64 MIMEOctetStream 1700000000
           (Some f1File) []).
  reflexivity.
Defined.


(* ================================================================== *)
(** ** The internal node type stays inside *)
(* ================================================================== *)

Section PublicTypes.

Lemma collect_unfold (prefix fullname : string) (subtrie : Entry) :
  collect prefix fullname subtrie =
  let c := EContent subtrie in
  if String.eqb (Path subtrie) SpecialPathSymbol
  then
    if isEntryType c then [dirContent fullname (CreatedAt c)] else [c]
  else
    let suffix := if negb (Nat.eqb (String.length prefix) 0)
                  then TrimPrefix (Path subtrie) prefix else Path subtrie in
    let suffix := if byte_is (byteAt 0 suffix) SeparatorRune
                  then drop 1 suffix else suffix in
    let slashIdx := Index suffix Separator in
    if (0 <? slashIdx)%Z
    then [dirContent (fullname ++ take (Z.to_nat slashIdx) suffix) (CreatedAt c)]
    else if (slashIdx =? 0)%Z then []
    else
      let fullname := fullname ++ suffix in
      match Entries subtrie with
      | [] =>
          if isEntryType c
          then
            let name := if String.eqb (Name c) fullname then Name c
                        else fullname ++ Name c in
            [dirContent name (CreatedAt c)]
          else [c]
      | _ :: _ =>
          flat_map
            (fun me =>
               if byte_is (byteAt 0 (Path me)) SeparatorRune
               then [dirContent fullname (CreatedAt (EContent me))]
               else collect "" fullname me)
            (Entries subtrie)
      end.
Proof. destruct subtrie; reflexivity. Qed.

Lemma list_unfold (path : string) (subtrie : Entry) :
  list_ path subtrie =
  let spath := Path subtrie in
  if HasPrefix spath path && negb (String.eqb spath path)
  then
    let suffix := TrimPrefix spath path in
    if byte_is (byteAt 0 suffix) SeparatorRune
    then collect path "" subtrie
    else []
  else if HasPrefix path spath
  then
    let suffix := TrimPrefix path spath in
    flat_map (list_ suffix) (Entries subtrie)
  else [].
Proof. destruct subtrie; reflexivity. Qed.

Lemma public_dir (name : string) (t : Z) : public (dirContent name t).
Proof. reflexivity. Qed.

Lemma Forall_flat_map {A B} (P : B -> Prop) (f : A -> list B) (l : list A) :
  Forall (fun a => Forall P (f a)) l -> Forall P (flat_map f l).
Proof.
  induction 1 as [|a l Ha _ IH]; cbn [flat_map]; [constructor|].
  apply Forall_app. split; assumption.
Qed.

Lemma collect_public (subtrie : Entry) :
  forall prefix fullname, Forall public (collect prefix fullname subtrie).
Proof.
  induction subtrie as [c p es m IH] using Entry_induction.
  intros prefix fullname. rewrite collect_unfold. cbv zeta.
  cbn [EContent Path Entries].
  destruct (String.eqb p SpecialPathSymbol).
  { destruct (isEntryType c) eqn:T; repeat constructor. exact T. }
  destruct (_ <? _)%Z; [repeat constructor|].
  destruct (_ =? _)%Z; [constructor|].
  destruct es as [|e0 es].
  { destruct (isEntryType c) eqn:T; repeat constructor. exact T. }
  apply Forall_flat_map. eapply Forall_impl; [|exact IH].
  intros me Hme. cbv beta.
  destruct (byte_is _ _); [repeat constructor|apply Hme].
Qed.

Lemma list_public (subtrie : Entry) :
  forall path, Forall public (list_ path subtrie).
Proof.
  induction subtrie as [c p es m IH] using Entry_induction.
  intros path. rewrite list_unfold. cbv zeta. cbn [Path Entries].
  destruct (_ && _).
  { destruct (byte_is _ _); [apply collect_public|constructor]. }
  destruct (HasPrefix path p); [|constructor].
  apply Forall_flat_map. eapply Forall_impl; [|exact IH].
  intros me Hme. apply Hme.
Qed.

Lemma public_updateFolderEntry (c : Content) (me : Entry) :
  public c -> public (updateFolderEntry c me).
Proof. unfold public, isEntryType. now rewrite updateFolderEntry_type. Qed.

Lemma findEach_lands (rec : Entry -> Entry * option cref) (subtrie : Entry)
      (atEnd : bool) (sub : string) (d : Content) (es : list Entry) :
  public d ->
  Forall (fun me => forall e' r, rec me = (e', Some r) -> lands e' r) es ->
  forall i es' r,
    findEach rec subtrie atEnd sub (Fresh d) i es = (es', Some r) ->
    match r with
    | Fresh c => public c
    | At route =>
        exists j rest me' c,
          route = (i + j) :: rest /\ nth_error es' j = Some me' /\
          contentAt rest me' = Some c /\ public c
    end.
Proof.
  intros Hd. induction 1 as [|me tl Hme _ IH]; intros i es' r; cbn [findEach].
  { discriminate. }
  assert (Step : forall es1 r1,
             (let '(tl', r) :=
                findEach rec subtrie atEnd sub (Fresh d) (S i) tl in
              (me :: tl', r)) = (es1, Some r1) ->
             match r1 with
             | Fresh c => public c
             | At route =>
                 exists j rest me' c,
                   route = (i + j) :: rest /\ nth_error es1 j = Some me' /\
                   contentAt rest me' = Some c /\ public c
             end).
  { intros es1 r1. destruct (findEach _ _ _ _ _ (S i) tl) as [tl' r'] eqn:E.
    intros [= <- ->]. specialize (IH _ _ _ E).
    destruct r1 as [c|route]; [exact IH|].
    destruct IH as (j & rest & me0 & c & -> & N & C & T).
    exists (S j), rest, me0, c. repeat split; auto. f_equal. lia. }
  destruct atEnd.
  - destruct (String.eqb (Path me) SpecialPathSymbol); [|apply Step].
    destruct (isEntryType (EContent me)) eqn:T; cbn [negb]; intros [= <- <-].
    + exact Hd.
    + exists 0, [], me, (EContent me). rewrite Nat.add_0_r. repeat split; auto.
  - destruct (HasPrefix sub (Path me)).
    + destruct (rec me) as [me' item] eqn:E.
      destruct item as [[c|route]|]; intros [= <- <-].
      * destruct (Hme _ _ eq_refl) as (c' & [= <-] & T).
        now apply public_updateFolderEntry.
      * destruct (Hme _ _ eq_refl) as (c' & C & T). cbn [deref] in C.
        exists 0, route, (updateAt route (fun c => updateFolderEntry c subtrie) me'),
               (updateFolderEntry c' subtrie).
        rewrite Nat.add_0_r. repeat split; auto.
        -- exact (contentAt_updateAt (fun c => updateFolderEntry c subtrie) route me' c' C).
        -- now apply public_updateFolderEntry.
    + destruct (HasPrefix (Path me) sub); [discriminate|apply Step].
Qed.

Lemma find_lands (subtrie : Entry) :
  forall p e' r, find p subtrie = (e', Some r) -> lands e' r.
Proof.
  induction subtrie as [c q es m IH] using Entry_induction.
  intros p e' r. rewrite find_unfold. cbv zeta.
  cbn [Path Entries EContent EMeta].
  set (subtrie := mkEntry c q es m) in *.
  assert (Loop : forall atEnd sub es' item,
             findEach (fun me => find sub me) subtrie atEnd sub
               (Fresh (updateFolderEntry (dirContent "" (CreatedAt c)) subtrie))
               0 es = (es', Some item) ->
             lands (mkEntry c q es' m) item).
  { intros atEnd sub es' item E.
    eapply findEach_lands in E.
    - destruct item as [d|route].
      + exists d. auto.
      + destruct E as (j & rest & me & f & -> & N & C & Tf).
        exists f. cbn [deref contentAt Entries Nat.add]. rewrite N. auto.
    - apply public_updateFolderEntry, public_dir.
    - eapply Forall_impl; [|exact IH]. intros me Hme e2 r2. apply Hme. }
  destruct (isEntryType c) eqn:T; cbn [negb]; rewrite ?andb_false_r, ?andb_true_r.
  - destruct (Nat.eqb _ 0 && IsEmptyFolder subtrie).
    { intros [= <- <-]. eexists. split; [reflexivity|].
      apply public_updateFolderEntry, public_dir. }
    destruct (findEach _ _ _ _ _ _ _) as [es' item] eqn:E.
    intros [= <- ->]. eapply Loop, E.
  - destruct (Nat.eqb _ 0).
    { intros [= <- <-]. exists c. auto. }
    cbn [andb].
    destruct (findEach _ _ _ _ _ _ _) as [es' item] eqn:E.
    intros [= <- ->]. eapply Loop, E.
Qed.

Lemma statEach_public (rec : Entry -> outcome (option Content)) (atEnd : bool)
      (folder : Content) (es : list Entry) :
  public folder ->
  Forall (fun me => forall c, rec me = Ret (Some c) -> public c) es ->
  forall c, statEach rec atEnd folder es = Ret (Some c) -> public c.
Proof.
  intros Hf. induction 1 as [|me tl Hme _ IH]; intros c; cbn [statEach];
    [discriminate|].
  destruct atEnd.
  - destruct (String.eqb (Path me) SpecialPathSymbol).
    + destruct (isEntryType (EContent me)) eqn:T; cbn [negb]; intros [= <-]; auto.
    + intros H. apply bind_Ret in H as (b & _ & H).
      destruct (Ascii.eqb b SeparatorRune); [injection H as <-; exact Hf|auto].
  - intros H. apply bind_Ret in H as (item & Hr & H).
    destruct item as [x|]; [injection H as <-; auto|auto].
Qed.

Lemma stat_public (subtrie : Entry) :
  forall p c, stat p subtrie = Ret (Some c) -> public c.
Proof.
  induction subtrie as [c q es m IH] using Entry_induction.
  intros p c'. rewrite stat_unfold. cbv zeta.
  cbn [Path Entries EContent].
  destruct (HasPrefix p q).
  - destruct (isEntryType c) eqn:T; cbn [negb]; rewrite ?andb_false_r, ?andb_true_r.
    + destruct (_ && _); [intros [= <-]; apply public_dir|].
      apply statEach_public; [apply public_dir|].
      eapply Forall_impl; [|exact IH]. intros me Hme c2. apply Hme.
    + destruct (Nat.eqb _ 0); [intros [= <-]; exact T|]. cbn [andb].
      apply statEach_public; [apply public_dir|].
      eapply Forall_impl; [|exact IH]. intros me Hme c2. apply Hme.
  - destruct (HasPrefix q p); [|discriminate].
    destruct (isEntryType c) eqn:T; cbn [negb]; rewrite ?andb_false_r, ?andb_true_r.
    + destruct (_ && _); [intros [= <-]; apply public_dir|].
      intros H. apply bind_Ret in H as (b & _ & H).
      destruct (Ascii.eqb b SeparatorRune); [|discriminate].
      injection H as <-. apply public_dir.
    + destruct (Nat.eqb _ 0); [intros [= <-]; exact T|]. cbn [andb].
      intros H. apply bind_Ret in H as (b & _ & H).
      destruct (Ascii.eqb b SeparatorRune); [|discriminate].
      injection H as <-. apply public_dir.
Qed.

End PublicTypes.

(** No query hands out the internal node type: whatever the trie and the
    path, the contents that [Ls], [File] and [Stat] return are never of
    type [MIMEDriveEntry]. *)
Theorem internal_type_stays_inside (mt : Trie) (path : string) :
  Forall (fun c => Type_ c <> MIMEDriveEntry) (Ls mt path) /\
  (forall mt' c e, File mt path = (mt', Some c, e) -> Type_ c <> MIMEDriveEntry) /\
  (forall c e, Stat mt path = Ret (Some c, e) -> Type_ c <> MIMEDriveEntry).
Proof.
  assert (P : forall c, public c -> Type_ c <> MIMEDriveEntry).
  { intros c H. now apply String.eqb_neq. }
  repeat split.
  - destruct mt as [root|]; [|constructor]. cbn [Ls].
    eapply Forall_impl; [exact P|apply list_public].
  - intros mt' c e. unfold File.
    destruct (Nat.eqb _ 0); [discriminate|].
    destruct mt as [root|]; [|discriminate].
    destruct (find (CleanPath path) root) as [root' [r|]] eqn:F; [|discriminate].
    destruct (find_lands _ _ _ _ F) as (d & D & T). rewrite D.
    intros [= _ <- _]. rewrite copyContent_id. apply P, T.
  - intros c e. unfold Stat.
    destruct (Nat.eqb _ 0); [discriminate|].
    destruct mt as [root|]; [|discriminate].
    destruct (String.eqb path Separator); [discriminate|].
    intros H. apply bind_Ret in H as (f & S & H).
    destruct f as [d|]; [|discriminate]. injection H as <- _.
    apply stat_public in S. apply P. exact S.
Qed.


(* ================================================================== *)
(** ** The entries handed back *)
(* ================================================================== *)

Section Flat.

Lemma fixEntries_flat (entries : list Entry) (prefix : string) :
  Forall flat (fixEntries entries prefix).
Proof.
  unfold fixEntries. apply Forall_map, Forall_forall. intros e _.
  unfold fixEntry, flat, EType. cbn [Entries EContent]. split; [reflexivity|].
  destruct (String.eqb (Type_ (setName _ _)) MIMEDriveEntry) eqn:T.
  - discriminate.
  - now apply String.eqb_neq.
Qed.

Lemma fixEntry_flat (prefix : string) (e : Entry) : flat (fixEntry prefix e).
Proof.
  unfold fixEntry, flat, EType. cbn [Entries EContent]. split; [reflexivity|].
  destruct (String.eqb (Type_ (setName _ _)) MIMEDriveEntry) eqn:T.
  - discriminate.
  - now apply String.eqb_neq.
Qed.

Ltac flat_list :=
  solve [ constructor
        | apply fixEntries_flat
        | repeat constructor; apply fixEntry_flat ].

Lemma addTo_flat (now : Z) (subtrie what s : Entry) (cr : list Entry)
      (e : option error) :
  addTo now subtrie what = Ret (s, cr, e) -> Forall flat cr.
Proof.
  rewrite addTo_unfold. cbv zeta.
  destruct (HasPrefix (Path subtrie) (Path what)).
  { destruct (Nat.eqb _ 0).
    - intros H. apply bind_Ret in H as ([s' err] & _ & H).
      injection H as _ <- _. flat_list.
    - destruct (byte_is _ _); intros [= _ <- _]; flat_list. }
  destruct (HasPrefix (Path what) (Path subtrie)).
  { destruct (Entries subtrie) as [|e0 es].
    - destruct (_ || _).
      + destruct (isEntryType _); [|intros [= _ <- _]; constructor].
        destruct (Nat.eqb _ 0); intros [= _ <- _]; flat_list.
      + intros [= _ <- _]. flat_list.
    - destruct (addToEach _ _ _) as [o|].
      + intros H. apply bind_Ret in H as ([[es' cr'] err'] & _ & H).
        injection H as _ <- _. flat_list.
      + intros H. apply bind_Ret in H as ([s' err] & _ & H).
        injection H as _ <- _. flat_list. }
  intros H. apply bind_Ret in H as (ch & _ & H).
  injection H as _ <- _. flat_list.
Qed.

Lemma listEach_flat (rec : string -> outcome (list Entry)) (p fixedPath : string)
      (cs : list Content) :
  (forall q l, rec q = Ret l -> Forall flat l) ->
  Forall public cs ->
  forall l, listEach rec p fixedPath cs = Ret l -> Forall flat l.
Proof.
  intros Hrec. induction 1 as [|c tl Hc _ IH]; intros l; cbn [listEach].
  { intros [= <-]. constructor. }
  intros H. apply bind_Ret in H as (chldrn & Hch & H).
  apply bind_Ret in H as (rest & Hrest & H). injection H as <-.
  constructor.
  - split; [reflexivity|]. unfold EType. cbn [EContent].
    now apply String.eqb_neq.
  - apply Forall_app. split; [|auto].
    destruct (String.eqb (Type_ c) MIMEDriveDirectory).
    + eapply Hrec, Hch.
    + injection Hch as <-. constructor.
Qed.

Lemma listRecursive_flat (fuel : nat) :
  forall p fixedPath subtrie l,
    listRecursive fuel p fixedPath subtrie = Ret l -> Forall flat l.
Proof.
  induction fuel as [|k IH]; intros p fixedPath subtrie l; cbn [listRecursive];
    [discriminate|].
  apply listEach_flat; [|apply list_public].
  intros q l'. apply IH.
Qed.

Lemma insertByPath_flat (e : Entry) (l : list Entry) :
  flat e -> Forall flat l -> Forall flat (insertByPath e l).
Proof.
  intros He. induction 1 as [|x tl Hx Ht IH]; cbn [insertByPath].
  - constructor; [exact He|constructor].
  - destruct (String.ltb _ _).
    + constructor; [exact Hx|exact IH].
    + constructor; [exact He|]. constructor; [exact Hx|exact Ht].
Qed.

Lemma sortByPath_flat (l : list Entry) : Forall flat l -> Forall flat (sortByPath l).
Proof.
  unfold sortByPath. induction 1 as [|x tl Hx _ IH]; cbn [fold_right];
    [constructor|]. now apply insertByPath_flat.
Qed.

Lemma lsRecursive_flat (fuel : nat) (mt : Trie) (path : string) (l : list Entry) :
  lsRecursive fuel mt path = Ret l -> Forall flat l.
Proof.
  unfold lsRecursive. destruct mt as [root|]; [|intros [= <-]; constructor].
  intros H. apply bind_Ret in H as (entries & He & H). injection H as <-.
  apply sortByPath_flat. eapply listRecursive_flat, He.
Qed.

End Flat.

(** The entries that [AddFile] and [LsRecursive] return are flat: they
    carry no children and never the internal type [MIMEDriveEntry],
    whatever the trie and the arguments. *)
Theorem returned_entries_are_flat :
  (forall fuel now mt m mt' created err,
      AddFile fuel now mt m = Ret (mt', created, err) -> Forall flat created) /\
  (forall fuel mt path l, LsRecursive fuel mt path = Ret l -> Forall flat l).
Proof.
  split.
  - intros fuel now mt m mt' created err. unfold AddFile.
    destruct m as [m|]; [|intros [= _ <- _]; constructor].
    destruct (prepared m) as [m0 [e|]]; [intros [= _ <- _]; constructor|].
    destruct mt as [root|].
    + intros H. apply bind_Ret in H as ([[root' cr] err'] & Ha & H).
      injection H as _ <- _. eapply addTo_flat, Ha.
    + intros H. apply bind_Ret in H as (cr & Hl & H).
      injection H as _ <- _. eapply lsRecursive_flat, Hl.
  - intros fuel mt path l. apply lsRecursive_flat.
Qed.


(* ================================================================== *)
(** ** [Replace], then [File] *)
(* ================================================================== *)

Section ReplaceFile.

Variable g : Content -> Content.
Hypothesis g_type : forall c, Type_ (g c) = Type_ c.

Lemma updateAt_path (route : list nat) (e : Entry) :
  Path (updateAt route g e) = Path e.
Proof.
  destruct route as [|i r]; cbn [updateAt]; [reflexivity|].
  destruct (nth_error (Entries e) i); reflexivity.
Qed.

Lemma updateAt_type (route : list nat) (e : Entry) :
  isEntryType (EContent (updateAt route g e)) = isEntryType (EContent e).
Proof.
  destruct route as [|i r]; cbn [updateAt].
  - unfold isEntryType. cbn [setContent EContent]. now rewrite g_type.
  - destruct (nth_error (Entries e) i); reflexivity.
Qed.

Lemma replaceAt_nil (i : nat) (x : Entry) : replaceAt i x [] = [].
Proof. destruct i; reflexivity. Qed.

Lemma IsEmptyFolder_update (c : Content) (q : string) (m : option Meta)
      (es : list Entry) (j : nat) (rest : list nat) (me : Entry) :
  nth_error es j = Some me ->
  IsEmptyFolder (mkEntry c q (replaceAt j (updateAt rest g me) es) m)
  = IsEmptyFolder (mkEntry c q es m).
Proof.
  intros N. unfold IsEmptyFolder, EType. cbn [EContent Entries]. f_equal.
  destruct es as [|a tl]; [destruct j; discriminate|].
  destruct j as [|j]; cbn [replaceAt].
  - injection N as ->. destruct tl; [|reflexivity]. now rewrite updateAt_path.
  - destruct tl as [|b tl]; [destruct j; discriminate|destruct j; reflexivity].
Qed.

Lemma findEach_index (rec : Entry -> Entry * option cref) (s : Entry)
      (atEnd : bool) (sub : string) (t : Z) (es es' : list Entry) (i : nat)
      (route : list nat) :
  (forall me e' r, rec me = (e', r) -> quiet me e' r) ->
  findEach rec s atEnd sub (Fresh (updateFolderEntry (dirContent "" t) s)) i es
  = (es', Some (At route)) ->
  exists j rest, route = (i + j) :: rest.
Proof.
  intros Hq E. eapply findEach_quiet in E.
  - destruct E as (j & rest & _ & _ & -> & _). eauto.
  - apply Forall_forall. intros me _. apply Hq.
Qed.

(** The loop of [find] takes the same way through the children when the
    content it found has been overwritten with one of the same type. *)
Lemma findEach_update (sub : string) (s s' : Entry) (atEnd : bool) (t : Z)
      (d' : Content) :
  forall es,
    Forall (fun me => forall p e' route f,
                find p me = (e', Some (At route)) ->
                contentAt route me = Some f -> isDirType f = false ->
                find p (updateAt route g me) = (updateAt route g me, Some (At route)))
           es ->
    forall i0 es' j rest me f,
      findEach (fun me => find sub me) s atEnd sub
               (Fresh (updateFolderEntry (dirContent "" t) s)) i0 es
      = (es', Some (At ((i0 + j) :: rest))) ->
      nth_error es j = Some me -> contentAt rest me = Some f ->
      isDirType f = false ->
      findEach (fun me => find sub me) s' atEnd sub (Fresh d') i0
               (replaceAt j (updateAt rest g me) es)
      = (replaceAt j (updateAt rest g me) es, Some (At ((i0 + j) :: rest))).
Proof.
  induction 1 as [|a tl Ha _ IH]; intros i0 es' j rest me f E N C D.
  { destruct j; discriminate. }
  assert (Q : forall me e' r, find sub me = (e', r) -> quiet me e' r).
  { intros x e' r. apply find_quiet. }
  destruct j as [|j]; cbn [nth_error replaceAt] in *.
  - injection N as ->. rewrite Nat.add_0_r in *.
    assert (Skip : forall tl',
               findEach (fun me => find sub me) s atEnd sub
                 (Fresh (updateFolderEntry (dirContent "" t) s)) (S i0) tl
               = (tl', Some (At (i0 :: rest))) -> False).
    { intros tl' E'. apply findEach_index in E'; [|exact Q].
      destruct E' as (j & r & [= Hj _]). lia. }
    cbn [findEach] in E |- *. rewrite updateAt_path, updateAt_type.
    destruct atEnd.
    + destruct (String.eqb (Path me) SpecialPathSymbol).
      * destruct (isEntryType (EContent me)); cbn [negb] in *; [discriminate|].
        injection E as _ <-. reflexivity.
      * destruct (findEach _ _ _ _ _ (S i0) tl) as [tl' r'] eqn:E'.
        injection E as _ ->. exfalso. eapply Skip; eauto.
    + destruct (HasPrefix sub (Path me)).
      * destruct (find sub me) as [me' item] eqn:F.
        destruct item as [[c|route]|]; try discriminate.
        injection E as _ ->.
        rewrite (Ha sub me' rest f F C D).
        f_equal. f_equal.
        apply (updateAt_same _ rest _ (g f)).
        -- apply (contentAt_updateAt g rest me f C).
        -- apply updateFolderEntry_file. unfold isDirType in *.
           now rewrite g_type.
      * destruct (HasPrefix (Path me) sub); [discriminate|].
        destruct (findEach _ _ _ _ _ (S i0) tl) as [tl' r'] eqn:E'.
        injection E as _ ->. exfalso. eapply Skip; eauto.
  - cbn [findEach] in E |- *.
    assert (Next : forall es1,
               (let '(tl', r) :=
                  findEach (fun me => find sub me) s atEnd sub
                    (Fresh (updateFolderEntry (dirContent "" t) s)) (S i0) tl in
                (a :: tl', r)) = (es1, Some (At ((i0 + S j) :: rest))) ->
               (let '(tl', r) :=
                  findEach (fun me => find sub me) s' atEnd sub (Fresh d') (S i0)
                    (replaceAt j (updateAt rest g me) tl) in
                (a :: tl', r))
               = (a :: replaceAt j (updateAt rest g me) tl,
                  Some (At ((i0 + S j) :: rest)))).
    { intros es1 E1.
      destruct (findEach _ _ _ _ _ (S i0) tl) as [tl' r'] eqn:E'.
      injection E1 as _ ->.
      replace (i0 + S j) with (S i0 + j) in * by lia.
      rewrite (IH _ _ _ _ _ _ E' N C D). reflexivity. }
    destruct atEnd.
    + destruct (String.eqb (Path a) SpecialPathSymbol); [|eapply Next, E].
      destruct (negb (isEntryType (EContent a))); [|discriminate].
      injection E as _ E. lia.
    + destruct (HasPrefix sub (Path a)).
      * destruct (find sub a) as [a' item].
        destruct item as [[c|route]|]; try discriminate.
        injection E as _ E _. lia.
      * destruct (HasPrefix (Path a) sub); [discriminate|eapply Next, E].
Qed.

Lemma find_update (e : Entry) :
  forall p e' route f,
    find p e = (e', Some (At route)) ->
    contentAt route e = Some f -> isDirType f = false ->
    find p (updateAt route g e) = (updateAt route g e, Some (At route)).
Proof.
  induction e as [c q es m IH] using Entry_induction.
  intros p e' route f. rewrite find_unfold. cbv zeta.
  cbn [Path Entries EContent EMeta].
  set (sub := TrimPrefix p q).
  destruct (Nat.eqb (String.length sub) 0 && negb (isEntryType c)) eqn:B1.
  { intros [= <- <-] _ _. cbn [updateAt]. rewrite find_unfold. cbv zeta.
    cbn [setContent EContent Path Entries EMeta]. fold sub.
    unfold isEntryType in *. rewrite g_type, B1. reflexivity. }
  destruct (Nat.eqb (String.length sub) 0 && IsEmptyFolder (mkEntry c q es m)) eqn:B2;
    [discriminate|].
  destruct (findEach _ _ _ _ _ _ _) as [es' item] eqn:E.
  intros [= <- ->] C D.
  destruct (findEach_index _ _ _ _ _ _ _ _ _ (fun me => find_quiet me sub) E)
    as (j & rest & ->).
  cbn [Nat.add] in *. cbn [contentAt updateAt Entries] in C |- *.
  destruct (nth_error es j) as [me|] eqn:N; [|discriminate].
  unfold setEntries. cbn [EContent Path EMeta].
  rewrite find_unfold. cbv zeta. cbn [EContent Path Entries EMeta]. fold sub.
  rewrite B1, (IsEmptyFolder_update _ _ _ _ _ _ _ N), B2.
  erewrite (findEach_update sub (mkEntry c q es m) _ _ _ _ es IH 0 es' j rest me f);
    eauto.
Qed.

End ReplaceFile.

Section StoredType.

Lemma findEach_sameType (rec : Entry -> Entry * option cref) (subtrie : Entry)
      (atEnd : bool) (sub : string) (d : Content) (es : list Entry) :
  Forall (fun me => forall e' route, rec me = (e', Some (At route)) ->
                                     sameType me e' route) es ->
  forall i es' route,
    findEach rec subtrie atEnd sub (Fresh d) i es = (es', Some (At route)) ->
    exists j rest me me',
      route = (i + j) :: rest /\ nth_error es j = Some me /\
      nth_error es' j = Some me' /\ sameType me me' rest.
Proof.
  induction 1 as [|me tl Hme _ IH]; intros i es' route; cbn [findEach].
  { discriminate. }
  assert (Step : forall es1,
             (let '(tl', r) := findEach rec subtrie atEnd sub (Fresh d) (S i) tl in
              (me :: tl', r)) = (es1, Some (At route)) ->
             exists j rest me0 me',
               route = (i + j) :: rest /\ nth_error (me :: tl) j = Some me0 /\
               nth_error es1 j = Some me' /\ sameType me0 me' rest).
  { intros es1. destruct (findEach _ _ _ _ _ (S i) tl) as [tl' r'] eqn:E.
    intros [= <- ->]. destruct (IH _ _ _ E) as (j & rest & me0 & me' & -> & N & N' & T).
    exists (S j), rest, me0, me'. repeat split; auto. f_equal. lia. }
  destruct atEnd.
  - destruct (String.eqb (Path me) SpecialPathSymbol); [|apply Step].
    destruct (isEntryType (EContent me)); cbn [negb]; [discriminate|].
    intros [= <- <-]. exists 0, [], me, me. rewrite Nat.add_0_r.
    repeat split. exists (EContent me), (EContent me). auto.
  - destruct (HasPrefix sub (Path me)).
    + destruct (rec me) as [me' item] eqn:E.
      destruct item as [[c|r]|]; intros [= <- <-].
      destruct (Hme _ _ eq_refl) as (f0 & f1 & C0 & C1 & T).
      exists 0, r, me, (updateAt r (fun c => updateFolderEntry c subtrie) me').
      rewrite Nat.add_0_r. repeat split.
      exists f0, (updateFolderEntry f1 subtrie). repeat split; auto.
      * exact (contentAt_updateAt (fun c => updateFolderEntry c subtrie) r me' f1 C1).
      * now rewrite updateFolderEntry_type.
    + destruct (HasPrefix (Path me) sub); [discriminate|apply Step].
Qed.

Lemma find_sameType (subtrie : Entry) :
  forall p e' route, find p subtrie = (e', Some (At route)) ->
                     sameType subtrie e' route.
Proof.
  induction subtrie as [c q es m IH] using Entry_induction.
  intros p e' route. rewrite find_unfold. cbv zeta.
  cbn [Path Entries EContent EMeta].
  destruct (_ && negb _).
  { intros [= <- <-]. exists c, c. auto. }
  destruct (_ && IsEmptyFolder _); [discriminate|].
  destruct (findEach _ _ _ _ _ _ _) as [es' item] eqn:E.
  intros [= <- ->].
  eapply findEach_sameType in E;
    [|eapply Forall_impl; [|exact IH]; intros me Hme e2 r2; apply Hme].
  destruct E as (j & rest & me & me' & -> & N & N' & f0 & f1 & C0 & C1 & T).
  exists f0, f1. cbn [contentAt Entries Nat.add]. rewrite N, N'. auto.
Qed.

End StoredType.

(** [Replace], then [File].  Where [File] returns a content that is not
    a directory, [Replace] returns the new content and the old one, and
    [File] afterwards returns the old content with the [cid], [size] and
    [createdAt] of the new one; this second [File] leaves the trie as
    [Replace] left it. *)
Theorem Replace_then_File (root : Entry) (path : string) (cnt f : Content)
      (mt1 : Trie)
  (Hfile : File (Some root) path = (mt1, Some f, None))
  (Hnd : Type_ f <> MIMEDriveDirectory) :
  exists root',
    Replace (Some root) path cnt = (Some root', Some cnt, Some f, None) /\
    File (Some root') path = (Some root', Some (overwrite cnt f), None).
Proof.
  unfold File in Hfile. unfold Replace, File.
  destruct (Nat.eqb (String.length path) 0); [discriminate|].
  destruct (find (CleanPath path) root) as [r' [r|]] eqn:F; [|discriminate].
  pose proof (find_quiet _ _ _ _ F) as Q.
  destruct (deref r r') as [c0|] eqn:Dr; [|discriminate].
  injection Hfile as _ Hf. rewrite copyContent_id in Hf. subst c0.
  destruct r as [c|route]; cbn [quiet deref] in *.
  - destruct Q as [_ Dc]. injection Dr as ->. exfalso. apply Hnd.
    now apply String.eqb_eq.
  - destruct (find_sameType _ _ _ _ F) as (f0 & f1 & C0 & C1 & T).
    rewrite Dr in C1. injection C1 as <-.
    destruct Q as (f0' & C0' & _ & Same). rewrite C0 in C0'. injection C0' as <-.
    assert (D : isDirType f0 = false).
    { apply String.eqb_neq. rewrite <- T. exact Hnd. }
    rewrite (Same D) in *. rewrite Dr in C0. injection C0 as <-.
    exists (updateAt route (overwrite cnt) root).
    cbn [option_map]. rewrite !copyContent_id. split; [reflexivity|].
    rewrite (find_update (overwrite cnt) (fun c => eq_refl) root _ _ _ _ F Dr D).
    cbn [deref]. rewrite (contentAt_updateAt _ _ _ _ Dr), copyContent_id.
    reflexivity.
Qed.

Lemma Replace_then_File_witness :
  exists root',
    Replace (Some homeFile) "/home/test.txt" newer
    = (Some root', Some newer, Some (EContent homeFile), None) /\
    File (Some root') "/home/test.txt"
    = (Some root', Some (overwrite newer (EContent homeFile)), None).
Proof.
  apply (Replace_then_File homeFile "/home/test.txt" newer (EContent homeFile)
           (Some homeFile)).
  - reflexivity.
  - vm_compute. discriminate.
Defined.


(* ================================================================== *)
(** ** Listing the directory of the first entry *)
(* ================================================================== *)

Section ListLeaf.

Lemma doubled_app_inv (a b : string) :
  doubled (a ++ b) = false ->
  doubled a = false /\
  byte_is (lastOf a) SeparatorRune && byte_is (byteAt 0 b) SeparatorRune = false.
Proof.
  induction a as [|c a IH]; intros D; [split; reflexivity|].
  cbn [append doubled] in D. apply orb_false_iff in D as [D1 D2].
  destruct (IH D2) as [Da J]. destruct a as [|d a].
  - cbn [append] in *. split; [cbn; now rewrite andb_false_r|exact D1].
  - split; [|exact J].
    change (doubled (String c (String d a)))
      with (Ascii.eqb c SeparatorRune && byte_is (Some d) SeparatorRune
            || doubled (String d a)).
    apply orb_false_iff. split; [exact D1|exact Da].
Qed.

Lemma Index_noSlash (s : string) : noSlash s = true -> (Index s Separator < 0)%Z.
Proof.
  intros H. pose proof (Contains_sep s) as C. rewrite H in C.
  unfold Contains in C. apply Z.leb_gt in C. exact C.
Qed.

Lemma sentinel_long (parent name : string) :
  name <> "" ->
  String.eqb (parent ++ Separator ++ name) SpecialPathSymbol = false.
Proof.
  intros Hn. apply String.eqb_neq. intros E.
  apply (f_equal String.length) in E. rewrite !length_append in E.
  destruct name; [contradiction|]. simpl in E. lia.
Qed.

Lemma not_parent (parent name : string) :
  String.eqb (parent ++ Separator ++ name) parent = false.
Proof.
  apply String.eqb_neq. intros E.
  apply (f_equal String.length) in E. rewrite !length_append in E.
  simpl in E. lia.
Qed.

(** [collect] below the parent directory: the suffix after the parent
    is the name. *)
Lemma collect_name (parent name : string) (c : Content) (es : list Entry)
      (m : option Meta) :
  name <> "" -> noSlash name = true ->
  collect parent "" (mkEntry c (parent ++ Separator ++ name) es m)
  = match es with
    | [] => if isEntryType c
            then [dirContent (if String.eqb (Name c) name then Name c
                              else name ++ Name c) (CreatedAt c)]
            else [c]
    | _ :: _ =>
        flat_map
          (fun me =>
             if byte_is (byteAt 0 (Path me)) SeparatorRune
             then [dirContent name (CreatedAt (EContent me))]
             else collect "" name me)
          es
    end.
Proof.
  intros Hn Hs. rewrite collect_unfold. cbv zeta.
  cbn [EContent Path Entries]. rewrite (sentinel_long _ _ Hn).
  assert (S : (if negb (Nat.eqb (String.length parent) 0)
               then TrimPrefix (parent ++ Separator ++ name) parent
               else parent ++ Separator ++ name) = Separator ++ name).
  { destruct parent as [|a p]; [reflexivity|].
    cbn [String.length Nat.eqb negb]. apply TrimPrefix_append. }
  rewrite S. change (Separator ++ name) with (String SeparatorRune name).
  cbn [byteAt byte_is].
  change (Ascii.eqb SeparatorRune SeparatorRune) with true. cbv iota. cbn [drop].
  pose proof (Index_noSlash _ Hs) as I.
  destruct (Z.ltb_spec 0 (Index name Separator)) as [L|_]; [lia|].
  destruct (Z.eqb_spec (Index name Separator) 0) as [L|_]; [lia|].
  reflexivity.
Qed.

Lemma list_parent (parent name : string) (c : Content) (es : list Entry)
      (m : option Meta) :
  list_ parent (mkEntry c (parent ++ Separator ++ name) es m)
  = collect parent "" (mkEntry c (parent ++ Separator ++ name) es m).
Proof.
  rewrite list_unfold. cbv zeta. cbn [Path].
  rewrite HasPrefix_append, not_parent, TrimPrefix_append. reflexivity.
Qed.

(** The directory part of a cleaned path is a cleaned path. *)
Lemma parent_clean (p : string) :
  0 < String.length p ->
  let idx := LastIndex (CleanPath p) Separator in
  (0 < idx)%Z ->
  let parent := take (Z.to_nat idx) (CleanPath p) in
  let name := drop (Z.to_nat idx + 1) (CleanPath p) in
  CleanPath p = parent ++ Separator ++ name /\
  noSlash name = true /\ name <> "" /\ CleanPath parent = parent.
Proof.
  intros Hp idx Hi parent name.
  destruct (CleanPath_shape p Hp) as (_ & Hs & Hd & Hl).
  pose proof (LastIndex_split (CleanPath p)) as S. cbv zeta in S.
  fold idx in S. destruct (Z.leb_spec 0 idx) as [_|L]; [|lia].
  fold parent name in S. destruct S as [E N].
  rewrite Contains_double in Hd. rewrite E in Hd.
  destruct (doubled_app_inv _ _ Hd) as [Dp J].
  change (byteAt 0 (Separator ++ name)) with (Some SeparatorRune) in J.
  change (byte_is (Some SeparatorRune) SeparatorRune) with true in J.
  rewrite andb_true_r in J.
  assert (Nn : name <> "").
  { intros Q. unfold lastByte in Hl. rewrite byteAt_last in Hl.
    assert (L : byte_is (lastOf (CleanPath p)) SeparatorRune = true).
    { rewrite E, Q. apply (append_last_sep parent). }
    specialize (Hl L). unfold idx in Hi. rewrite Hl in Hi. cbn in Hi. lia. }
  repeat split; auto.
  assert (Pn : parent <> "").
  { intros Q. unfold parent in Q. apply (f_equal String.length) in Q.
    rewrite length_take in Q. simpl in Q.
    pose proof (CleanPath_nonempty p Hp) as Ne.
    destruct (CleanPath p); [contradiction|]. simpl in Q. lia. }
  apply CleanPath_fixed.
  - rewrite HasPrefix_sep in *. rewrite E, byteAt0_append in Hs by exact Pn.
    exact Hs.
  - rewrite Contains_double. exact Dp.
  - unfold lastByte. rewrite byteAt_last, J. discriminate.
Qed.

End ListLeaf.

(** Insert, then list.  After a successful [AddFile] of an entry into
    the empty trie, [Ls] of the directory the entry is in (any directory
    but the root) lists exactly that entry: a file with its content, a
    directory marker as a directory of that name. *)
Theorem AddFile_then_Ls (fuel : nat) (now : Z) (path cid : string) (size : Z)
      (t : string) (createdAt : Z) (mt' : Trie) (created : list Entry)
  (H : AddFile fuel now NewTrie (Some (NewEntry path cid size t createdAt))
       = Ret (mt', created, None))
  (Hparent : (0 < LastIndex (CleanPath path) Separator)%Z) :
  let idx := Z.to_nat (LastIndex (CleanPath path) Separator) in
  Ls mt' (take idx (CleanPath path))
  = if String.eqb t MIMEDriveEntry
    then [dirContent (drop (idx + 1) (CleanPath path)) createdAt]
    else [mkContent (Base path) cid (if String.eqb t "" then MIMEOctetStream else t)
                    size 1 createdAt].
Proof.
  destruct (first_root _ _ _ _ _ _ _ _ _ H) as [Np R].
  assert (Hp : 0 < String.length path).
  { destruct path; [contradiction|simpl; lia]. }
  destruct (parent_clean path Hp Hparent) as (E & Ns & Nn & Cp).
  cbv zeta.
  set (parent := take (Z.to_nat (LastIndex (CleanPath path) Separator))
                      (CleanPath path)) in *.
  set (name := drop (Z.to_nat (LastIndex (CleanPath path) Separator) + 1)
                    (CleanPath path)) in *.
  destruct (String.eqb t MIMEDriveEntry) eqn:Te.
  - subst mt'. cbn [Ls]. rewrite Cp, NewEntry_folder, E.
    rewrite list_parent, (collect_name _ _ _ _ _ Nn Ns).
    cbn [flat_map Path byteAt byte_is]. rewrite collect_unfold. reflexivity.
  - destruct R as (_ & _ & ->). cbn [Ls]. rewrite Cp, E.
    rewrite list_parent, (collect_name _ _ _ _ _ Nn Ns).
    unfold isEntryType. cbn [Type_].
    destruct (String.eqb_spec t "") as [->|_]; [reflexivity|].
    rewrite Te. reflexivity.
Qed.

Lemma AddFile_then_Ls_witness :
  let idx := Z.to_nat (LastIndex (CleanPath "/docs/readme") Separator) in
  Ls (Some readme) (take idx (CleanPath "/docs/readme"))
  = if String.eqb MIMEOctetStream MIMEDriveEntry
    then [dirContent (drop (idx + 1) (CleanPath "/docs/readme")) 1700000000]
    else [mkContent (Base "/docs/readme") "cid1"
                    (if String.eqb MIMEOctetStream "" then MIMEOctetStream
                     else MIMEOctetStream)
                    100 1 1700000000].
Proof.
  apply (AddFile_then_Ls 1 0 "/docs/readme" "cid1" 100 MIMEOctetStream 1700000000
           (Some readme) []).
  - reflexivity.
  - vm_compute. reflexivity.
Defined.


(* ================================================================== *)
(** ** [CleanPath] keeps the names *)
(* ================================================================== *)

Section Segments.

Lemma Split_cons (c : ascii) (r : string) :
  Split (String c r) SeparatorRune
  = if Ascii.eqb c SeparatorRune then "" :: Split r SeparatorRune
    else String c (hd "" (Split r SeparatorRune)) :: tl (Split r SeparatorRune).
Proof.
  cbn [Split]. destruct (Ascii.eqb c SeparatorRune); [reflexivity|].
  destruct (Split r SeparatorRune); reflexivity.
Qed.

Lemma Split_eta (s : string) :
  Split s SeparatorRune = hd "" (Split s SeparatorRune) :: tl (Split s SeparatorRune).
Proof.
  destruct s as [|c r]; [reflexivity|]. rewrite Split_cons.
  destruct (Ascii.eqb c SeparatorRune); reflexivity.
Qed.

Lemma segments_sep (r : string) : segments (String SeparatorRune r) = segments r.
Proof. unfold segments. rewrite Split_cons. reflexivity. Qed.

(** One round of the loop keeps the first piece and the names after
    it. *)
Lemma ReplaceAll_pieces (n : nat) :
  forall s, String.length s <= n ->
    let r := ReplaceAll s DoubleSeparator Separator in
    hd "" (Split r SeparatorRune) = hd "" (Split s SeparatorRune) /\
    filter named (tl (Split r SeparatorRune)) = filter named (tl (Split s SeparatorRune)).
Proof.
  induction n as [|n IH]; intros s Hn; cbv zeta.
  { destruct s; [split; reflexivity|simpl in Hn; lia]. }
  destruct s as [|c s]; [split; reflexivity|].
  cbn [String.length] in Hn.
  rewrite ReplaceAll_double, HasPrefix_double.
  destruct (Ascii.eqb c SeparatorRune) eqn:Ec; cbn [andb].
  - apply Ascii.eqb_eq in Ec. subst c.
    destruct s as [|d s]; cbn [byteAt byte_is].
    + split; reflexivity.
    + destruct (Ascii.eqb d SeparatorRune) eqn:Ed.
      * apply Ascii.eqb_eq in Ed. subst d. cbn [drop].
        destruct (IH s) as [H1 H2]; [cbn [String.length] in Hn; lia|].
        cbv zeta in H1, H2.
        rewrite !Split_cons.
        change (Ascii.eqb SeparatorRune SeparatorRune) with true. cbv iota.
        cbn [hd tl]. split; [reflexivity|].
        rewrite (Split_eta (ReplaceAll s DoubleSeparator Separator)),
                (Split_eta s).
        cbn [filter]. rewrite H1, H2.
        change (named "") with false. cbv iota. reflexivity.
      * destruct (IH (String d s)) as [H1 H2]; [lia|]. cbv zeta in H1, H2.
        rewrite (Split_cons SeparatorRune), (Split_cons SeparatorRune (String d s)).
        change (Ascii.eqb SeparatorRune SeparatorRune) with true. cbv iota.
        cbn [hd tl]. split; [reflexivity|].
        rewrite (Split_eta (ReplaceAll (String d s) DoubleSeparator Separator)),
                (Split_eta (String d s)).
        cbn [filter]. rewrite H1, H2. reflexivity.
  - destruct (IH s) as [H1 H2]; [lia|]. cbv zeta in H1, H2.
    rewrite !Split_cons, Ec. cbn [hd tl]. rewrite H1, H2. split; reflexivity.
Qed.

Lemma ReplaceAll_segments (s : string) :
  segments (ReplaceAll s DoubleSeparator Separator) = segments s.
Proof.
  destruct (ReplaceAll_pieces (String.length s) s (le_n _)) as [H1 H2].
  cbv zeta in H1, H2. unfold segments.
  rewrite (Split_eta (ReplaceAll s DoubleSeparator Separator)), (Split_eta s).
  cbn [filter]. rewrite H1, H2. reflexivity.
Qed.

Lemma collapse_segments (n : nat) :
  forall s, segments (collapse n s) = segments s.
Proof.
  induction n as [|n IH]; intros s; cbn [collapse]; [reflexivity|].
  destruct (Contains s DoubleSeparator); [|reflexivity].
  rewrite IH. apply ReplaceAll_segments.
Qed.

Lemma initOf_pieces (s : string) :
  byte_is (lastOf s) SeparatorRune = true ->
  hd "" (Split (initOf s) SeparatorRune) = hd "" (Split s SeparatorRune) /\
  filter named (tl (Split (initOf s) SeparatorRune))
  = filter named (tl (Split s SeparatorRune)).
Proof.
  induction s as [|c s IH]; [discriminate|].
  destruct s as [|d s].
  - cbn. intros E. apply Ascii.eqb_eq in E. subst c. split; reflexivity.
  - intros L. destruct (IH L) as [H1 H2].
    change (initOf (String c (String d s))) with (String c (initOf (String d s))).
    rewrite (Split_cons c), (Split_cons c (String d s)).
    destruct (Ascii.eqb c SeparatorRune); cbn [hd tl].
    + split; [reflexivity|].
      rewrite (Split_eta (initOf (String d s))), (Split_eta (String d s)).
      cbn [filter]. rewrite H1, H2. reflexivity.
    + rewrite H1, H2. split; reflexivity.
Qed.

Lemma initOf_segments (s : string) :
  byte_is (lastOf s) SeparatorRune = true -> segments (initOf s) = segments s.
Proof.
  intros L. destruct (initOf_pieces s L) as [H1 H2]. unfold segments.
  rewrite (Split_eta (initOf s)), (Split_eta s).
  cbn [filter]. rewrite H1, H2. reflexivity.
Qed.

Lemma onlySlashes_segments (s : string) :
  onlySlashes s = match segments s with [] => true | _ :: _ => false end.
Proof.
  induction s as [|c s IH]; [reflexivity|].
  cbn [onlySlashes]. unfold segments in *. rewrite Split_cons.
  destruct (Ascii.eqb c SeparatorRune); [exact IH|reflexivity].
Qed.

Lemma CleanPath_segments (p : string) : segments (CleanPath p) = segments p.
Proof.
  unfold CleanPath. destruct (Nat.eqb (String.length p) 0); [reflexivity|].
  set (r := collapse (String.length p) p).
  assert (R : segments (if byte_is (byteAt 0 r) SeparatorRune then r
                        else Separator ++ r) = segments p).
  { destruct (byte_is (byteAt 0 r) SeparatorRune).
    - apply collapse_segments.
    - change (Separator ++ r) with (String SeparatorRune r).
      rewrite segments_sep. apply collapse_segments. }
  set (r' := if byte_is (byteAt 0 r) SeparatorRune then r else Separator ++ r) in *.
  destruct (Nat.ltb 1 (String.length r')); cbn [andb]; [|exact R].
  rewrite byteAt_last.
  destruct (byte_is (lastOf r') SeparatorRune) eqn:L; [|exact R].
  rewrite take_init, initOf_segments; assumption.
Qed.

End Segments.

Lemma onlySlashes_CleanPath (p : string) :
  onlySlashes (CleanPath p) = onlySlashes p.
Proof. rewrite !onlySlashes_segments, CleanPath_segments. reflexivity. Qed.


Section Canonical.

Lemma Join_cons (w : string) (ws : list string) :
  ws <> [] -> Join (w :: ws) Separator = w ++ Separator ++ Join ws Separator.
Proof. destruct ws; [contradiction|reflexivity]. Qed.

Lemma Split_not_nil (s : string) : Split s SeparatorRune <> [].
Proof. rewrite Split_eta. discriminate. Qed.

(** [strings.Join] undoes [strings.Split]. *)
Lemma Join_Split (s : string) : Join (Split s SeparatorRune) Separator = s.
Proof.
  induction s as [|c s IH]; [reflexivity|].
  rewrite Split_cons. destruct (Ascii.eqb_spec c SeparatorRune) as [->|N].
  - rewrite Join_cons by apply Split_not_nil. rewrite IH. reflexivity.
  - rewrite (Split_eta s) in IH. cbn [hd tl].
    destruct (tl (Split s SeparatorRune)) as [|w ws] eqn:T.
    + cbn [Join] in *. rewrite IH. reflexivity.
    + rewrite Join_cons in * by discriminate. cbn [append]. rewrite IH.
      reflexivity.
Qed.

Lemma filter_all {A} (f : A -> bool) (l : list A) :
  forallb f l = true -> filter f l = l.
Proof.
  induction l as [|x l IH]; [reflexivity|]. cbn [forallb filter].
  intros H. apply andb_true_iff in H as [H1 H2]. rewrite H1, IH; auto.
Qed.

Lemma tail_named (r : string) :
  doubled r = false -> byte_is (lastOf r) SeparatorRune = false ->
  forallb named (tl (Split r SeparatorRune)) = true.
Proof.
  induction r as [|c r IH]; [reflexivity|]. intros D L.
  cbn [doubled] in D. apply orb_false_iff in D as [D1 D2].
  assert (L' : byte_is (lastOf r) SeparatorRune = false).
  { destruct r; [reflexivity|exact L]. }
  specialize (IH D2 L'). rewrite Split_cons.
  destruct (Ascii.eqb c SeparatorRune) eqn:Ec; cbn [tl]; [|exact IH].
  destruct r as [|d r]; [cbn in L; rewrite Ec in L; discriminate|].
  cbn [andb byteAt byte_is] in D1. rewrite Split_cons, D1 in *.
  cbn [forallb tl] in *. rewrite IH. reflexivity.
Qed.

(** A path without leading, doubled or trailing separators is the
    join of its names. *)
Lemma Join_segments (r : string) :
  byte_is (byteAt 0 r) SeparatorRune = false ->
  doubled r = false -> byte_is (lastOf r) SeparatorRune = false ->
  Join (segments r) Separator = r.
Proof.
  intros F D L. destruct r as [|c r]; [reflexivity|].
  pose proof (tail_named _ D L) as T. cbn [byteAt byte_is] in F.
  unfold segments. rewrite filter_all; [apply Join_Split|].
  rewrite Split_cons, F in *. cbn [tl forallb] in *. exact T.
Qed.

End Canonical.

(** What [CleanPath] computes: for a non-empty path, a separator
    followed by the names of the path joined by single separators; the
    names and their order are those of the path it was given. *)
Theorem CleanPath_canonical (p : string) (Hp : 0 < String.length p) :
  CleanPath p = Separator ++ Join (segments p) Separator /\
  segments (CleanPath p) = segments p.
Proof.
  split; [|apply CleanPath_segments].
  destruct (CleanPath_shape p Hp) as (_ & Hs & Hd & Hl).
  rewrite <- (CleanPath_segments p).
  rewrite HasPrefix_sep in Hs. rewrite Contains_double in Hd.
  unfold lastByte in Hl. rewrite byteAt_last in Hl.
  destruct (CleanPath p) as [|c r]; [discriminate|].
  cbn [byteAt byte_is] in Hs. apply Ascii.eqb_eq in Hs. subst c.
  rewrite segments_sep. change (Separator ++ ?x) with (String SeparatorRune x).
  f_equal. symmetry.
  cbn [doubled] in Hd. apply orb_false_iff in Hd as [D1 D2].
  change (Ascii.eqb SeparatorRune SeparatorRune) with true in D1. cbn [andb] in D1.
  apply Join_segments; auto.
  destruct r as [|d r]; [reflexivity|].
  change (lastOf (String SeparatorRune (String d r))) with (lastOf (String d r)) in Hl.
  destruct (byte_is (lastOf (String d r)) SeparatorRune); [|reflexivity].
  discriminate (Hl eq_refl).
Qed.

Lemma CleanPath_canonical_witness :
  CleanPath "a//b///c/" = Separator ++ Join (segments "a//b///c/") Separator /\
  segments (CleanPath "a//b///c/") = segments "a//b///c/".
Proof. apply (CleanPath_canonical "a//b///c/"). simpl. lia. Defined.


(* ================================================================== *)
(** ** References *)
(* ================================================================== *)

Section Reference.

Lemma first_no_colon (fuel : nat) (now : Z) (path cid : string) (size : Z)
      (t : string) (createdAt : Z) (mt' : Trie) (created : list Entry) :
  AddFile fuel now NewTrie (Some (NewEntry path cid size t createdAt))
  = Ret (mt', created, None) ->
  hasColon path = false.
Proof.
  unfold AddFile. destruct (prepared _) as [m [e|]] eqn:P; [discriminate|].
  intros _. apply prepared_ok in P as (_ & _ & C).
  destruct (NewEntry_shape path cid size t createdAt) as [Np _].
  cbv zeta in Np. rewrite Np in C. exact C.
Qed.

Lemma Validate_reference (p bucketID : string) (createdAt : Z) :
  p <> "" -> hasColon p = false -> onlySlashes p = false ->
  Validate (NewEntry p bucketID 0 MIMEReference createdAt)
  = (NewEntry p bucketID 0 MIMEReference createdAt, None).
Proof.
  intros Np C O. destruct (Base_spec p Np) as [B1 B2].
  unfold NewEntry, NewContent.
  change (String.eqb MIMEReference MIMEDriveEntry) with false.
  change (String.eqb MIMEReference MIMEDriveDirectory) with false. cbv iota zeta.
  unfold Validate, EType, IsEmptyFolder, EType, ContentValidate.
  cbn [EContent Type_ Name Path Entries].
  change (String.eqb MIMEReference MIMEDriveDirectory) with false.
  change (String.eqb MIMEReference MIMEDriveEntry) with false.
  assert (L : Nat.eqb (String.length p) 0 = false).
  { destruct p; [contradiction|reflexivity]. }
  rewrite L, andb_false_r, !Contains_colon, C, B1, O, (B2 C).
  reflexivity.
Qed.

Lemma runeOf_sep (r : string) : runeOf (String SeparatorRune r) = 47%N.
Proof. reflexivity. Qed.

Lemma HasPrefix_longer (parent rest : string) :
  rest <> "" -> HasPrefix parent (parent ++ rest) = false.
Proof.
  intros Hr. destruct (HasPrefix parent (parent ++ rest)) eqn:E; [|reflexivity].
  apply HasPrefix_length in E. rewrite length_append in E.
  destruct rest; [contradiction|]. simpl in E. lia.
Qed.

(** Putting an entry back into the empty folder that its removal left
    behind. *)
Lemma addTo_placeholder (now : Z) (parent name : string) (t : Z) (what : Entry) :
  Path what = parent ++ Separator ++ name ->
  Entries what = [] -> isEntryType (EContent what) = false ->
  exists created,
    addTo now (NewEntry parent "" 0 MIMEDriveEntry t) what
    = Ret (mkEntry (EContent what) (Path what) [] None, created, None).
Proof.
  intros Pw Ew Tw. rewrite NewEntry_folder, addTo_unfold. cbv zeta.
  cbn [Path Entries EContent]. rewrite Pw.
  rewrite HasPrefix_longer by discriminate. rewrite HasPrefix_append.
  unfold trimPrefix. rewrite Pw, TrimPrefix_append.
  change (Separator ++ name) with (String SeparatorRune name).
  cbn [String.length Nat.eqb setPath Path].
  cbn [addToEach Path]. rewrite runeOf_sep.
  change (runeOf SpecialPathSymbol) with 58%N. cbn [N.eqb Pos.eqb negb].
  unfold add, isEntryType, IsEmptyFolder, EType, setPath, setContent, setEntries.
  cbn [EContent Type_ Path Entries EMeta].
  change (String.eqb MIMEDriveEntry MIMEDriveEntry) with true.
  change (String.eqb SpecialPathSymbol SpecialPathSymbol) with true.
  cbn [negb andb firstByte bind].
  change (Ascii.eqb SeparatorRune SeparatorRune) with true. cbv iota.
  unfold isEntryType in Tw. rewrite Tw. cbn [negb bind]. 
  eexists. reflexivity.
Qed.

End Reference.

(** A file becomes a reference.  On the trie that holds one file,
    placed there by [AddFile], [CreateRef] at the file's path returns the
    file as the one removed entry, under its cleaned path, and leaves a
    trie that holds the reference instead: a leaf of type [MIMEReference]
    whose [cid] is the bucket. *)
Theorem CreateRef_first_file (fuel : nat) (now : Z) (path cid : string) (size : Z)
      (t : string) (createdAt : Z) (mt' : Trie) (created : list Entry)
  (H : AddFile fuel now NewTrie (Some (NewEntry path cid size t createdAt))
       = Ret (mt', created, None))
  (Ht : String.eqb t MIMEDriveEntry = false)
  (fuel' : nat) (now' : Z) (bucketID : string) (refAt : Z) :
  let p := CleanPath path in
  let c := mkContent (Base path) cid (if String.eqb t "" then MIMEOctetStream else t)
                     size 1 createdAt in
  CreateRef fuel' now' mt' path bucketID refAt
  = Ret (Some (NewEntry p bucketID 0 MIMEReference refAt),
         [mkEntry c p [] None], None).
Proof.
  destruct (first_root _ _ _ _ _ _ _ _ _ H) as [Np R].
  pose proof (first_no_colon _ _ _ _ _ _ _ _ _ H) as C.
  rewrite Ht in R. destruct R as (O & Td & ->). cbv zeta.
  set (p := CleanPath path).
  set (c := mkContent _ _ _ _ _ _).
  assert (Hp : 0 < String.length path).
  { destruct path; [contradiction|simpl; lia]. }
  assert (Tc : isEntryType c = false).
  { unfold isEntryType, c. cbn [Type_].
    destruct (String.eqb_spec t "") as [->|_]; [reflexivity|exact Ht]. }
  assert (Pn : p <> "") by (apply CleanPath_nonempty, Hp).
  assert (V : Validate (NewEntry p bucketID 0 MIMEReference refAt)
              = (NewEntry p bucketID 0 MIMEReference refAt, None)).
  { apply Validate_reference; [exact Pn|now apply hasColon_CleanPath|].
    unfold p. rewrite onlySlashes_CleanPath. exact O. }
  assert (J : JoinPath [p; ""] = p).
  { destruct (CleanPath_shape path Hp) as (_ & Hs & Hd & Hl).
    rewrite (JoinPath_normal p "" Hs Hd Hl eq_refl). reflexivity. }
  unfold CreateRef.
  destruct (Nat.eqb_spec (String.length path) 0) as [E|_]; [lia|].
  destruct (String.eqb_spec path Separator) as [E|_]; [rewrite E in O; discriminate|].
  unfold createRef. rewrite find_unfold. cbv zeta.
  cbn [Path EContent Entries EMeta]. rewrite TrimPrefix_refl, Tc.
  cbn [String.length Nat.eqb andb negb deref contentAt EContent bind rev app].
  cbn [removeEach Path setPath]. unfold setPath. cbn [Path EContent Entries EMeta].
  fold p. rewrite J.
  change p with (Path (mkEntry c p [] None)) at 1.
  rewrite rm_sole by (cbn [EContent]; rewrite Tc; reflexivity).
  unfold deleteOrConvert. cbn [Path EContent].
  destruct (Z.leb_spec (LastIndex p Separator) 0) as [L|L].
  - cbn [removeEach bind rev app]. rewrite V. cbn [bind].
    rewrite copyContent_id. reflexivity.
  - cbn [removeEach bind rev app]. rewrite V.
    unfold CopyFrom. rewrite copy_id.
    destruct (parent_clean path Hp L) as (E & Ns & Nn & _). fold p in E.
    destruct (addTo_placeholder now' _ _ (CreatedAt c)
                (NewEntry p bucketID 0 MIMEReference refAt) E eq_refl eq_refl)
      as (cr & A).
    fold p in A. rewrite A. cbn [bind]. rewrite copyContent_id. reflexivity.
Qed.

Lemma CreateRef_first_file_witness :
  let p := CleanPath "/docs/readme" in
  let c := mkContent (Base "/docs/readme") "cid1"
                     (if String.eqb MIMEOctetStream "" then MIMEOctetStream
                      else MIMEOctetStream)
                     100 1 1700000000 in
  CreateRef 1 0 (Some readme) "/docs/readme" "bucket" 1700000500
  = Ret (Some (NewEntry p "bucket" 0 MIMEReference 1700000500),
         [mkEntry c p [] None], None).
Proof.
  apply (CreateRef_first_file 1 0 "/docs/readme" "cid1" 100 MIMEOctetStream
           1700000000 (Some readme) []).
  - reflexivity.
  - reflexivity.
Defined.


Section ColonKept.

Lemma hasColon_Split (s : string) :
  hasColon s = existsb hasColon (Split s SeparatorRune).
Proof.
  induction s as [|c s IH]; [reflexivity|].
  rewrite Split_cons. cbn [hasColon].
  destruct (Ascii.eqb_spec c SeparatorRune) as [->|N].
  - cbn [existsb hasColon]. exact IH.
  - rewrite (Split_eta s) in IH. cbn [existsb hasColon hd tl] in *.
    rewrite IH, orb_assoc. reflexivity.
Qed.

Lemma existsb_named (l : list string) :
  existsb hasColon (filter named l) = existsb hasColon l.
Proof.
  induction l as [|w l IH]; [reflexivity|]. cbn [filter existsb].
  destruct w as [|c w]; [exact IH|].
  change (named (String c w)) with true. cbv iota. cbn [existsb].
  rewrite IH. reflexivity.
Qed.

(** [CleanPath] neither removes nor adds a ":". *)
Lemma hasColon_CleanPath_eq (p : string) : hasColon (CleanPath p) = hasColon p.
Proof.
  rewrite (hasColon_Split (CleanPath p)), (hasColon_Split p).
  rewrite <- (existsb_named (Split (CleanPath p) _)), <- (existsb_named (Split p _)).
  fold (segments (CleanPath p)). fold (segments p).
  rewrite CleanPath_segments. reflexivity.
Qed.

Lemma createRef_colon (fuel : nat) (now : Z) (p b : string) (root : Entry) (t : Z)
      (mt1 : Trie) (l1 : list Entry) (err : option error) :
  p <> "" -> hasColon p = true ->
  createRef fuel now p b root t = Ret (mt1, l1, err) ->
  err = Some ErrIllegalPathChars \/ err = Some ErrFileNotExist.
Proof.
  intros Np C. pose proof (Validate_NewEntry p b 0 MIMEReference t) as V.
  unfold rejection in V.
  change (String.eqb MIMEReference MIMEDriveDirectory) with false in V.
  destruct (String.eqb_spec p "") as [|_]; [contradiction|]. rewrite C in V.
  cbv iota in V.
  unfold createRef. destruct (find p root) as [root' f].
  intros H. apply bind_Ret in H as (found & _ & H).
  destruct found as [entries|]; [|injection H as _ _ <-; auto].
  apply bind_Ret in H as ([removed mt] & _ & H).
  destruct (Validate _) as [refEntry e]. cbn [snd] in V. subst e.
  injection H as _ _ <-. auto.
Qed.

End ColonKept.

(** The errors of [CreateRef]: the empty path, the root and the empty
    trie are turned down with the trie untouched; for a path with a ":"
    it never succeeds and hands back no entries, whatever the trie. *)
Theorem CreateRef_rejects :
  (forall fuel now mt b t,
      CreateRef fuel now mt "" b t = Ret (mt, [], Some ErrEmptyPath)) /\
  (forall fuel now mt b t,
      CreateRef fuel now mt Separator b t = Ret (mt, [], Some ErrCantCreateRef)) /\
  (forall fuel now path b t,
      path <> "" -> path <> Separator ->
      CreateRef fuel now NewTrie path b t = Ret (NewTrie, [], Some ErrFileNotExist)) /\
  (forall fuel now mt path b t mt' l err,
      hasColon path = true ->
      CreateRef fuel now mt path b t = Ret (mt', l, err) ->
      l = [] /\ (err = Some ErrIllegalPathChars \/ err = Some ErrFileNotExist)).
Proof.
  split; [reflexivity|]. split; [reflexivity|]. split.
  - intros fuel now path b t Np Ns. unfold CreateRef.
    destruct (Nat.eqb_spec (String.length path) 0) as [E|_].
    { apply length_zero in E. contradiction. }
    destruct (String.eqb_spec path Separator) as [E|_]; [contradiction|].
    reflexivity.
  - intros fuel now mt path b t mt' l err C H.
    assert (R : err = Some ErrIllegalPathChars \/ err = Some ErrFileNotExist).
    { revert H. unfold CreateRef.
      destruct (Nat.eqb_spec (String.length path) 0) as [E|_].
      { apply length_zero in E. subst path. discriminate. }
      destruct (String.eqb_spec path Separator) as [->|_]; [discriminate|].
      destruct mt as [root|]; [|intros [= _ _ <-]; auto].
      intros H. apply bind_Ret in H as ([[mt1 l1] e] & Hc & H).
      apply createRef_colon in Hc.
      + destruct Hc as [-> | ->]; injection H as _ _ <-; auto.
      + apply CleanPath_nonempty. destruct path; [discriminate|simpl; lia].
      + rewrite hasColon_CleanPath_eq. exact C. }
    split; [|exact R].
    revert H. unfold CreateRef.
    destruct (Nat.eqb (String.length path) 0); [intros [= _ <- _]; reflexivity|].
    destruct (String.eqb path Separator); [intros [= _ <- _]; reflexivity|].
    destruct mt as [root|]; [|intros [= _ <- _]; reflexivity].
    intros H. apply bind_Ret in H as ([[mt1 l1] [e|]] & _ & H);
      injection H as _ <- <-; [reflexivity|].
    destruct R; discriminate.
Qed.


(* ================================================================== *)
(** ** The directory tree *)
(* ================================================================== *)

Section TreeFacts.

Lemma allDirs_unfold (e : Entry) :
  allDirs e = String.eqb (EType e) MIMEDriveDirectory && forallb allDirs (Entries e).
Proof. destruct e; reflexivity. Qed.

Lemma NewEntry_dir (path : string) (size t : Z) :
  NewEntry path "" size MIMEDriveDirectory t
  = mkEntry (mkContent (Base path) "" MIMEDriveDirectory size 0 t) path [] None.
Proof. reflexivity. Qed.

Lemma directoriesFromContents_dirs (path : string) (cs : list Content) :
  Forall public cs ->
  forallb allDirs (directoriesFromContents path cs) = true.
Proof.
  induction 1 as [|c cs Hc _ IH]; [reflexivity|].
  unfold directoriesFromContents in *. cbn [flat_map].
  unfold public, isEntryType in Hc. rewrite Hc, orb_false_r.
  destruct (String.eqb_spec (Type_ c) MIMEDriveDirectory) as [E|_]; [|exact IH].
  rewrite E, NewEntry_dir. cbn [app forallb]. rewrite IH. reflexivity.
Qed.

Lemma treeEach_dirs (rec : Entry -> string -> outcome Entry) (p : string)
      (es : list Entry) :
  (forall c q c', allDirs c = true -> rec c q = Ret c' ->
                  allDirs c' = true /\ Path c' = Path c) ->
  forallb allDirs es = true ->
  forall es', treeEach rec p es = Ret es' -> forallb allDirs es' = true.
Proof.
  intros Hrec. induction es as [|c tl IH]; cbn [treeEach forallb]; intros A es'.
  { intros [= <-]. reflexivity. }
  apply andb_true_iff in A as [Ac At].
  intros H. apply bind_Ret in H as (c' & Hc & H).
  apply bind_Ret in H as (tl' & Ht & H). injection H as <-.
  cbn [forallb]. rewrite (IH At _ Ht), andb_true_r.
  destruct (_ || _); [|injection Hc as <-; exact Ac].
  eapply Hrec; eauto.
Qed.

Lemma tree_dirs (fuel : nat) :
  forall dir p subtrie d,
    allDirs dir = true -> tree fuel dir p subtrie = Ret d ->
    allDirs d = true /\ Path d = Path dir.
Proof.
  induction fuel as [|k IH]; intros dir p subtrie d A; cbn [tree]; [discriminate|].
  intros H. apply bind_Ret in H as (es' & He & H). injection H as <-.
  rewrite allDirs_unfold in A. apply andb_true_iff in A as [A1 A2].
  split; [|reflexivity].
  rewrite allDirs_unfold. unfold setEntries, EType in *. cbn [EContent Entries].
  rewrite A1. cbn [andb].
  eapply treeEach_dirs; [ | | exact He].
  - intros c q c' Ac. apply IH, Ac.
  - rewrite forallb_app, A2. cbn [andb].
    apply directoriesFromContents_dirs, list_public.
Qed.

End TreeFacts.

(** [Tree] returns directories only: when it returns, the root of the
    result is a directory at the cleaned path ("/" for the empty path)
    and every node below it is a directory; files are never part of it. *)
Theorem Tree_only_directories (fuel : nat) (now : Z) (mt : Trie) (path : string)
      (d : Entry)
  (H : Tree fuel now mt path = Ret d) :
  allDirs d = true /\
  Path d = (if String.eqb (CleanPath path) "" then "/" else CleanPath path).
Proof.
  unfold Tree in H.
  set (t := if String.eqb (CleanPath path) ""
            then NewEntry "/" "" 0 MIMEDriveDirectory now
            else NewEntry (CleanPath path) "" 0 MIMEDriveDirectory now) in *.
  assert (T : allDirs t = true /\
              Path t = (if String.eqb (CleanPath path) "" then "/"
                        else CleanPath path)).
  { unfold t. destruct (String.eqb (CleanPath path) ""); split; reflexivity. }
  destruct T as [T1 T2]. destruct mt as [root|].
  - destruct (tree_dirs _ _ _ _ _ T1 H) as [A P]. rewrite P. auto.
  - injection H as <-. auto.
Qed.

Lemma Tree_only_directories_witness :
  exists d,
    Tree 4 0 srcTrie "" = Ret d /\
    List.length (Entries d) = 2 /\
    allDirs d = true /\
    Path d = (if String.eqb (CleanPath "") "" then "/" else CleanPath "").
Proof.
  eexists. split; [vm_compute; reflexivity|]. split; [reflexivity|].
  apply (Tree_only_directories 4 0 srcTrie ""). vm_compute. reflexivity.
Defined.


(* ================================================================== *)
(** ** To protobuf and back *)
(* ================================================================== *)

Section Proto.



End Proto.



(* ================================================================== *)
(** ** [commonPrefix] is the longest *)
(* ================================================================== *)

Section Longest.

Lemma Runes_tail (c s : string) : runeShape c -> Runes (c ++ s) -> Runes s.
Proof.
  intros Sc R. apply ValidString_Runes in R. apply ValidString_Runes.
  pose proof (shape_runeLen c s Sc) as E.
  destruct (shape_lead c Sc) as (x & r & -> & _).
  unfold ValidString in *. cbn [append validFrom] in R.
  cbn [append] in E. rewrite E in R. cbn [String.length] in R.
  rewrite validFrom_append in R. exact R.
Qed.

Lemma HasPrefix_cancel (c s q : string) :
  HasPrefix (c ++ s) (c ++ q) = HasPrefix s q.
Proof.
  induction c as [|x c IH]; [reflexivity|].
  cbn [append HasPrefix]. rewrite Ascii.eqb_refl. exact IH.
Qed.

Lemma commonPrefix_over (q : string) :
  Runes q -> forall a b,
    Runes a -> Runes b -> HasPrefix a q = true -> HasPrefix b q = true ->
    HasPrefix (commonPrefix a b) q = true.
Proof.
  induction 1 as [|c q Hc Hq IH]; intros a b Ra Rb Pa Pb.
  { apply HasPrefix_nil. }
  apply isRune_shape in Hc.
  apply HasPrefix_split in Pa, Pb. rewrite append_assoc in Pa, Pb.
  set (a' := drop (String.length (c ++ q)) a) in *.
  set (b' := drop (String.length (c ++ q)) b) in *.
  rewrite Pa in Ra. rewrite Pb in Rb.
  apply (Runes_tail _ _ Hc) in Ra. apply (Runes_tail _ _ Hc) in Rb.
  rewrite Pa, Pb, commonPrefix_same by auto using Runes_starts.
  rewrite HasPrefix_cancel. apply IH; auto using HasPrefix_append.
Qed.

Lemma matchLen_refl (a : string) : matchLen a a = String.length a.
Proof.
  induction a as [|x a IH]; [reflexivity|].
  cbn [matchLen String.length]. rewrite Ascii.eqb_refl, IH. reflexivity.
Qed.

Lemma backUp_end (a : string) : backUp a (String.length a) = String.length a.
Proof.
  destruct (String.length a) as [|n] eqn:E; [reflexivity|].
  cbn [backUp]. rewrite <- E.
  replace (byteAt (String.length a) a) with (@None ascii); [reflexivity|].
  symmetry. clear. induction a as [|x a IH]; [reflexivity|exact IH].
Qed.

Lemma take_all (a : string) : take (String.length a) a = a.
Proof. induction a as [|x a IH]; [reflexivity|]. cbn. now rewrite IH. Qed.

End Longest.

(** [commonPrefix] is the longest common prefix that ends on a rune
    boundary: every valid UTF-8 string that is a prefix of both [a] and
    [b] is a prefix of [commonPrefix(a, b)].  Of a string and itself it is
    the string, valid UTF-8 or not. *)
Theorem commonPrefix_longest (a b q : string)
  (Ha : ValidString a = true) (Hb : ValidString b = true)
  (Hq : ValidString q = true)
  (Pa : HasPrefix a q = true) (Pb : HasPrefix b q = true) :
  HasPrefix (commonPrefix a b) q = true /\
  String.length q <= String.length (commonPrefix a b) /\
  (forall s, commonPrefix s s = s).
Proof.
  apply ValidString_Runes in Ha, Hb, Hq.
  pose proof (commonPrefix_over q Hq a b Ha Hb Pa Pb) as P.
  split; [exact P|]. split; [apply HasPrefix_length, P|].
  intros s. unfold commonPrefix. rewrite matchLen_refl, backUp_end. apply take_all.
Qed.

Lemma commonPrefix_longest_witness :
  let a := "/folder/" ++ smiley ++ "file" in
  let b := "/folder/" ++ grin ++ "file" in
  HasPrefix (commonPrefix a b) "/folder/" = true /\
  String.length "/folder/" <= String.length (commonPrefix a b) /\
  (forall s, commonPrefix s s = s).
Proof.
  intros a b. apply (commonPrefix_longest a b "/folder/"); reflexivity.
Defined.


(* ================================================================== *)
(** ** Queries do not write *)
(* ================================================================== *)

Section Plain.

Lemma plain_node (e : Entry) :
  plain e = negb (isDirType (EContent e)) && forallb plain (Entries e).
Proof. destruct e; reflexivity. Qed.

Lemma plain_parts (e : Entry) :
  plain e = true -> isDirType (EContent e) = false /\ forallb plain (Entries e) = true.
Proof.
  rewrite plain_node. intros H. apply andb_true_iff in H as [H1 H2].
  apply negb_true_iff in H1. auto.
Qed.

Lemma plain_build (c : Content) (p : string) (es : list Entry) (m : option Meta) :
  isDirType c = false -> forallb plain es = true -> plain (mkEntry c p es m) = true.
Proof. intros H1 H2. rewrite plain_node. cbn [EContent Entries]. now rewrite H1, H2. Qed.

Lemma plain_path (p : string) (e : Entry) : plain (setPath p e) = plain e.
Proof. rewrite !plain_node. reflexivity. Qed.

Lemma plain_trimPrefix (e : Entry) (p : string) : plain (trimPrefix e p) = plain e.
Proof. unfold trimPrefix. apply plain_path. Qed.

Lemma forallb_snoc (es : list Entry) (x : Entry) :
  forallb plain es = true -> plain x = true -> forallb plain (es ++ [x]) = true.
Proof. intros H1 H2. rewrite forallb_app, H1. cbn. now rewrite H2. Qed.

Lemma entryType_plain (t : Z) : isDirType (NewContent "" "" 0 MIMEDriveEntry t) = false.
Proof. reflexivity. Qed.

Lemma split_plain (sp : string) (me what : Entry) (b : bool) :
  plain me = true -> plain what = true -> plain (split sp me what b) = true.
Proof.
  intros Hm Hw. destruct (plain_parts _ Hm) as [M1 M2].
  destruct (plain_parts _ Hw) as [W1 W2]. unfold split.
  assert (N : plain (mkEntry (EContent me) (Path (trimPrefix me sp)) (Entries me) None)
              = true) by now apply plain_build.
  destruct (_ && _).
  - unfold CopyFrom. rewrite copy_id. unfold setEntries.
    apply plain_build; [exact W1|]. now apply forallb_snoc.
  - apply plain_build; [reflexivity|]. cbn [forallb]. rewrite N.
    destruct b; rewrite ?plain_trimPrefix, Hw; reflexivity.
Qed.

Lemma extend_plain (subtrie what s : Entry) (e : option error) :
  plain subtrie = true -> plain what = true ->
  extend subtrie what = Ret (s, e) -> plain s = true.
Proof.
  intros Hs Hw. unfold extend.
  destruct (negb _); [intros [= <- _]; exact Hs|].
  intros H. apply bind_Ret in H as (conflict & _ & H).
  destruct conflict; injection H as <- _; [exact Hs|].
  destruct (plain_parts _ Hs) as [S1 S2]. unfold setEntries.
  apply plain_build; [exact S1|]. apply forallb_snoc; [exact S2|].
  now rewrite plain_path.
Qed.

Lemma addOverSentinel_plain (what : Entry) (es es' : list Entry) (e : option error) :
  plain what = true -> forallb plain es = true ->
  addOverSentinel what es = Some (es', e) -> forallb plain es' = true.
Proof.
  intros Hw. revert es'. induction es as [|me tl IH]; intros es' H;
    cbn [addOverSentinel]; [discriminate|].
  cbn [forallb] in H. apply andb_true_iff in H as [H1 H2].
  destruct (String.eqb (Path me) SpecialPathSymbol).
  - destruct (negb _); intros [= <- _]; cbn [forallb].
    + now rewrite H1, H2.
    + unfold CopyFrom. now rewrite copy_id, Hw, H2.
  - destruct (addOverSentinel what tl) as [[tl' err]|]; [|discriminate].
    intros [= <- <-]. cbn [forallb]. rewrite H1. eapply IH; eauto.
Qed.

Lemma add_plain (subtrie what s : Entry) (e : option error) :
  plain subtrie = true -> plain what = true ->
  add subtrie what = Ret (s, e) -> plain s = true.
Proof.
  intros Hs Hw. destruct (plain_parts _ Hs) as [S1 S2].
  destruct (plain_parts _ Hw) as [W1 W2]. unfold add.
  destruct (negb _); [intros [= <- _]; exact Hs|].
  intros H. apply bind_Ret in H as (c & _ & H).
  assert (A : plain (setEntries (Entries subtrie ++ [what]) subtrie) = true).
  { unfold setEntries. apply plain_build; [exact S1|]. now apply forallb_snoc. }
  destruct (Ascii.eqb c SeparatorRune); [|injection H as <- _; exact A].
  destruct (IsEmptyFolder subtrie).
  - injection H as <- _. unfold setContent, setPath, setEntries.
    cbn [EContent Path Entries EMeta].
    destruct (negb _); apply plain_build; auto.
  - destruct (addOverSentinel what (Entries subtrie)) as [[es err]|] eqn:E;
      injection H as <- _; [|exact A].
    unfold setEntries. apply plain_build; [exact S1|].
    exact (addOverSentinel_plain what _ _ _ Hw S2 E).
Qed.

Lemma addToEach_plain (rec : Entry -> outcome (Entry * list Entry * option error))
      (rune : N) (es : list Entry) :
  Forall (fun me => plain me = true ->
                    forall s cr e, rec me = Ret (s, cr, e) -> plain s = true) es ->
  forallb plain es = true ->
  forall o es' cr e,
    addToEach rec rune es = Some o -> o = Ret (es', cr, e) ->
    forallb plain es' = true.
Proof.
  induction 1 as [|me tl Hme _ IH]; intros P o es' cr e; cbn [addToEach];
    [discriminate|].
  cbn [forallb] in P. apply andb_true_iff in P as [P1 P2].
  destruct (negb _).
  - destruct (addToEach rec rune tl) as [o'|]; [|discriminate].
    intros [= <-] H. apply bind_Ret in H as ([[tl' cr'] err'] & Ho & H).
    injection H as <- _ _. cbn [forallb]. rewrite P1. eapply IH; eauto.
  - intros [= <-] H. apply bind_Ret in H as ([[me' cr'] err'] & Ho & H).
    injection H as <- _ _. cbn [forallb]. rewrite P2, (Hme P1 _ _ _ Ho). reflexivity.
Qed.

Lemma addTo_plain (now : Z) (subtrie : Entry) :
  plain subtrie = true ->
  forall what s cr e,
    plain what = true -> addTo now subtrie what = Ret (s, cr, e) -> plain s = true.
Proof.
  induction subtrie as [c p es m IH] using Entry_induction.
  intros Hs what s cr e Hw. rewrite addTo_unfold. cbv zeta.
  cbn [Path Entries EContent EMeta].
  destruct (plain_parts _ Hs) as [S1 S2]. cbn [EContent Entries] in S1, S2.
  destruct (plain_parts _ Hw) as [W1 W2].
  destruct (HasPrefix p (Path what)).
  { destruct (Nat.eqb _ 0).
    - intros H. apply bind_Ret in H as ([s' err] & He & H).
      injection H as <- _ _. exact (extend_plain _ _ _ _ Hs Hw He).
    - destruct (byte_is _ _); intros [= <- _ _]; [exact Hs|].
      now apply split_plain. }
  destruct (HasPrefix (Path what) p).
  { destruct es as [|e0 es].
    - destruct (_ || _).
      + destruct (isEntryType c); [|intros [= <- _ _]; exact Hs].
        destruct (Nat.eqb _ 0); intros [= <- _ _]; apply plain_build; auto.
      + intros [= <- _ _]. apply split_plain; [exact Hs|].
        now rewrite plain_trimPrefix.
    - destruct (addToEach _ _ _) as [o|] eqn:E.
      + intros H. apply bind_Ret in H as ([[es' cr'] err'] & Ho & H).
        injection H as <- _ _. apply plain_build; [exact S1|].
        eapply addToEach_plain; [|exact S2|exact E|exact Ho].
        eapply Forall_impl; [|exact IH]. intros me Hme Pm s2 cr2 e2.
        apply Hme; [exact Pm|]. now rewrite plain_trimPrefix.
      + intros H. apply bind_Ret in H as ([s' err] & Ha & H).
        injection H as <- _ _. eapply add_plain; [exact Hs| |exact Ha].
        now rewrite plain_trimPrefix. }
  intros H. apply bind_Ret in H as (ch & _ & H). injection H as <- _ _.
  now apply split_plain.
Qed.

Lemma NewEntry_plain (path cid : string) (size : Z) (t : string) (createdAt : Z) :
  String.eqb t MIMEDriveDirectory = false ->
  forall c, Type_ c = Type_ (EContent (NewEntry path cid size t createdAt)) \/
            Type_ c = MIMEOctetStream ->
            isDirType c = false.
Proof.
  intros Td c [E|E]; unfold isDirType; rewrite E; [|reflexivity].
  unfold NewEntry, NewContent.
  destruct (String.eqb t MIMEDriveEntry) eqn:Te; cbn [EContent Type_]; auto.
Qed.

Lemma prepared_plain (path cid : string) (size : Z) (t : string) (createdAt : Z)
      (m : Entry) :
  prepared (NewEntry path cid size t createdAt) = (m, None) -> plain m = true.
Proof.
  intros P. pose proof (Validate_NewEntry path cid size t createdAt) as V.
  rewrite <- prepared_error, P in V. cbn [snd] in V. unfold rejection in V.
  destruct (String.eqb t MIMEDriveDirectory) eqn:Td; [discriminate|].
  apply prepared_value in P. subst m. rewrite plain_path.
  unfold setContent. apply plain_build.
  - eapply NewEntry_plain; [exact Td|]. unfold ContentValidate.
    destruct (_ || _); [left; reflexivity|].
    destruct (Nat.eqb _ 0); [right|left]; reflexivity.
  - unfold NewEntry. destruct (String.eqb_spec t MIMEDriveEntry) as [->|_]; reflexivity.
Qed.

Lemma deleteOrConvert_plain (md s : Entry) (found : bool) :
  plain md = true -> deleteOrConvert md = (s, found) -> plain s = true.
Proof.
  intros H. unfold deleteOrConvert. destruct (_ <=? _)%Z; intros [= <- _]; [exact H|].
  reflexivity.
Qed.

Lemma forallb_remove_plain (es : list Entry) (i : nat) :
  forallb plain es = true ->
  forallb plain (firstn i es ++ skipn (S i) es) = true.
Proof.
  revert i. induction es as [|x es IH]; intros i H.
  - destruct i; reflexivity.
  - cbn [forallb] in H. apply andb_true_iff in H as [H1 H2].
    destruct i as [|i]; cbn [firstn skipn app forallb]; [exact H2|].
    rewrite H1. apply IH, H2.
Qed.

Lemma removeAndMerge_plain (subtrie s : Entry) (i : nat) (found : bool) :
  plain subtrie = true -> removeAndMerge subtrie i = (s, found) -> plain s = true.
Proof.
  intros H. destruct (plain_parts _ H) as [S1 S2]. unfold removeAndMerge.
  destruct (Nat.leb _ 1); [intros [= <- _]; exact H|].
  pose proof (forallb_remove_plain _ i S2) as R.
  destruct (firstn i (Entries subtrie) ++ skipn (S i) (Entries subtrie))%list
    as [|e0 [|e1 es]] eqn:E.
  - intros [= <- _]. unfold setEntries. now apply plain_build.
  - cbn [forallb] in R. rewrite andb_true_r in R.
    destruct (plain_parts _ R) as [R1 R2].
    destruct (negb (String.eqb _ _)); [intros [= <- _]; now apply plain_build|].
    destruct (negb (isEntryType _)); intros [= <- _]; apply plain_build; auto.
    cbn [forallb]. now rewrite R.
  - intros [= <- _]. unfold setEntries. now apply plain_build.
Qed.

Lemma rmEach_plain (rec : Entry -> Entry * bool) (atEnd : bool) (sub : string)
      (es : list Entry) :
  Forall (fun me => plain me = true ->
                    forall s' found, rec me = (s', found) -> plain s' = true) es ->
  forallb plain es = true ->
  forall i es' unlink,
    rmEach rec atEnd sub i es = (es', unlink) -> forallb plain es' = true.
Proof.
  induction 1 as [|me tl Hme _ IH]; intros P i es' unlink; cbn [rmEach].
  { intros [= <- _]. reflexivity. }
  pose proof P as P0.
  cbn [forallb] in P. apply andb_true_iff in P as [P1 P2].
  assert (Step : forall es1 u1,
             (let '(tl', r) := rmEach rec atEnd sub (S i) tl in (me :: tl', r))
             = (es1, u1) -> forallb plain es1 = true).
  { intros es1 u1. destruct (rmEach rec atEnd sub (S i) tl) as [tl' r] eqn:E.
    intros [= <- _]. cbn [forallb]. rewrite P1. eapply IH; eauto. }
  destruct atEnd.
  - destruct (String.eqb (Path me) SpecialPathSymbol); [|apply Step].
    intros [= <- _]. exact P0.
  - destruct (HasPrefix sub (Path me)).
    + destruct (rec me) as [me' found] eqn:E. intros [= <- _].
      cbn [forallb]. rewrite P2, (Hme P1 _ _ eq_refl). reflexivity.
    + destruct (HasPrefix (Path me) sub); [|apply Step].
      intros [= <- _]. exact P0.
Qed.

Lemma rm_plain (subtrie : Entry) :
  plain subtrie = true ->
  forall p s' found, rm p subtrie = (s', found) -> plain s' = true.
Proof.
  induction subtrie as [c q es m IH] using Entry_induction.
  intros H p s' found. rewrite rm_unfold. cbv zeta.
  cbn [Path Entries EContent EMeta].
  destruct (plain_parts _ H) as [S1 S2]. cbn [EContent Entries] in S1, S2.
  destruct (_ && _); [apply deleteOrConvert_plain, H|].
  destruct (rmEach _ _ _ _ _) as [es' unlink] eqn:E.
  assert (P : plain (mkEntry c q es' m) = true).
  { apply plain_build; [exact S1|].
    eapply rmEach_plain; [|exact S2|exact E].
    eapply Forall_impl; [|exact IH]. intros me Hme Pm s2 f2. now apply Hme. }
  destruct unlink as [i|]; [|intros [= <- _]; exact P].
  apply removeAndMerge_plain, P.
Qed.

Lemma reachable_plain (mt : Trie) : reachable mt -> plainTrie mt.
Proof.
  induction 1 as [| fuel now mt mt' created path cid size t createdAt _ IH H
                  | mt path _ IH].
  - exact I.
  - unfold AddFile in H.
    destruct (prepared _) as [m [e|]] eqn:P; [discriminate|].
    apply prepared_plain in P. destruct mt as [root|].
    + apply bind_Ret in H as ([[root' cr] err'] & Ha & H).
      injection H as <- _ _. rewrite copy_id in Ha.
      eapply addTo_plain; [exact IH|exact P|exact Ha].
    + apply bind_Ret in H as (cr & _ & H). injection H as <- _. exact P.
  - unfold Delete. destruct (Nat.eqb _ 0); [exact IH|].
    destruct mt as [root|]; [|exact I].
    destruct (rm (CleanPath path) root) as [root' item] eqn:E.
    destruct item; [exact I|]. eapply rm_plain; eauto.
Qed.

Lemma contentAt_plain (route : list nat) :
  forall e f, plain e = true -> contentAt route e = Some f -> isDirType f = false.
Proof.
  induction route as [|i r IH]; intros e f P; cbn [contentAt].
  - intros [= <-]. now apply plain_parts in P.
  - destruct (nth_error (Entries e) i) as [me|] eqn:N; [|discriminate].
    apply IH. apply plain_parts in P as [_ P].
    rewrite forallb_forall in P. apply P. eapply nth_error_In, N.
Qed.

(** On such a trie [find] writes nothing. *)
Lemma find_plain (e : Entry) (p : string) :
  plain e = true -> fst (find p e) = e.
Proof.
  intros P. destruct (find p e) as [e' r] eqn:F. cbn [fst].
  pose proof (find_quiet _ _ _ _ F) as Q.
  destruct r as [[c|route]|]; cbn [quiet] in Q.
  - apply Q.
  - destruct Q as (f & C & _ & S). apply S. eapply contentAt_plain; eauto.
  - exact Q.
Qed.

End Plain.

(** Queries do not write.  [find] hands out pointers into the trie and
    [updateFolderEntry] writes through them, but only to contents of type
    [MIMEDriveDirectory], and no trie built by [AddFile] and [Delete]
    stores one: [File] leaves every such trie exactly as it was, and so
    does a [Replace] that reports an error. *)
Theorem queries_do_not_write (mt : Trie) (R : reachable mt) :
  plainTrie mt /\
  (forall path, fst (fst (File mt path)) = mt) /\
  (forall path cnt mt' new old e,
      Replace mt path cnt = (mt', new, old, Some e) -> mt' = mt).
Proof.
  pose proof (reachable_plain mt R) as P. split; [exact P|]. split.
  - intros path. unfold File. destruct (Nat.eqb _ 0); [reflexivity|].
    destruct mt as [root|]; [|reflexivity].
    pose proof (find_plain root (CleanPath path) P) as F.
    destruct (find (CleanPath path) root) as [root' [r|]]; cbn [fst] in F; subst root'.
    + destruct (deref r root); reflexivity.
    + reflexivity.
  - intros path cnt mt' new old e. unfold Replace.
    destruct (Nat.eqb _ 0); [intros [= <- _ _ _]; reflexivity|].
    destruct mt as [root|]; [|intros [= <- _ _ _]; reflexivity].
    pose proof (find_plain root (CleanPath path) P) as F.
    destruct (find (CleanPath path) root) as [root' [r|]]; cbn [fst] in F; subst root'.
    + discriminate.
    + intros [= <- _ _ _]. reflexivity.
Qed.

Lemma queries_do_not_write_witness :
  let mt := thenAdd (thenAdd NewTrie logoPng) logoSvg in
  plainTrie mt /\
  (forall path, fst (fst (File mt path)) = mt) /\
  (forall path cnt mt' new old e,
      Replace mt path cnt = (mt', new, old, Some e) -> mt' = mt).
Proof.
  apply queries_do_not_write.
  eapply (reach_add 8 0 (thenAdd NewTrie logoPng) _ _
            "/img/logo.svg" "cid2" 20 MIMEOctetStream 1700000000).
  - eapply (reach_add 8 0 NewTrie _ _
              "/img/logo.png" "cid1" 10 MIMEOctetStream 1700000000).
    + apply reach_new.
    + vm_compute. reflexivity.
  - vm_compute. reflexivity.
Defined.


(* ================================================================== *)
(** ** [Stat] and [File] around the first entry *)
(* ================================================================== *)

(** [Stat] sees directories, [File] does not.  In the trie that holds
    one file, [File] of any other path returns [ErrFileNotExist]; [Stat]
    of any other path but "/" returns a directory, named after the
    requested path, exactly when the path is a directory above the file
    ([dirAbove]), as the directory that holds the file is. *)
Theorem Stat_sees_directories (fuel : nat) (now : Z) (path cid : string) (size : Z)
      (t : string) (createdAt : Z) (mt' : Trie) (created : list Entry)
  (H : AddFile fuel now NewTrie (Some (NewEntry path cid size t createdAt))
       = Ret (mt', created, None))
  (Ht : String.eqb t MIMEDriveEntry = false)
  (q : string) (Hq : 0 < String.length q) (Hr : q <> Separator)
  (Hn : CleanPath q <> CleanPath path) :
  File mt' q = (mt', None, Some ErrFileNotExist) /\
  Stat mt' q
  = Ret (if dirAbove (CleanPath path) (CleanPath q)
         then (Some (setName (Base q) (dirContent "" createdAt)), None)
         else (None, Some ErrFileNotExist)) /\
  let idx := Z.to_nat (LastIndex (CleanPath path) Separator) in
  dirAbove (CleanPath path) (take idx (CleanPath path)) = true.
Proof.
  destruct (first_root _ _ _ _ _ _ _ _ _ H) as [Np R].
  rewrite Ht in R. destruct R as (O & Td & ->).
  set (c := mkContent _ _ _ _ _ _).
  assert (Tc : isEntryType c = false).
  { unfold isEntryType, c. cbn [Type_].
    destruct (String.eqb_spec t "") as [->|_]; [reflexivity|exact Ht]. }
  assert (L : Nat.eqb (String.length q) 0 = false).
  { destruct q; [simpl in Hq; lia|reflexivity]. }
  split; [|split].
  - unfold File. rewrite L, find_leaf; auto.
    now apply CleanPath_nonempty.
  - unfold Stat. rewrite L.
    destruct (String.eqb_spec q Separator) as [|_]; [contradiction|].
    rewrite stat_leaf by (try reflexivity; exact Tc). cbn [Path EContent bind].
    destruct (String.eqb_spec (CleanPath q) (CleanPath path)) as [|_];
      [contradiction|].
    destruct (dirAbove _ _); reflexivity.
  - cbv zeta.
    assert (Hp : 0 < String.length path).
    { destruct path; [contradiction|simpl; lia]. }
    destruct (CleanPath_shape path Hp) as (_ & Hs & _).
    rewrite HasPrefix_sep in Hs.
    pose proof (LastIndex_split (CleanPath path)) as S. cbv zeta in S.
    destruct (Z.leb_spec 0 (LastIndex (CleanPath path) Separator)) as [_|_].
    + destruct S as [E _].
      set (parent := take (Z.to_nat (LastIndex (CleanPath path) Separator))
                          (CleanPath path)) in *.
      unfold dirAbove. rewrite E, HasPrefix_append.
      replace (String.length parent) with (String.length parent + 0) by lia.
      rewrite byteAt_append_r. reflexivity.
    + rewrite (noSlash_byteAt _ 0 S) in Hs. discriminate.
Qed.

Lemma Stat_sees_directories_witness :
  File (Some readme) "/docs" = (Some readme, None, Some ErrFileNotExist) /\
  Stat (Some readme) "/docs"
  = Ret (if dirAbove (CleanPath "/docs/readme") (CleanPath "/docs")
         then (Some (setName (Base "/docs") (dirContent "" 1700000000)), None)
         else (None, Some ErrFileNotExist)) /\
  let idx := Z.to_nat (LastIndex (CleanPath "/docs/readme") Separator) in
  dirAbove (CleanPath "/docs/readme") (take idx (CleanPath "/docs/readme")) = true.
Proof.
  apply (Stat_sees_directories 1 0 "/docs/readme" "cid1" 100 MIMEOctetStream
           1700000000 (Some readme) []).
  - reflexivity.
  - reflexivity.
  - simpl. lia.
  - discriminate.
  - vm_compute. discriminate.
Defined.


(** The path of the first entry is taken.  Whatever entry went into the
    empty trie, a file or a directory marker, [AddFile] turns down every
    valid entry whose path cleans to the same path, a file or a directory
    marker, with [ErrConflict], and leaves the trie as it was. *)
Theorem AddFile_same_path_conflicts (fuel : nat) (now : Z) (path cid : string)
      (size : Z) (t : string) (createdAt : Z) (mt' : Trie) (created : list Entry)
  (H : AddFile fuel now NewTrie (Some (NewEntry path cid size t createdAt))
       = Ret (mt', created, None))
  (fuel2 : nat) (now2 : Z) (path2 cid2 : string) (size2 : Z) (t2 : string)
  (createdAt2 : Z)
  (Hsame : CleanPath path2 = CleanPath path)
  (Hvalid : rejection path2 t2 = None) :
  exists created2,
    AddFile fuel2 now2 mt' (Some (NewEntry path2 cid2 size2 t2 createdAt2))
    = Ret (mt', created2, Some ErrConflict).
Proof.
  destruct (first_root _ _ _ _ _ _ _ _ _ H) as [Np R].
  pose proof (Validate_NewEntry path2 cid2 size2 t2 createdAt2) as V.
  rewrite <- prepared_error, Hvalid in V.
  unfold AddFile.
  destruct (prepared (NewEntry path2 cid2 size2 t2 createdAt2)) as [m2 e2] eqn:P.
  cbn [snd] in V. subst e2.
  pose proof (prepared_ok _ _ P) as (Pm & _ & _).
  destruct (NewEntry_shape path2 cid2 size2 t2 createdAt2) as [Np2 _].
  cbv zeta in Np2. rewrite Np2, Hsame in Pm.
  rewrite copy_id.
  assert (A : forall root,
             Path root = CleanPath path ->
             (isEntryType (EContent root) = false \/
              exists c, isEntryType (EContent root) = true /\
                        Entries root = [mkEntry c SpecialPathSymbol [] None]) ->
             exists created2,
               addTo now2 root m2 = Ret (root, created2, Some ErrConflict)).
  { intros root Pr Hroot. rewrite addTo_unfold. cbv zeta.
    rewrite Pr, Pm, HasPrefix_refl, TrimPrefix_refl. cbn [String.length Nat.eqb].
    unfold extend. destruct Hroot as [T|(c & T & E)]; rewrite T; cbn [negb].
    - eexists. reflexivity.
    - rewrite E. cbn [extendConflict Path].
      change (String.eqb SpecialPathSymbol SpecialPathSymbol) with true.
      eexists. reflexivity. }
  destruct (String.eqb t MIMEDriveEntry) eqn:Te.
  - subst mt'. rewrite NewEntry_folder.
    destruct (A (mkEntry (mkContent "" "" MIMEDriveEntry 0 0 createdAt)
                         (CleanPath path)
                         [mkEntry (mkContent "" "" MIMEDriveEntry 0 0 createdAt)
                                  SpecialPathSymbol [] None] None)) as (cr & Ha).
    + reflexivity.
    + right. eexists. split; reflexivity.
    + rewrite Ha. eexists. reflexivity.
  - destruct R as (_ & _ & ->).
    match goal with
    | |- context [addTo now2 ?r m2] => destruct (A r) as (cr & Ha)
    end.
    + reflexivity.
    + left. unfold isEntryType. cbn [EContent Type_].
      destruct (String.eqb_spec t "") as [->|_]; [reflexivity|exact Te].
    + rewrite Ha. eexists. reflexivity.
Qed.

Lemma AddFile_same_path_conflicts_witness :
  exists created2,
    AddFile 1 5 (Some readme)
            (Some (NewEntry "//docs/readme/" "" 0 MIMEDriveEntry 1700000900))
    = Ret (Some readme, created2, Some ErrConflict).
Proof.
  apply (AddFile_same_path_conflicts 1 0 "/docs/readme" "cid1" 100 MIMEOctetStream
           1700000000 (Some readme) []).
  - reflexivity.
  - reflexivity.
  - reflexivity.
Defined.


(* ================================================================== *)
(** ** The entries along a path *)
(* ================================================================== *)

Section SplitEntry.

Variable entry : Entry.
Variable n : nat.

Lemma splitEntryLoop_length (paths : list string) :
  forall i cur,
    List.length (splitEntryLoop entry n paths i cur)
    = List.length (filter named paths).
Proof.
  induction paths as [|p rest IH]; intros i cur; [reflexivity|].
  cbn [splitEntryLoop filter]. unfold named at 1.
  destruct (String.eqb p ""); cbn [negb List.length]; rewrite IH; reflexivity.
Qed.

Lemma splitEntryLoop_dirs (paths : list string) :
  forall i cur,
    i + List.length paths = n ->
    Forall (fun x => EType x = MIMEDriveDirectory)
           (removelast (splitEntryLoop entry n paths i cur)).
Proof.
  induction paths as [|p rest IH]; intros i cur Hi; [constructor|].
  cbn [splitEntryLoop]. cbn [List.length] in Hi.
  destruct (String.eqb p ""); [apply IH; lia|].
  set (cur' := if Nat.eqb i 0 then p else cur ++ Separator ++ p).
  specialize (IH (S i) cur' ltac:(lia)).
  destruct (splitEntryLoop entry n rest (S i) cur') as [|y out] eqn:E.
  { constructor. }
  change (removelast (?x :: y :: out)) with (x :: removelast (y :: out)).
  constructor; [|exact IH].
  destruct rest as [|r rest']; [discriminate E|].
  cbn [List.length] in Hi.
  destruct (Nat.eqb_spec i (n - 1)) as [Q|_]; [lia|].
  rewrite orb_true_r. reflexivity.
Qed.

Lemma splitEntryLoop_last (paths : list string) :
  forall i cur,
    i + List.length paths = n ->
    IsDirectory (EContent entry) = false ->
    named (last paths "") = true ->
    exists x,
      last (splitEntryLoop entry n paths i cur) x = x /\
      In x (splitEntryLoop entry n paths i cur) /\
      CID (EContent x) = CID (EContent entry) /\
      Size (EContent x) = Size (EContent entry) /\
      EType x = EType entry.
Proof.
  induction paths as [|p rest IH]; intros i cur Hi Hd Hl; [discriminate|].
  cbn [splitEntryLoop]. cbn [List.length] in Hi.
  destruct rest as [|r rest'].
  - cbn [List.length] in Hi. cbn [last] in Hl. unfold named in Hl. apply negb_true_iff in Hl. rewrite Hl.
    replace (Nat.eqb i (n - 1)) with true by (symmetry; apply Nat.eqb_eq; lia).
    rewrite Hd. cbn [orb negb splitEntryLoop].
    eexists. split; [reflexivity|]. split; [left; reflexivity|].
    unfold EType, NewContent, IsDirectory in *. cbn [EContent].
    apply orb_false_iff in Hd as [_ Hd]. rewrite Hd.
    repeat split; reflexivity.
  - change (last (p :: r :: rest') "") with (last (r :: rest') "") in Hl.
    set (cur' := if Nat.eqb i 0 then p else cur ++ Separator ++ p).
    destruct (String.eqb p "").
    + apply IH; auto. cbn [List.length] in *. lia.
    + destruct (IH (S i) cur' ltac:(cbn [List.length] in *; lia) Hd Hl)
        as (x & L & I & Hx).
      exists x. split; [|split; [right; exact I|exact Hx]].
      destruct (splitEntryLoop entry n (r :: rest') (S i) cur') as [|y out] eqn:E;
        [contradiction|].
      exact L.
Qed.

End SplitEntry.

Section SplitLast.

Lemma last_cons (x : string) (l : list string) :
  l <> [] -> last (x :: l) "" = last l "".
Proof. destruct l; [contradiction|reflexivity]. Qed.

Lemma Split_last (s : string) :
  named (last (Split s SeparatorRune) "")
  = negb (String.eqb s "") && negb (byte_is (lastOf s) SeparatorRune).
Proof.
  induction s as [|c s IH]; [reflexivity|].
  change (String.eqb (String c s) "") with false. cbn [negb andb].
  rewrite Split_cons.
  destruct s as [|d s].
  - cbn [Split hd tl lastOf byte_is].
    destruct (Ascii.eqb c SeparatorRune); reflexivity.
  - change (lastOf (String c (String d s))) with (lastOf (String d s)).
    change (String.eqb (String d s) "") with false in IH. cbn [negb andb] in IH.
    rewrite <- IH.
    destruct (Ascii.eqb c SeparatorRune).
    + rewrite last_cons by apply Split_not_nil. reflexivity.
    + rewrite (Split_cons d s).
      destruct (Ascii.eqb d SeparatorRune); cbn [hd tl].
      * rewrite last_cons by apply Split_not_nil.
        rewrite last_cons by apply Split_not_nil. reflexivity.
      * destruct (tl (Split s SeparatorRune)) as [|w ws]; reflexivity.
Qed.

End SplitLast.

(** The entries along a path.  [splitEntry] yields one entry per name
    of the entry's path; all of them but the last are directories; and
    when the entry is neither a directory nor a directory marker and its
    path does not end with a separator, the last one carries the entry's
    [cid], [size] and type. *)
Theorem splitEntry_along_path (entry : Entry) :
  List.length (splitEntry entry) = List.length (segments (Path entry)) /\
  Forall (fun x => EType x = MIMEDriveDirectory) (removelast (splitEntry entry)) /\
  (IsDirectory (EContent entry) = false ->
   Path entry <> "" ->
   byte_is (lastByte (Path entry)) SeparatorRune = false ->
   exists x,
     last (splitEntry entry) x = x /\ In x (splitEntry entry) /\
     CID (EContent x) = CID (EContent entry) /\
     Size (EContent x) = Size (EContent entry) /\
     EType x = EType entry).
Proof.
  unfold splitEntry. split; [apply splitEntryLoop_length|]. split.
  - apply splitEntryLoop_dirs. reflexivity.
  - intros Hd Hp Hl. apply splitEntryLoop_last; [reflexivity|exact Hd|].
    rewrite Split_last. unfold lastByte in Hl. rewrite byteAt_last in Hl.
    rewrite Hl. destruct (String.eqb_spec (Path entry) ""); [contradiction|].
    reflexivity.
Qed.
